(** * The JFR sidecar's file-lifecycle pipeline

    A shallow embedding of the Go daemon in
    [go-sidecar/internal/daemon/scanner.go] and of the uploader in
    [go-sidecar/internal/uploader/gcs.go], with the properties of the
    pipeline stated over it.

    The daemon is effectful: it reads and removes local files, sleeps while
    producers keep writing, and talks to an object store.  Its functions are
    embedded in a small state monad over a [World] that holds the local file
    system, the bucket store, the watcher's subscription set, the process
    environment, the script of what the rest of the machine does, and the
    trace of the calls the daemon has made.

    - The local file system maps paths to inodes and inodes to nodes, so
      that an open file keeps its content whatever happens to its name.
    - Every call of the daemon that reaches the operating system or the
      remote store first lets the environment take one [Turn] of the
      script: producers may change the file system in any way, and the
      call may run into an error.  The properties quantify over all
      scripts unless they say that the environment is quiet.
    - The bucket store maps a bucket and an object name to the object; a
      remote writer gathers bytes and its [Close] binds the name to them.
    - The calls of Go's library ([os], [io], [path/filepath], [strings],
      [fsnotify], [storage]) are modelled after their documented
      behaviour on Linux; a copy is one step; there are no symbolic
      links; [filepath.Walk] takes a bound on the depth of the tree where
      Go recurses freely.
    - The [select] of the event loop is given the list of what it
      receives; the ticker and the deferred [Close] calls of [Start] hold
      no state of interest and are left out.

    The handlers of the sidecar's API server (package [api]) are embedded
    in a second state monad, over a [Host] that holds what the commands to
    come will print, the commands run so far, the response written and
    the log.

    - A request is its method and what [json.Decode] makes of its body;
      an [http.ResponseWriter] is its header, the statuses written and
      the values encoded to it.
    - [exec.Command(...).CombinedOutput()] takes its outcome from the
      host.
    - [strconv.Atoi] and [strconv.Itoa] are those of a 64-bit [int];
      strings are byte strings, and [strings.TrimSpace] decodes UTF-8 as
      Go does.
    - A message that [fmt.Sprintf] builds from an error is kept as its
      format and its arguments.
    - [api.Start] (the routes and [http.ListenAndServe]) and
      [listProfilesHandler] (modification times) are left out. *)

From Stdlib Require Import Strings.Ascii Strings.String Strings.Byte.
From stdpp Require Import gmap strings list.

(** ** Go's [strings] and [path/filepath], as far as the daemon uses them *)

(** [os.PathSeparator] on the Linux hosts the sidecar runs on. *)
Definition PathSeparator : ascii := "/"%char.

Module strings.

(** [strings.HasSuffix]: [len(s) >= len(suffix) &&
    s[len(s)-len(suffix):] == suffix]. *)
Definition HasSuffix (s suffix : string) : bool :=
  (String.length suffix <=? String.length s)%nat &&
  String.eqb
    (substring (String.length s - String.length suffix)
               (String.length suffix) s)
    suffix.

(** [strings.Split] with a one-character separator: the pieces between
    the separators; a string without separator, the empty one included,
    gives a single piece. *)
Fixpoint Split (s : string) (sep : ascii) : list string :=
  match s with
  | EmptyString => [EmptyString]
  | String c rest =>
      if Ascii.eqb c sep then EmptyString :: Split rest sep
      else match Split rest sep with
           | [] => [String c EmptyString]
           | piece :: pieces => String c piece :: pieces
           end
  end.

(** [strings.Join] with a one-character separator. *)
Fixpoint Join (elems : list string) (sep : ascii) : string :=
  match elems with
  | [] => EmptyString
  | [e] => e
  | e :: rest => e +:+ String sep (Join rest sep)
  end.

(** Whether a byte occurs in a string ([strings.IndexByte(s, c) >= 0]). *)
Fixpoint Contains (s : string) (c : ascii) : bool :=
  match s with
  | EmptyString => false
  | String c' rest => Ascii.eqb c' c || Contains rest c
  end.

End strings.

Module filepath.

Definition rooted (path : string) : bool :=
  match path with
  | String c _ => Ascii.eqb c PathSeparator
  | EmptyString => false
  end.

(** One element of the path processed by [Clean]; [kept] holds the
    elements kept so far, last one first. *)
Definition clean_elem (isroot : bool) (kept : list string) (elem : string)
  : list string :=
  if String.eqb elem "" then kept
  else if String.eqb elem "." then kept
  else if String.eqb elem ".." then
    match kept with
    | top :: below => if String.eqb top ".." then elem :: kept else below
    | [] => if isroot then [] else [elem]
    end
  else elem :: kept.

Definition clean_elems (path : string) : list string :=
  rev (fold_left (clean_elem (rooted path))
                 (strings.Split path PathSeparator) []).

(** [filepath.Clean]: repeated separators collapse, [.] elements go,
    an inner [..] goes with the element before it, [..] at the start of
    a rooted path goes, and the empty result is [.]. *)
Definition Clean (path : string) : string :=
  let elems := clean_elems path in
  if rooted path then String PathSeparator (strings.Join elems PathSeparator)
  else match elems with
       | [] => "."
       | _ => strings.Join elems PathSeparator
       end.

(** The elements of a cleaned path that [Rel] compares one by one. *)
Definition elements_of (cleaned : string) : list string :=
  let body := match cleaned with
              | String c rest =>
                  if Ascii.eqb c PathSeparator then rest else cleaned
              | EmptyString => cleaned
              end in
  if String.eqb body "" then [] else strings.Split body PathSeparator.

Fixpoint drop_common (base targ : list string)
  : list string * list string :=
  match base, targ with
  | b :: base', t :: targ' =>
      if String.eqb b t then drop_common base' targ' else (base, targ)
  | _, _ => (base, targ)
  end.

(** [filepath.Rel]: both paths are cleaned; equal paths give [.]; a
    rooted and an unrooted path cannot be related; otherwise the common
    leading elements are dropped, each element left of the base becomes
    [..], and the elements left of the target follow. *)
Definition Rel (basepath targpath : string) : string + string :=
  let base := Clean basepath in
  let targ := Clean targpath in
  if String.eqb targ base then inl "."
  else
    let base := if String.eqb base "." then "" else base in
    if negb (Bool.eqb (rooted base) (rooted targ)) then
      inr ("Rel: can't make " +:+ targpath +:+ " relative to " +:+ basepath)
    else
      let '(b, t) := drop_common (elements_of base) (elements_of targ) in
      match b with
      | [] => inl (strings.Join t PathSeparator)
      | b0 :: _ =>
          if String.eqb b0 ".." then
            inr ("Rel: can't make " +:+ targpath +:+ " relative to "
                 +:+ basepath)
          else
            inl (strings.Join (((fun _ => "..") <$> b) ++ t) PathSeparator)
      end.

(** [for len(path) > 0 && os.IsPathSeparator(path[len(path)-1])
    { path = path[0 : len(path)-1] }] *)
Fixpoint trim_trailing (s : string) : string :=
  match s with
  | EmptyString => EmptyString
  | String c rest =>
      match trim_trailing rest with
      | EmptyString =>
          if Ascii.eqb c PathSeparator then EmptyString
          else String c EmptyString
      | trimmed => String c trimmed
      end
  end.

(** [filepath.Base]: the last element of the path, after trailing
    separators are dropped; [.] for the empty path and [/] for a path of
    separators only. *)
Definition Base (path : string) : string :=
  if String.eqb path "" then "."
  else
    let last_elem :=
      List.last (strings.Split (trim_trailing path) PathSeparator) "" in
    if String.eqb last_elem "" then String PathSeparator "" else last_elem.

End filepath.

(** *** Directory entry names and the paths built from them *)

(** A directory entry name: not empty, not [.] or [..], no separator. *)
Definition is_name (s : string) : bool :=
  negb (String.eqb s "") && negb (String.eqb s ".") &&
  negb (String.eqb s "..") && negb (strings.Contains s PathSeparator).

(** [filepath.Join(dir, elems...)] for a clean [dir] and entry names. *)
Definition below (dir : string) (elems : list string) : string :=
  dir +:+ String PathSeparator (strings.Join elems PathSeparator).

(** ** The daemon's constants *)

(** [rootProfileDir = "/tmp/jfr"]: the root HostPath directory. *)
Definition rootProfileDir : string := "/tmp/jfr".

(** ** Values of the Go program *)

(** A Go [error] value (never [nil]; a nilable error is an [option error]).
    [Errno] stands for an error of the operating system or of the remote
    API; [Errorf] is [fmt.Errorf] with its format and its arguments. *)
Inductive Arg :=
  | Str (s : string)
  | Num (n : nat)
  | Val (e : error)
with error :=
  | Errno (msg : string)
  | Errorf (format : string) (args : list Arg).

(** A Go pair [(value, err)] of which exactly one part is meaningful. *)
Inductive Result (A : Type) :=
  | Ok (a : A)
  | Err (e : error).
Arguments Ok {A} a.
Arguments Err {A} e.

Definition error_of {A} (r : Result A) : option error :=
  match r with Ok _ => None | Err e => Some e end.

(** ** The local file system *)

(** A regular file with its bytes, or a directory (whose reported size is
    whatever the system says). *)
Inductive Node :=
  | File (content : list byte)
  | Dir (syssize : nat).

(** Directory entries name inodes; an open file keeps its inode whatever
    happens to the name. *)
Record FS := {
  dirents : gmap string nat;
  inodes : gmap nat Node;
}.

Record FileInfo := {
  Name : string;
  Size : nat;
  IsDir : bool;
}.

Definition info_of (name : string) (n : Node) : FileInfo :=
  match n with
  | File content => {| Name := name; Size := length content; IsDir := false |}
  | Dir syssize => {| Name := name; Size := syssize; IsDir := true |}
  end.

Definition node_at (f : FS) (path : string) : option Node :=
  dirents f !! path ≫= λ i, inodes f !! i.

(** The names of the entries directly inside [dirname], in the order of
    [sort.Strings]. *)
Fixpoint insert_sorted (name : string) (sorted : list string) : list string :=
  match sorted with
  | [] => [name]
  | n :: rest =>
      if String.leb name n then name :: sorted
      else n :: insert_sorted name rest
  end.

Definition entry_name (dirname path : string) : option string :=
  let prefix := dirname +:+ String PathSeparator "" in
  if String.prefix prefix path then
    let name := substring (String.length prefix)
                          (String.length path - String.length prefix) path in
    if is_name name then Some name else None
  else None.

Definition entries (f : FS) (dirname : string) : list string :=
  foldr insert_sorted []
        (omap (entry_name dirname) (elements (dom (dirents f)))).

(** ** The bucket store *)

Record Object := {
  ContentType : string;
  data : list byte;
}.

(** A [storage.Writer]: the object it writes, the attributes set on it and
    the bytes handed to it so far. *)
Record Writer := {
  w_bucket : string;
  w_object : string;
  w_ContentType : string;
  w_buffered : list byte;
}.

(** ** The environment *)

(** What the rest of the machine does around one call of the daemon: the
    producers' effect on the file system before the call takes effect, an
    error the call runs into, and, for a copy that fails, how many bytes
    went through before. *)
Record Turn := {
  interfere : FS -> FS;
  fault : option string;
  progress : nat;
}.

Definition quiet : Turn :=
  {| interfere := λ f, f; fault := None; progress := 0 |}.
Definition fails (msg : string) : Turn :=
  {| interfere := λ f, f; fault := Some msg; progress := 0 |}.
Definition fails_after (n : nat) (msg : string) : Turn :=
  {| interfere := λ f, f; fault := Some msg; progress := n |}.
Definition producer (act : FS -> FS) : Turn :=
  {| interfere := act; fault := None; progress := 0 |}.

(** An open [os.File]. *)
Record OsFile := {
  f_name : string;
  f_inode : nat;
}.

(** ** The daemon's calls, as recorded in the trace *)

Inductive Action :=
  | AStat (path : string) (r : Result FileInfo)
  | AOpen (path : string) (r : Result OsFile)
  | AFileStat (f : OsFile) (r : Result FileInfo)
  | AFileClose (f : OsFile)
  | ASleep (seconds : nat)
  | AReadDir (dirname : string) (r : Result (list string))
  | ANewWriter (bucket object : string)
  | ACopy (bucket object : string) (written : nat) (err : option error)
  | AWriterClose (bucket object : string) (err : option error)
  | ARemove (path : string) (err : option error)
  | AWatch (path : string) (err : option error)
  | AInfof (format : string) (args : list Arg)
  | AInfo (fields : list (string * Arg)) (msg : string).

Record World := {
  fs : FS;
  objects : gmap (string * string) Object;
  watches : gset string;
  environ : gmap string string;
  script : list Turn;
  trace : list Action;
}.

(** ** The monad of the embedding *)

Definition M (A : Type) : Type := World -> A * World.

Global Instance M_ret : MRet M := λ A a w, (a, w).
Global Instance M_bind : MBind M :=
  λ A B k m w, let '(a, w') := m w in k a w'.

(** *** What a call does to the world *)

(** The environment takes its next turn: the first one left in the script,
    or a quiet one when the script is over. *)
Definition next_turn (w : World) : Turn := hd quiet (script w).

Definition turned (w : World) : World :=
  {| fs := interfere (next_turn w) (fs w); objects := objects w;
     watches := watches w; environ := environ w; script := tl (script w);
     trace := trace w |}.

(** The call is recorded. *)
Definition noted (a : Action) (w : World) : World :=
  {| fs := fs w; objects := objects w; watches := watches w;
     environ := environ w; script := script w; trace := trace w ++ [a] |}.

(** A directory entry is removed. *)
Definition unlinked (path : string) (w : World) : World :=
  {| fs := {| dirents := delete path (dirents (fs w));
              inodes := inodes (fs w) |};
     objects := objects w; watches := watches w; environ := environ w;
     script := script w; trace := trace w |}.

(** An object is created or replaced in a bucket. *)
Definition stored (key : string * string) (o : Object) (w : World) : World :=
  {| fs := fs w; objects := <[key := o]> (objects w); watches := watches w;
     environ := environ w; script := script w; trace := trace w |}.

(** A directory is subscribed for change notifications. *)
Definition subscribed (path : string) (w : World) : World :=
  {| fs := fs w; objects := objects w; watches := {[path]} ∪ watches w;
     environ := environ w; script := script w; trace := trace w |}.

Definition env_step : M Turn := λ w, (next_turn w, turned w).
Definition emit (a : Action) : M unit := λ w, (tt, noted a w).
Definition get_fs : M FS := λ w, (fs w, w).
Definition unlink (path : string) : M unit := λ w, (tt, unlinked path w).
Definition put_object (key : string * string) (o : Object) : M unit :=
  λ w, (tt, stored key o w).
Definition add_watch (path : string) : M unit :=
  λ w, (tt, subscribed path w).

Module logger.
(** [logger.Log.Infof(format, args...)] *)
Definition Infof (format : string) (args : list Arg) : M unit :=
  emit (AInfof format args).
(** [logger.Log.WithFields(fields).Info(msg)] *)
Definition Info (fields : list (string * Arg)) (msg : string) : M unit :=
  emit (AInfo fields msg).
End logger.

Module time.
(** [time.Sleep]: the daemon waits and the environment runs. *)
Definition Sleep (seconds : nat) : M unit :=
  _ ← env_step; emit (ASleep seconds).
End time.

Module os.

Definition ENOENT : error := Errno "no such file or directory".
Definition ENOTEMPTY : error := Errno "directory not empty".
Definition EISDIR : error := Errno "is a directory".
Definition EBADF : error := Errno "bad file descriptor".

Definition stat_result (t : Turn) (f : FS) (path : string)
  : Result FileInfo :=
  match fault t with
  | Some msg => Err (Errno msg)
  | None =>
      match node_at f path with
      | Some n => Ok (info_of (filepath.Base path) n)
      | None => Err ENOENT
      end
  end.

(** [os.Stat] (and [os.Lstat]: there are no symbolic links here). *)
Definition Stat (path : string) : M (Result FileInfo) :=
  t ← env_step;
  f ← get_fs;
  let r := stat_result t f path in
  emit (AStat path r);; mret r.

Definition open_result (t : Turn) (f : FS) (path : string)
  : Result OsFile :=
  match fault t with
  | Some msg => Err (Errno msg)
  | None =>
      match dirents f !! path with
      | Some i => Ok {| f_name := path; f_inode := i |}
      | None => Err ENOENT
      end
  end.

(** [os.Open] *)
Definition Open (path : string) : M (Result OsFile) :=
  t ← env_step;
  f ← get_fs;
  let r := open_result t f path in
  emit (AOpen path r);; mret r.

Definition filestat_result (t : Turn) (f : FS) (file : OsFile)
  : Result FileInfo :=
  match fault t with
  | Some msg => Err (Errno msg)
  | None =>
      match inodes f !! f_inode file with
      | Some n => Ok (info_of (filepath.Base (f_name file)) n)
      | None => Err EBADF
      end
  end.

(** [Stat] on an open file *)
Definition FileStat (file : OsFile) : M (Result FileInfo) :=
  t ← env_step;
  f ← get_fs;
  let r := filestat_result t f file in
  emit (AFileStat file r);; mret r.

(** [Close] on an open file, deferred by the uploader; its result is
    dropped. *)
Definition FileClose (file : OsFile) : M unit :=
  emit (AFileClose file).

Definition remove_result (t : Turn) (f : FS) (path : string)
  : option error :=
  match fault t with
  | Some msg => Some (Errno msg)
  | None =>
      match node_at f path with
      | None => Some ENOENT
      | Some (File _) => None
      | Some (Dir _) =>
          match entries f path with
          | [] => None
          | _ => Some ENOTEMPTY
          end
      end
  end.

(** [os.Remove]: unlinks a file, or removes a directory that is empty. *)
Definition Remove (path : string) : M (option error) :=
  t ← env_step;
  f ← get_fs;
  let err := remove_result t f path in
  match err with
  | None => unlink path
  | Some _ => mret tt
  end;;
  emit (ARemove path err);; mret err.

(** [os.Getenv] *)
Definition Getenv (key : string) : M string :=
  λ w, (default "" (environ w !! key), w).

End os.

(** [filepath.Walk], for callbacks that never answer [SkipDir] (the
    daemon's do not).  Go recurses on the directory tree; [depth] bounds
    how deep the recursion may go. *)
Definition WalkFunc : Type :=
  string -> option FileInfo -> option error -> M (option error).

Definition readdir_result (t : Turn) (f : FS) (dirname : string)
  : Result (list string) :=
  match fault t with
  | Some msg => Err (Errno msg)
  | None => Ok (entries f dirname)
  end.

Definition readDirNames (dirname : string) : M (Result (list string)) :=
  t ← env_step;
  f ← get_fs;
  let r := readdir_result t f dirname in
  emit (AReadDir dirname r);; mret r.

Definition too_deep : error := Errno "directory tree deeper than the bound".

Section walk_entries.

Variable walkDir : string -> FileInfo -> M (option error).
Variable walkFn : WalkFunc.
Variable path : string.

(** The loop of [walk] over the names read from the directory [path];
    [walkDir] walks an entry that could be stat'ed. *)
Fixpoint each_entry (names : list string) : M (option error) :=
  match names with
  | [] => mret None
  | name :: rest =>
      let filename := below path [name] in
      r ← os.Stat filename;
      err ← match r with
            | Err err => walkFn filename None (Some err)
            | Ok fileInfo => walkDir filename fileInfo
            end;
      match err with
      | Some err => mret (Some err)
      | None => each_entry rest
      end
  end.

End walk_entries.

Fixpoint walk (depth : nat) (path : string) (info : FileInfo)
  (walkFn : WalkFunc) {struct depth} : M (option error) :=
  if negb (IsDir info) then walkFn path (Some info) None
  else
    r ← readDirNames path;
    err1 ← walkFn path (Some info) (error_of r);
    match r, err1 with
    | Ok names, None =>
        match depth with
        | 0 => mret (match names with [] => None | _ => Some too_deep end)
        | S depth' =>
            each_entry (λ filename fileInfo,
                          walk depth' filename fileInfo walkFn)
                       walkFn path names
        end
    | _, _ => mret err1
    end.

Definition Walk (depth : nat) (root : string) (fn : WalkFunc)
  : M (option error) :=
  r ← os.Stat root;
  match r with
  | Err err => fn root None (Some err)
  | Ok info => walk depth root info fn
  end.

Module storage.

(** [obj.NewWriter(ctx)] for the object [object] of [bucket]. *)
Definition NewWriter (bucket object : string) : M Writer :=
  emit (ANewWriter bucket object);;
  mret {| w_bucket := bucket; w_object := object;
          w_ContentType := ""; w_buffered := [] |}.

Definition set_ContentType (writer : Writer) (ct : string) : Writer :=
  {| w_bucket := w_bucket writer; w_object := w_object writer;
     w_ContentType := ct; w_buffered := w_buffered writer |}.

Definition write (writer : Writer) (bytes : list byte) : Writer :=
  {| w_bucket := w_bucket writer; w_object := w_object writer;
     w_ContentType := w_ContentType writer;
     w_buffered := w_buffered writer ++ bytes |}.

Definition object_of (writer : Writer) : Object :=
  {| ContentType := w_ContentType writer; data := w_buffered writer |}.

(** [writer.Close()]: the bytes handed to the writer become the object,
    replacing what the name held, or the call fails and the bucket is as
    before. *)
Definition Close (writer : Writer) : M (option error) :=
  t ← env_step;
  let err := Errno <$> fault t in
  match err with
  | None => put_object (w_bucket writer, w_object writer) (object_of writer)
  | Some _ => mret tt
  end;;
  emit (AWriterClose (w_bucket writer) (w_object writer) err);;
  mret err.

End storage.

Module io.

Definition copy_result (t : Turn) (f : FS) (src : OsFile)
  : list byte * option error :=
  match fault t, inodes f !! f_inode src with
  | Some msg, Some (File content) =>
      (take (progress t) content, Some (Errno msg))
  | Some msg, _ => ([], Some (Errno msg))
  | None, Some (File content) => (content, None)
  | None, Some (Dir _) => ([], Some os.EISDIR)
  | None, None => ([], Some os.EBADF)
  end.

(** [io.Copy(writer, file)]: all the bytes of the file go to the writer,
    or the copy fails after some of them. *)
Definition Copy (dst : Writer) (src : OsFile)
  : M (Writer * nat * option error) :=
  t ← env_step;
  f ← get_fs;
  let copied := copy_result t f src in
  emit (ACopy (w_bucket dst) (w_object dst) (length copied.1) copied.2);;
  mret (storage.write dst copied.1, length copied.1, copied.2).

End io.

Module fsnotify.

(** [fsnotify.Op] is a bit mask. *)
Definition Create : N := 1.
Definition Write : N := 2.
Definition Remove : N := 4.
Definition Rename : N := 8.
Definition Chmod : N := 16.

Record Event := {
  Name : string;
  Op : N;
}.

(** [fsnotify.NewWatcher] *)
Definition NewWatcher : M (option error) :=
  t ← env_step; mret (Errno <$> fault t).

Definition add_result (t : Turn) (f : FS) (path : string) : option error :=
  match fault t with
  | Some msg => Some (Errno msg)
  | None =>
      match node_at f path with
      | Some _ => None
      | None => Some os.ENOENT
      end
  end.

(** [watcher.Add(path)] *)
Definition Add (path : string) : M (option error) :=
  t ← env_step;
  f ← get_fs;
  let err := add_result t f path in
  match err with
  | None => add_watch path
  | Some _ => mret tt
  end;;
  emit (AWatch path err);; mret err.

End fsnotify.

(** ** [internal/uploader/gcs.go] *)

Module uploader.

(** The client handle of the uploader is the bucket store of the world. *)
Record GCSUploader := {
  bucketName : string;
}.

(** [NewGCSUploader] creates a new GCS uploader. *)
Definition NewGCSUploader (bucket : string) : M (Result GCSUploader) :=
  t ← env_step;
  match fault t with
  | Some msg =>
      mret (Err (Errorf "failed to create GCS client: %w" [Val (Errno msg)]))
  | None => mret (Ok {| bucketName := bucket |})
  end.

(** [fmt.Sprintf("%s/%s", podName, filename)] *)
Definition objectPath_of (podName filename : string) : string :=
  podName +:+ "/" +:+ filename.

(** [Upload] uploads a file to GCS and returns nil on success. *)
Definition Upload (u : GCSUploader) (localPath podName : string)
  : M (option error) :=
  (* Open local file *)
  r ← os.Open localPath;
  match r with
  | Err err =>
      mret (Some (Errorf "failed to open file %s: %w" [Str localPath; Val err]))
  | Ok file =>
      result ← (
        (* Get file info *)
        r ← os.FileStat file;
        match r with
        | Err err => mret (Some (Errorf "failed to get file info: %w" [Val err]))
        | Ok fileInfo =>
            (* Wait a bit and check if file is still being written *)
            time.Sleep 2;;
            r ← os.FileStat file;
            match r with
            | Err err =>
                mret (Some (Errorf "failed to re-check file info: %w" [Val err]))
            | Ok newInfo =>
                if negb (Size newInfo =? Size fileInfo) then
                  mret (Some (Errorf
                    "file is still being written (size changed)" []))
                else
                  (* Construct GCS object path: {POD_NAME}/{FILENAME} *)
                  let filename := filepath.Base localPath in
                  let objectPath := objectPath_of podName filename in
                  (* Create GCS object writer *)
                  writer ← storage.NewWriter (bucketName u) objectPath;
                  let writer :=
                    storage.set_ContentType writer
                      "application/octet-stream" in
                  (* Stream file to GCS *)
                  logger.Info
                    [("local_path", Str localPath);
                     ("gcs_path",
                      Str ("gs://" +:+ bucketName u +:+ "/" +:+ objectPath));
                     ("size_bytes", Num (Size fileInfo))]
                    "Uploading file to GCS";;
                  copied ← io.Copy writer file;
                  let '(writer, bytesWritten, err) := copied in
                  match err with
                  | Some err =>
                      storage.Close writer;;
                      mret (Some (Errorf "failed to upload file: %w" [Val err]))
                  | None =>
                      (* Close the writer to finalize the upload *)
                      err ← storage.Close writer;
                      match err with
                      | Some err =>
                          mret (Some (Errorf
                            "failed to finalize upload: %w" [Val err]))
                      | None =>
                          logger.Info
                            [("bytes_written", Num bytesWritten);
                             ("gcs_path",
                              Str ("gs://" +:+ bucketName u +:+ "/"
                                 +:+ objectPath))]
                            "Successfully uploaded file to GCS";;
                          mret None
                      end
                  end
            end
        end);
      (* defer file.Close() *)
      os.FileClose file;;
      mret result
  end.

End uploader.

(** ** [internal/daemon/scanner.go] *)

Module daemon.

(** [processFile] uploads a file to GCS and deletes it locally on
    success. *)
Definition processFile (gcsUploader : uploader.GCSUploader)
  (filePath : string) : M (option error) :=
  (* Extract pod name from path: /tmp/jfr/{POD_NAME}/file.jfr *)
  match filepath.Rel rootProfileDir filePath with
  | inr msg =>
      mret (Some (Errorf "failed to get relative path: %w" [Val (Errno msg)]))
  | inl relativePath =>
      let parts := strings.Split relativePath PathSeparator in
      if length parts <? 2 then
        mret (Some (Errorf "invalid file path structure: %s" [Str filePath]))
      else
        let podName := default "" (parts !! 0) in
        (* Check if file exists and is readable *)
        r ← os.Stat filePath;
        match r with
        | Err err => mret (Some (Errorf "file not accessible: %w" [Val err]))
        | Ok fileInfo =>
            if Size fileInfo =? 0 then
              logger.Infof "Skipping empty file: %s" [Str filePath];;
              mret None
            else
              (* Upload to GCS *)
              logger.Infof "Uploading file: %s (pod: %s, size: %d bytes)"
                [Str filePath; Str podName; Num (Size fileInfo)];;
              err ← uploader.Upload gcsUploader filePath podName;
              match err with
              | Some err => mret (Some (Errorf "upload failed: %w" [Val err]))
              | None =>
                  (* Delete local file ONLY after successful upload *)
                  logger.Infof "Upload successful. Deleting local file: %s"
                    [Str filePath];;
                  err ← os.Remove filePath;
                  match err with
                  | Some err =>
                      mret (Some (Errorf "failed to delete local file: %w"
                                    [Val err]))
                  | None =>
                      logger.Infof "Successfully processed and deleted: %s"
                        [Str filePath];;
                      mret None
                  end
              end
        end
  end.

(** [handleFileEvent] processes file system events. *)
Definition handleFileEvent (gcsUploader : uploader.GCSUploader)
  (event : fsnotify.Event) : M unit :=
  (* Only care about Create and Write events for .jfr files *)
  if negb (strings.HasSuffix (fsnotify.Name event) ".jfr") then mret tt
  else if (N.land (fsnotify.Op event) fsnotify.Remove =? fsnotify.Remove)%N
  then
    logger.Infof "Detected file Removed: %s" [Str (fsnotify.Name event)]
  else if (N.land (fsnotify.Op event) fsnotify.Create =? fsnotify.Create)%N
       || (N.land (fsnotify.Op event) fsnotify.Write =? fsnotify.Write)%N
  then
    logger.Infof "Detected new/modified file: %s" [Str (fsnotify.Name event)];;
    (* Wait a bit to ensure file write is complete *)
    time.Sleep 5;;
    (* Process the file *)
    err ← processFile gcsUploader (fsnotify.Name event);
    match err with
    | Some err =>
        logger.Infof "Failed to process file %s: %v"
          [Str (fsnotify.Name event); Val err]
    | None => mret tt
    end
  else mret tt.

(** [scanAndUploadExisting] scans for existing .jfr files and uploads
    them. *)
Definition scanAndUploadExisting (depth : nat)
  (gcsUploader : uploader.GCSUploader) (rootDir : string)
  : M (option error) :=
  logger.Infof "Scanning for existing .jfr files in %s" [Str rootDir];;
  Walk depth rootDir (λ path info err,
    match err, info with
    | Some err, _ =>
        logger.Infof "Error accessing path %s: %v" [Str path; Val err];;
        mret None (* Continue walking *)
    | None, Some info =>
        (if negb (IsDir info) && strings.HasSuffix (Name info) ".jfr" then
           logger.Infof "Found existing file: %s" [Str path];;
           err ← processFile gcsUploader path;
           match err with
           | Some err =>
               logger.Infof "Failed to process existing file %s: %v"
                 [Str path; Val err]
           | None => mret tt
           end
         else mret tt);;
        mret None
    | None, None => mret None
    end).

(** [watchDirectoryRecursive] adds the directory and all subdirectories
    to the watcher. *)
Definition watchDirectoryRecursive (depth : nat) (root : string)
  : M (option error) :=
  Walk depth root (λ path info err,
    match err, info with
    | Some err, _ => mret (Some err)
    | None, Some info =>
        if IsDir info then
          logger.Infof "Watching directory: %s" [Str path];;
          err ← fsnotify.Add path;
          match err with
          | Some err =>
              mret (Some (Errorf "failed to watch %s: %w" [Str path; Val err]))
          | None => mret None
          end
        else mret None
    | None, None => mret None
    end).

(** What the event loop of [Start] can receive in one [select]. *)
Inductive Input :=
  | FromEvents (event : fsnotify.Event)
  | EventsClosed
  | FromErrors (err : error)
  | ErrorsClosed
  | Tick.

(** How [Start] ends: [logger.Log.Fatal], a return, or still selecting
    when the inputs given here are used up. *)
Inductive Exit :=
  | Fatal (format : string) (args : list Arg)
  | Returned
  | Selecting.

(** The [for { select { ... } }] of [Start]. *)
Fixpoint eventLoop (depth : nat) (gcsUploader : uploader.GCSUploader)
  (inputs : list Input) : M Exit :=
  match inputs with
  | [] => mret Selecting
  | FromEvents event :: later =>
      handleFileEvent gcsUploader event;;
      eventLoop depth gcsUploader later
  | EventsClosed :: _ => mret Returned
  | FromErrors err :: later =>
      logger.Infof "Watcher error: %v" [Val err];;
      eventLoop depth gcsUploader later
  | ErrorsClosed :: _ => mret Returned
  | Tick :: later =>
      (* Periodic scan as fallback *)
      err ← scanAndUploadExisting depth gcsUploader rootProfileDir;
      match err with
      | Some err => logger.Infof "Periodic scan failed: %v" [Val err]
      | None => mret tt
      end;;
      eventLoop depth gcsUploader later
  end.

(** [Start] begins the daemon scanner.  The deferred [Close] calls of the
    uploader and of the watcher free resources only and are left out. *)
Definition Start (depth : nat) (inputs : list Input) : M Exit :=
  bucketName ← os.Getenv "GCS_BUCKET";
  if String.eqb bucketName "" then
    mret (Fatal "GCS_BUCKET environment variable is required" [])
  else
    (* Initialize GCS uploader *)
    r ← uploader.NewGCSUploader bucketName;
    match r with
    | Err err => mret (Fatal "Failed to initialize GCS uploader: %v" [Val err])
    | Ok gcsUploader =>
        logger.Infof "Daemon scanner started. Watching %s for .jfr files"
          [Str rootProfileDir];;
        logger.Infof "GCS bucket: %s" [Str bucketName];;
        (* Create file system watcher *)
        err ← fsnotify.NewWatcher;
        match err with
        | Some err => mret (Fatal "Failed to create file watcher: %v" [Val err])
        | None =>
            (* Watch the root profile directory recursively *)
            err ← watchDirectoryRecursive depth rootProfileDir;
            match err with
            | Some err =>
                mret (Fatal "Failed to watch directory: %v" [Val err])
            | None =>
                (* Perform initial scan of existing files *)
                err ← scanAndUploadExisting depth gcsUploader rootProfileDir;
                match err with
                | Some err => logger.Infof "Initial scan failed: %v" [Val err]
                | None => mret tt
                end;;
                (* Event loop *)
                eventLoop depth gcsUploader inputs
            end
        end
    end.

End daemon.

(** ** Go's [strings] and [strconv], as far as the API server uses them *)

(** The bytes [strings.TrimSpace] takes for space in its ASCII path:
    [asciiSpace = {'\t', '\n', '\v', '\f', '\r', ' '}]. *)
Definition asciiSpace (c : ascii) : bool :=
  let n := N_of_ascii c in
  ((9 <=? n) && (n <=? 13) || (n =? 32))%N.

(** The UTF-8 encodings of the other runes of [unicode.IsSpace]: U+0085
    and U+00A0 in two bytes; U+1680, U+2000 to U+200A, U+2028, U+2029,
    U+202F, U+205F and U+3000 in three. *)
Definition space2 (c1 c2 : ascii) : bool :=
  let a := N_of_ascii c1 in
  let b := N_of_ascii c2 in
  ((a =? 194) && ((b =? 133) || (b =? 160)))%N.

Definition space3 (c1 c2 c3 : ascii) : bool :=
  let a := N_of_ascii c1 in
  let b := N_of_ascii c2 in
  let c := N_of_ascii c3 in
  ((a =? 225) && (b =? 154) && (c =? 128) ||
   (a =? 226) && (b =? 128) &&
     ((128 <=? c) && (c <=? 138) || (c =? 168) || (c =? 169) || (c =? 175)) ||
   (a =? 226) && (b =? 129) && (c =? 159) ||
   (a =? 227) && (b =? 128) && (c =? 128))%N.

(** Whether the bytes [s] are one rune and that rune is a space. *)
Definition is_space (s : string) : bool :=
  match s with
  | String c "" => asciiSpace c
  | String c1 (String c2 "") => space2 c1 c2
  | String c1 (String c2 (String c3 "")) => space3 c1 c2 c3
  | _ => false
  end.

(** [strings.TrimLeftFunc(s, unicode.IsSpace)]: the runes are decoded from
    the front and dropped as long as they are spaces. *)
Fixpoint trim_left (s : string) : string :=
  match s with
  | EmptyString => EmptyString
  | String c1 rest1 =>
      if asciiSpace c1 then trim_left rest1
      else
        match rest1 with
        | String c2 rest2 =>
            if space2 c1 c2 then trim_left rest2
            else
              match rest2 with
              | String c3 rest3 =>
                  if space3 c1 c2 c3 then trim_left rest3 else s
              | EmptyString => s
              end
        | EmptyString => s
        end
  end.

(** [strings.TrimRightFunc(s, unicode.IsSpace)]: the runes are decoded from
    the back and dropped as long as they are spaces.  What is left of
    [String c rest] is [c] before what is left of [rest], unless that is
    one space rune as a whole. *)
Fixpoint trim_right (s : string) : string :=
  match s with
  | EmptyString => EmptyString
  | String c rest =>
      let kept := String c (trim_right rest) in
      if is_space kept then EmptyString else kept
  end.

(** [strings.TrimSpace]: [s] without the spaces at its start and at its
    end, [TrimFunc(s, unicode.IsSpace)]; Go takes a shorter way as long as
    it meets ASCII bytes only. *)
Definition TrimSpace (s : string) : string := trim_right (trim_left s).

(** [strings.ReplaceAll(s, old, new)] for one-byte [old] and [new]. *)
Fixpoint ReplaceAll (s : string) (old new : ascii) : string :=
  match s with
  | EmptyString => EmptyString
  | String c rest =>
      String (if Ascii.eqb c old then new else c) (ReplaceAll rest old new)
  end.

(** [filepath.Join] of two elements: empty elements are ignored, the rest
    is joined by the separator and cleaned. *)
Definition filepath_Join (a b : string) : string :=
  if negb (String.eqb a "") then
    filepath.Clean (a +:+ String PathSeparator b)
  else if negb (String.eqb b "") then filepath.Clean b
  else "".

Module strconv.

(** [ch -= '0'; if ch > 9 { ... }] *)
Definition digit (ch : ascii) : option Z :=
  let n := Z.of_N (N_of_ascii ch) in
  if ((48 <=? n) && (n <=? 57))%Z then Some (n - 48)%Z else None.

Definition ErrSyntax : error := Errno "invalid syntax".
Definition ErrRange : error := Errno "value out of range".

(** A [*NumError]; its text is
    ["strconv." + Func + ": parsing " + Quote(Num) + ": " + Err.Error()]. *)
Definition NumError (Func Num : string) (Err : error) : error :=
  Errorf "strconv.%s: parsing %q: %v" [Str Func; Str Num; Val Err].

Definition maxUint64 : Z := 18446744073709551615.

(** The loop of [ParseUint(s, 10, 64)] over the bytes left, [n] being the
    value so far: the first byte that is no digit is a syntax error, the
    first step that leaves 64 bits a range error. *)
Fixpoint parse_uint (s : string) (n : Z) : Result Z :=
  match s with
  | EmptyString => Ok n
  | String c rest =>
      match digit c with
      | None => Err ErrSyntax
      | Some d =>
          if (maxUint64 / 10 + 1 <=? n)%Z then Err ErrRange
          else if (maxUint64 <? n * 10 + d)%Z then Err ErrRange
          else parse_uint rest (n * 10 + d)%Z
      end
  end.

(** [ParseUint(s, 10, 64)], its error without the [*NumError] around. *)
Definition ParseUint (s : string) : Result Z :=
  if String.eqb s "" then Err ErrSyntax else parse_uint s 0%Z.

(** The sign [Atoi] and [ParseInt] pick off. *)
Definition pick_sign (s : string) : bool * string :=
  match s with
  | String "-" rest => (true, rest)
  | String "+" rest => (false, rest)
  | _ => (false, s)
  end.

(** [ParseInt(s, 10, 0)] where [int] has 64 bits, its error without the
    [*NumError] around. *)
Definition ParseInt (s : string) : Result Z :=
  if String.eqb s "" then Err ErrSyntax
  else
    let '(neg, body) := pick_sign s in
    match ParseUint body with
    | Err e => Err e
    | Ok un =>
        if negb neg && (2 ^ 63 <=? un)%Z then Err ErrRange
        else if neg && (2 ^ 63 <? un)%Z then Err ErrRange
        else Ok (if neg then (- un)%Z else un)
    end.

(** The loop of the fast path of [Atoi]. *)
Fixpoint small (s : string) (n : Z) : option Z :=
  match s with
  | EmptyString => Some n
  | String ch rest =>
      match digit ch with
      | None => None
      | Some d => small rest (n * 10 + d)%Z
      end
  end.

(** [strconv.Atoi] where [int] has 64 bits: strings of 1 to 18 bytes take
    the fast path, the others go through [ParseInt]. *)
Definition Atoi (s : string) : Result Z :=
  let sLen := String.length s in
  if (0 <? sLen) && (sLen <? 19) then
    let '(neg, body) := pick_sign s in
    if String.length body <? 1 then Err (NumError "Atoi" s ErrSyntax)
    else
      match small body 0%Z with
      | None => Err (NumError "Atoi" s ErrSyntax)
      | Some n => Ok (if neg then (- n)%Z else n)
      end
  else
    match ParseInt s with
    | Err e => Err (NumError "Atoi" s e)
    | Ok n => Ok n
    end.

(** The decimal digits of [n], the last one first in the recursion as in
    [formatBits]; [fuel] bounds their number. *)
Fixpoint digits (fuel : nat) (n : N) : string :=
  match fuel with
  | 0 => EmptyString
  | S fuel' =>
      let last := String (ascii_of_N (48 + n mod 10)) EmptyString in
      if (n <? 10)%N then last else digits fuel' (n / 10) +:+ last
  end.

(** [strconv.Itoa] *)
Definition Itoa (i : Z) : string :=
  let u := Z.to_N (Z.abs i) in
  let ds := digits (S (N.to_nat (N.log2 u))) u in
  if (i <? 0)%Z then String "-" ds else ds.

End strconv.

(** ** [internal/api] *)

Module api.

Definition profileDir : string := "/tmp/jfr".
Definition apiPort : string := "8081".

(** [net/http]'s names for the methods and the statuses the server
    uses. *)
Definition MethodGet : string := "GET".
Definition MethodPost : string := "POST".
Definition StatusOK : nat := 200.
Definition StatusBadRequest : nat := 400.
Definition StatusMethodNotAllowed : nat := 405.
Definition StatusInternalServerError : nat := 500.

Record ProfileRequest := {
  Duration : string;  (* e.g., "60s" *)
  Name : string;      (* optional custom recording name *)
}.

Record StopRequest := {
  StopName : string;  (* [Name]: name of the JFR recording to stop *)
}.

(** A string built by [fmt.Sprintf] from values that are not all strings,
    kept as its format and its arguments. *)
Inductive Text :=
  | Lit (s : string)
  | Sprintf (format : string) (args : list Arg).

Record Response := {
  Success : bool;
  Message : Text;
  Data : option (gmap string string);
}.

(** An [*http.Request], as far as the handlers read it: the method, and
    what [json.NewDecoder(r.Body).Decode] makes of the body for the
    handler's request type. *)
Record Request (A : Type) := {
  Method : string;
  Body : Result A;
}.
Arguments Method {A} r.
Arguments Body {A} r.

(** A value logged as a field. *)
Inductive Field :=
  | FStr (s : string)
  | FInt (i : Z)
  | FErr (err : option error).

Inductive Level := Debug | Info | Error.

Record Entry := {
  level : Level;
  fields : list (string * Field);
  msg : string;
}.

(** The host of the API server during one request: what the commands to
    come will print and whether they fail, the time of day as
    [time.RFC3339] writes it, the commands run so far, the
    [http.ResponseWriter] of the request (its header, the statuses written
    and the values encoded to it) and the log. *)
Record Host := {
  execs : list (string * option error);
  clock : string;
  ran : list (list string);
  header : gmap string string;
  statuses : list nat;
  encoded : list Response;
  logged : list Entry;
}.

Definition H (A : Type) : Type := Host -> A * Host.

Global Instance H_ret : MRet H := λ A a h, (a, h).
Global Instance H_bind : MBind H :=
  λ A B k m h, let '(a, h') := m h in k a h'.

(** [logger.Log.WithFields(fields).Debug(msg)] and the like. *)
Definition Log (l : Level) (fs : list (string * Field)) (m : string)
  : H unit :=
  λ h, (tt, {| execs := execs h; clock := clock h; ran := ran h;
               header := header h; statuses := statuses h;
               encoded := encoded h;
               logged := logged h ++
                         [{| level := l; fields := fs; msg := m |}] |}).

(** [exec.Command(name, args...).CombinedOutput()]: the command is run;
    the host says what it printed and whether it failed. *)
Definition CombinedOutput (command : list string)
  : H (string * option error) :=
  λ h, (hd ("", None) (execs h),
        {| execs := tl (execs h); clock := clock h;
           ran := ran h ++ [command];
           header := header h; statuses := statuses h;
           encoded := encoded h; logged := logged h |}).

(** [time.Now().Format(time.RFC3339)] *)
Definition Now : H string := λ h, (clock h, h).

(** [sendJSON] sends a JSON response. *)
Definition sendJSON (status : nat) (data : Response) : H unit :=
  λ h, (tt, {| execs := execs h; clock := clock h; ran := ran h;
               header := <["Content-Type" := "application/json"]> (header h);
               statuses := statuses h ++ [status];
               encoded := encoded h ++ [data];
               logged := logged h |}).

(** [healthHandler] returns API health status. *)
Definition healthHandler {A} (r : Request A) : H unit :=
  sendJSON StatusOK
    {| Success := true; Message := Lit "API server is healthy";
       Data := None |}.

(** [getJavaPID] finds the PID of the running Java process. *)
Definition getJavaPID : H (Result Z) :=
  (* Use pgrep -x to match exact process name "java" only *)
  r ← CombinedOutput ["pgrep"; "-x"; "java"];
  let '(output, err) := r in
  Log Debug [("output", FStr output); ("error", FErr err)]
    "pgrep command result";;
  match err with
  | Some err =>
      Log Error [] "Failed to find Java process";;
      mret (Err (Errorf "no Java process found: %v" [Val err]))
  | None =>
      let pidStr := TrimSpace output in
      Log Debug [("pidString", FStr pidStr)] "PID string after trim";;
      if String.eqb pidStr "" then
        mret (Err (Errorf "no Java process found" []))
      else
        (* Parse the PID *)
        match strconv.Atoi pidStr with
        | Err err =>
            Log Error [("pidString", FStr pidStr); ("error", FErr (Some err))]
              "Failed to parse PID";;
            mret (Err (Errorf "invalid PID: %v" [Val err]))
        | Ok pid =>
            Log Debug [("pid", FInt pid)] "Successfully found Java PID";;
            mret (Ok pid)
        end
  end.

(** [createProfileHandler] starts a JFR profiling session. *)
Definition createProfileHandler (r : Request ProfileRequest) : H unit :=
  if negb (String.eqb (Method r) MethodPost) then
    sendJSON StatusMethodNotAllowed
      {| Success := false; Message := Lit "Method not allowed";
         Data := None |}
  else
    match Body r with
    | Err err =>
        sendJSON StatusBadRequest
          {| Success := false;
             Message := Sprintf "Invalid request body: %v" [Val err];
             Data := None |}
    | Ok req =>
        (* Default duration if not specified *)
        let duration :=
          if String.eqb (Duration req) "" then "60s" else Duration req in
        (* Generate timestamp suffix in RFC3339 format (filesystem-safe) *)
        now ← Now;
        let timestampSuffix := ReplaceAll now ":" "-" in
        (* Generate recording name with RFC3339 timestamp if not provided *)
        let name :=
          if String.eqb (Name req) "" then "jfr_" +:+ timestampSuffix
          else Name req in
        (* Derive filename from recording name *)
        let filename := name +:+ ".jfr" in
        (* Get Java process PID *)
        r ← getJavaPID;
        match r with
        | Err err =>
            sendJSON StatusInternalServerError
              {| Success := false;
                 Message := Sprintf "Failed to find Java process: %v"
                              [Val err];
                 Data := None |}
        | Ok pid =>
            (* Start JFR recording with name *)
            let outputPath := filepath_Join profileDir filename in
            Log Debug [("path", FStr outputPath); ("name", FStr name);
                       ("duration", FStr duration)]
              "Creating profile file";;
            r ← CombinedOutput
                  ["jcmd"; strconv.Itoa pid; "JFR.start";
                   "name=" +:+ name; "duration=" +:+ duration;
                   "filename=" +:+ outputPath];
            let '(output, err) := r in
            match err with
            | Some err =>
                sendJSON StatusInternalServerError
                  {| Success := false;
                     Message :=
                       Sprintf "Failed to start profiling: %v, output: %s"
                         [Val err; Str output];
                     Data := None |}
            | None =>
                sendJSON StatusOK
                  {| Success := true;
                     Message := Lit "Profiling started successfully";
                     Data := Some {[ "pid" := strconv.Itoa pid;
                                     "name" := name;
                                     "duration" := duration;
                                     "filename" := filename;
                                     "output" := output ]} |}
            end
        end
    end.

(** [stopProfileHandler] stops a specific JFR profiling session by
    name. *)
Definition stopProfileHandler (r : Request StopRequest) : H unit :=
  if negb (String.eqb (Method r) MethodPost) then
    sendJSON StatusMethodNotAllowed
      {| Success := false; Message := Lit "Method not allowed";
         Data := None |}
  else
    match Body r with
    | Err err =>
        sendJSON StatusBadRequest
          {| Success := false;
             Message := Sprintf "Invalid request body: %v" [Val err];
             Data := None |}
    | Ok req =>
        if String.eqb (StopName req) "" then
          sendJSON StatusBadRequest
            {| Success := false; Message := Lit "Recording name is required";
               Data := None |}
        else
          (* Get Java process PID *)
          r ← getJavaPID;
          match r with
          | Err err =>
              sendJSON StatusInternalServerError
                {| Success := false;
                   Message := Sprintf "Failed to find Java process: %v"
                                [Val err];
                   Data := None |}
          | Ok pid =>
              (* Stop specific JFR recording by name *)
              r ← CombinedOutput
                    ["jcmd"; strconv.Itoa pid; "JFR.stop";
                     "name=" +:+ StopName req];
              let '(output, err) := r in
              match err with
              | Some err =>
                  sendJSON StatusInternalServerError
                    {| Success := false;
                       Message :=
                         Sprintf "Failed to stop profiling: %v, output: %s"
                           [Val err; Str output];
                       Data := None |}
              | None =>
                  sendJSON StatusOK
                    {| Success := true;
                       Message :=
                         Sprintf "JFR recording '%s' stopped successfully"
                           [Str (StopName req)];
                       Data := Some {[ "pid" := strconv.Itoa pid;
                                       "name" := StopName req;
                                       "output" := output ]} |}
              end
          end
    end.

(** [listRunningJFRHandler] lists all running JFR recording sessions. *)
Definition listRunningJFRHandler {A} (r : Request A) : H unit :=
  if negb (String.eqb (Method r) MethodGet) then
    sendJSON StatusMethodNotAllowed
      {| Success := false; Message := Lit "Method not allowed";
         Data := None |}
  else
    (* Get Java process PID *)
    r ← getJavaPID;
    match r with
    | Err err =>
        sendJSON StatusInternalServerError
          {| Success := false;
             Message := Sprintf "Failed to find Java process: %v" [Val err];
             Data := None |}
    | Ok pid =>
        (* Check running JFR recordings *)
        r ← CombinedOutput ["jcmd"; strconv.Itoa pid; "JFR.check"];
        let '(output, err) := r in
        match err with
        | Some err =>
            sendJSON StatusInternalServerError
              {| Success := false;
                 Message :=
                   Sprintf "Failed to check JFR recordings: %v, output: %s"
                     [Val err; Str output];
                 Data := None |}
        | None =>
            sendJSON StatusOK
              {| Success := true;
                 Message := Lit "JFR recordings retrieved successfully";
                 Data := Some {[ "pid" := strconv.Itoa pid;
                                 "output" := output ]} |}
        end
    end.

End api.

(** * The vocabulary of the properties *)

(** The generic binary-stream marker the uploader sets on its objects. *)
Definition octet_stream : string := "application/octet-stream".

Definition is_remote_write (a : Action) : bool :=
  match a with
  | ANewWriter _ _ | ACopy _ _ _ _ | AWriterClose _ _ _ => true
  | _ => false
  end.

Section upload_runs.

Variables (u : uploader.GCSUploader) (localPath podName : string).

Definition bucket_of : string := uploader.bucketName u.
Definition object_for : string :=
  uploader.objectPath_of podName (filepath.Base localPath).

(** The calls of [Upload] up to the end of its size re-check. *)
Definition recheck (file : OsFile) (i1 i2 : FileInfo) : list Action :=
  [AOpen localPath (Ok file); AFileStat file (Ok i1); ASleep 2;
   AFileStat file (Ok i2)].

(** The calls that open the remote write. *)
Definition opening (i1 : FileInfo) : list Action :=
  [ANewWriter bucket_of object_for;
   AInfo [("local_path", Str localPath);
          ("gcs_path", Str ("gs://" +:+ bucket_of +:+ "/" +:+ object_for));
          ("size_bytes", Num (Size i1))]
         "Uploading file to GCS"].

Definition uploaded_log (n : nat) : Action :=
  AInfo [("bytes_written", Num n);
         ("gcs_path", Str ("gs://" +:+ bucket_of +:+ "/" +:+ object_for))]
        "Successfully uploaded file to GCS".

Definition committed (content : list byte)
  (before : gmap (string * string) Object) : gmap (string * string) Object :=
  <[(bucket_of, object_for) :=
      {| ContentType := octet_stream; data := content |}]> before.

(** Every run of [Upload]: the calls it makes, what it returns, and the
    bucket store after it, given the store before. *)
Inductive UploadRun (before : gmap (string * string) Object)
  : list Action -> option error -> gmap (string * string) Object -> Prop :=
  | open_failed err :
      UploadRun before
        [AOpen localPath (Err err)]
        (Some (Errorf "failed to open file %s: %w" [Str localPath; Val err]))
        before
  | stat_failed file err :
      f_name file = localPath ->
      UploadRun before
        [AOpen localPath (Ok file); AFileStat file (Err err);
         AFileClose file]
        (Some (Errorf "failed to get file info: %w" [Val err]))
        before
  | restat_failed file i1 err :
      f_name file = localPath ->
      UploadRun before
        [AOpen localPath (Ok file); AFileStat file (Ok i1); ASleep 2;
         AFileStat file (Err err); AFileClose file]
        (Some (Errorf "failed to re-check file info: %w" [Val err]))
        before
  | size_changed file i1 i2 :
      f_name file = localPath ->
      Size i2 <> Size i1 ->
      UploadRun before
        (recheck file i1 i2 ++ [AFileClose file])
        (Some (Errorf "file is still being written (size changed)" []))
        before
  | copy_failed file i1 i2 part err cerr after :
      f_name file = localPath ->
      Size i2 = Size i1 ->
      after = match cerr with
              | None => committed part before
              | Some _ => before
              end ->
      UploadRun before
        (recheck file i1 i2 ++ opening i1 ++
         [ACopy bucket_of object_for (length part) (Some err);
          AWriterClose bucket_of object_for cerr; AFileClose file])
        (Some (Errorf "failed to upload file: %w" [Val err]))
        after
  | close_failed file i1 i2 n err :
      f_name file = localPath ->
      Size i2 = Size i1 ->
      UploadRun before
        (recheck file i1 i2 ++ opening i1 ++
         [ACopy bucket_of object_for n None;
          AWriterClose bucket_of object_for (Some err); AFileClose file])
        (Some (Errorf "failed to finalize upload: %w" [Val err]))
        before
  | uploaded file i1 i2 content :
      f_name file = localPath ->
      Size i2 = Size i1 ->
      UploadRun before
        (recheck file i1 i2 ++ opening i1 ++
         [ACopy bucket_of object_for (length content) None;
          AWriterClose bucket_of object_for None;
          uploaded_log (length content); AFileClose file])
        None
        (committed content before).

End upload_runs.

Section process_runs.

Variables (u : uploader.GCSUploader) (filePath : string).

Definition pod_of (relativePath : string) : string :=
  default "" (strings.Split relativePath PathSeparator !! 0).

Definition structured (relativePath : string) : Prop :=
  filepath.Rel rootProfileDir filePath = inl relativePath /\
  2 <= length (strings.Split relativePath PathSeparator).

Definition uploading_log (rel : string) (info : FileInfo) : Action :=
  AInfof "Uploading file: %s (pod: %s, size: %d bytes)"
    [Str filePath; Str (pod_of rel); Num (Size info)].

Definition deleting_log : Action :=
  AInfof "Upload successful. Deleting local file: %s" [Str filePath].

(** Every run of [processFile]: the calls it makes, what it returns, and
    the bucket store after it, given the store before. *)
Inductive ProcessRun (before : gmap (string * string) Object)
  : list Action -> option error -> gmap (string * string) Object -> Prop :=
  | rel_failed msg :
      filepath.Rel rootProfileDir filePath = inr msg ->
      ProcessRun before []
        (Some (Errorf "failed to get relative path: %w" [Val (Errno msg)]))
        before
  | bad_structure rel :
      filepath.Rel rootProfileDir filePath = inl rel ->
      length (strings.Split rel PathSeparator) < 2 ->
      ProcessRun before []
        (Some (Errorf "invalid file path structure: %s" [Str filePath]))
        before
  | not_accessible rel err :
      structured rel ->
      ProcessRun before
        [AStat filePath (Err err)]
        (Some (Errorf "file not accessible: %w" [Val err]))
        before
  | empty_file rel info :
      structured rel ->
      Size info = 0 ->
      ProcessRun before
        [AStat filePath (Ok info);
         AInfof "Skipping empty file: %s" [Str filePath]]
        None
        before
  | upload_failed rel info acts err after :
      structured rel ->
      Size info <> 0 ->
      UploadRun u filePath (pod_of rel) before acts (Some err) after ->
      ProcessRun before
        (AStat filePath (Ok info) :: uploading_log rel info :: acts)
        (Some (Errorf "upload failed: %w" [Val err]))
        after
  | remove_failed rel info acts err after :
      structured rel ->
      Size info <> 0 ->
      UploadRun u filePath (pod_of rel) before acts None after ->
      ProcessRun before
        (AStat filePath (Ok info) :: uploading_log rel info :: acts ++
         [deleting_log; ARemove filePath (Some err)])
        (Some (Errorf "failed to delete local file: %w" [Val err]))
        after
  | removed rel info acts after :
      structured rel ->
      Size info <> 0 ->
      UploadRun u filePath (pod_of rel) before acts None after ->
      ProcessRun before
        (AStat filePath (Ok info) :: uploading_log rel info :: acts ++
         [deleting_log; ARemove filePath None;
          AInfof "Successfully processed and deleted: %s" [Str filePath]])
        None
        after.

End process_runs.

(** [keeps R m]: running [m] takes every world to one related to it. *)
Definition keeps {A} (R : relation World) (m : M A) : Prop :=
  forall w, R w (m w).2.

(** The subscription set is the same. *)
Definition same_watches (w w' : World) : Prop := watches w' = watches w.

(** What the turns of the environment do to the file system. *)
Definition env_effect (turns : list Turn) (f : FS) : FS :=
  foldl (λ f t, interfere t f) f turns.

(** The local file system changed by the environment's turns only: the
    daemon did not touch it. *)
Definition untouched (w w' : World) : Prop :=
  exists turns,
    script w = turns ++ script w' /\ fs w' = env_effect turns (fs w).

(** The trace grew, and the daemon did not touch the file system unless
    the new part records a removal that went through. *)
Definition spared (w w' : World) : Prop :=
  exists acts,
    trace w' = trace w ++ acts /\
    ((forall q, ARemove q None ∉ acts) -> untouched w w').

Definition ends_with (acts suffix : list Action) : Prop :=
  exists older, acts = older ++ suffix.

(** The calls before a removal of [q] end with a finalized upload of [q]:
    the remote writer closed without error, the uploader logged its
    success and closed the local file, and [processFile] announced the
    deletion. *)
Definition finalized_before (pre : list Action) (q : string) : Prop :=
  exists bucket object fields file,
    ends_with pre
      [AWriterClose bucket object None;
       AInfo fields "Successfully uploaded file to GCS";
       AFileClose file;
       AInfof "Upload successful. Deleting local file: %s" [Str q]] /\
    f_name file = q.

Definition removals_follow_uploads (acts : list Action) : Prop :=
  forall pre q e post, acts = pre ++ ARemove q e :: post ->
    finalized_before pre q.

(** The trace grew by calls among which every removal follows a finalized
    upload of the same path. *)
Definition orderly (w w' : World) : Prop :=
  exists acts, trace w' = trace w ++ acts /\ removals_follow_uploads acts.

(** A copy or a close of the remote writer that ran into an error. *)
Definition is_stream_error (a : Action) : bool :=
  match a with
  | ACopy _ _ _ (Some _) | AWriterClose _ _ (Some _) => true
  | _ => false
  end.

(** A notification that discovers a .jfr file: a create or a write, not a
    remove, of a name ending in [.jfr]. *)
Definition discovers (event : fsnotify.Event) : bool :=
  strings.HasSuffix (fsnotify.Name event) ".jfr" &&
  negb (N.land (fsnotify.Op event) fsnotify.Remove =? fsnotify.Remove)%N &&
  ((N.land (fsnotify.Op event) fsnotify.Create =? fsnotify.Create)%N ||
   (N.land (fsnotify.Op event) fsnotify.Write =? fsnotify.Write)%N).

Definition detected_log (name : string) : Action :=
  AInfof "Detected new/modified file: %s" [Str name].

Definition failed_log (name : string) (err : error) : Action :=
  AInfof "Failed to process file %s: %v" [Str name; Val err].

Definition is_recheck_call (a : Action) : bool :=
  match a with
  | AFileStat _ _ | ASleep 2 => true
  | _ => false
  end.

(** The calls of the uploader's re-check and of the remote write. *)
Definition is_upload_call (a : Action) : bool :=
  is_remote_write a || is_recheck_call a.

(** The path of the entry [elems] below the watched root; the root itself
    for no element. *)
Definition under_root (elems : list string) : string :=
  match elems with
  | [] => rootProfileDir
  | _ => below rootProfileDir elems
  end.

Definition all_names (elems : list string) : Prop :=
  Forall (λ s, is_name s = true) elems.

(** The bucket and object a remote write is about. *)
Definition remote_key (a : Action) : option (string * string) :=
  match a with
  | ANewWriter b o | ACopy b o _ _ | AWriterClose b o _ => Some (b, o)
  | _ => None
  end.

(** The path reached from [path] through the entries [elems]. *)
Fixpoint reach (path : string) (elems : list string) : string :=
  match elems with
  | [] => path
  | name :: rest => reach (below path [name]) rest
  end.

(** Every entry of [elems] names a directory inside the one before. *)
Fixpoint dirs_along (f : FS) (path : string) (elems : list string) : Prop :=
  match elems with
  | [] => True
  | name :: rest =>
      is_name name = true /\
      (exists syssize, node_at f (below path [name]) = Some (Dir syssize)) /\
      dirs_along f (below path [name]) rest
  end.

(** The world after calls in a quiet environment that subscribe at most. *)
Definition quietly (w w' : World) : Prop :=
  fs w' = fs w /\ script w' = [] /\ watches w ⊆ watches w'.

(** The callback of [watchDirectoryRecursive]. *)
Definition watchFn : WalkFunc := λ path info err,
  match err, info with
  | Some err, _ => mret (Some err)
  | None, Some info =>
      if IsDir info then
        logger.Infof "Watching directory: %s" [Str path];;
        err ← fsnotify.Add path;
        match err with
        | Some err =>
            mret (Some (Errorf "failed to watch %s: %w" [Str path; Val err]))
        | None => mret None
        end
      else mret None
  | None, None => mret None
  end.

Definition demo_uploader : uploader.GCSUploader :=
  {| uploader.bucketName := "jfr-bucket" |}.

Definition run1 : string := "/tmp/jfr/pod-7/run1.jfr".

(** The tree [/tmp/jfr/pod-7/run1.jfr], the file holding three bytes. *)
Definition demo_fs : FS :=
  {| dirents := {[ "/tmp/jfr" := 1; "/tmp/jfr/pod-7" := 2; run1 := 3 ]};
     inodes := {[ 1 := Dir 4096; 2 := Dir 4096;
                  3 := File [x4a; x46; x52] ]} |}.

Definition demo_world (turns : list Turn) : World :=
  {| fs := demo_fs; objects := ∅; watches := ∅;
     environ := {[ "GCS_BUCKET" := "jfr-bucket" ]};
     script := turns; trace := [] |}.

(** What producers do: create a directory, create a file, append to a
    file. *)
Definition mkdir (path : string) (i : nat) (f : FS) : FS :=
  {| dirents := <[path := i]> (dirents f);
     inodes := <[i := Dir 4096]> (inodes f) |}.

Definition create (path : string) (i : nat) (content : list byte) (f : FS)
  : FS :=
  {| dirents := <[path := i]> (dirents f);
     inodes := <[i := File content]> (inodes f) |}.

Definition grow (i : nat) (more : list byte) (f : FS) : FS :=
  {| dirents := dirents f;
     inodes := alter (λ n, match n with
                           | File content => File (content ++ more)
                           | Dir syssize => Dir syssize
                           end) i (inodes f) |}.

(** A pod directory appears while the daemon runs its initial scan; its
    create notification and a scan tick follow. *)
Definition pod9_created : fsnotify.Event :=
  {| fsnotify.Name := "/tmp/jfr/pod-9"; fsnotify.Op := fsnotify.Create |}.

Definition after_pod9 : World :=
  (daemon.Start 3 [daemon.FromEvents pod9_created; daemon.Tick]
     (demo_world (replicate 14 quiet ++
                  [producer (mkdir "/tmp/jfr/pod-9" 9)]))).2.

(** The demo tree after its file was processed once. *)
Definition after_run1 : World :=
  (daemon.processFile demo_uploader run1 (demo_world [])).2.

(** A world whose file [run1.jfr] has been allocated but not written. *)
Definition empty_world : World :=
  {| fs := create run1 3 [] demo_fs; objects := ∅; watches := ∅;
     environ := ∅; script := []; trace := [] |}.

(** The producer is still writing: the file grows during the sleep of the
    uploader (the fifth call of the daemon that lets the environment
    run). *)
Definition run1_created : fsnotify.Event :=
  {| fsnotify.Name := run1; fsnotify.Op := fsnotify.Create |}.

Definition growing_world : World :=
  demo_world [quiet; quiet; quiet; quiet; producer (grow 3 [x21])].

(** The same growth seen by [Upload] called on its own: the sleep is its
    third call. *)
Definition growing_upload : World :=
  demo_world [quiet; quiet; producer (grow 3 [x21])].

(** The producer writes during the settle sleep of the discovery, the
    first call of [handleFileEvent] that lets the environment run, and is
    done before the uploader looks. *)
Definition settling_world : World :=
  demo_world [producer (grow 3 [x21])].

(** The bucket already holds an object under the name of the upload. *)
Definition stale_world : World :=
  {| fs := demo_fs;
     objects := {[ ("jfr-bucket", "pod-7/run1.jfr") :=
                     {| ContentType := "text/plain"; data := [x00] |} ]};
     watches := ∅; environ := ∅; script := []; trace := [] |}.

(** Two files of the same name in two subdirectories of one pod. *)
Definition nested_a : string := "/tmp/jfr/pod-7/a/run1.jfr".
Definition nested_b : string := "/tmp/jfr/pod-7/b/run1.jfr".

Definition nested_world : World :=
  {| fs := {| dirents := {[ "/tmp/jfr" := 1; "/tmp/jfr/pod-7" := 2;
                            "/tmp/jfr/pod-7/a" := 3; "/tmp/jfr/pod-7/b" := 4;
                            nested_a := 5; nested_b := 6 ]};
              inodes := {[ 1 := Dir 4096; 2 := Dir 4096; 3 := Dir 4096;
                           4 := Dir 4096; 5 := File [x01];
                           6 := File [x02; x03] ]} |};
     objects := ∅; watches := ∅; environ := ∅; script := []; trace := [] |}.

(** ** The vocabulary of the further properties *)

(** The calls that take or give back the handle of a local file. *)
Definition is_file_handle_call (a : Action) : bool :=
  match a with
  | AOpen _ _ | AFileClose _ => true
  | _ => false
  end.

(** An input of the event loop that closes one of the watcher's channels. *)
Definition closes (i : daemon.Input) : bool :=
  match i with
  | daemon.EventsClosed | daemon.ErrorsClosed => true
  | _ => false
  end.

(** A turn of the environment that leaves the file system alone (it may
    still make the call fail). *)
Definition idle (t : Turn) : Prop := forall f, interfere t f = f.

(** What [Clean] keeps of a path: pieces between separators, none empty. *)
Definition kept_elem (e : string) : Prop :=
  e <> "" /\ strings.Contains e PathSeparator = false.

(** The ninth call of [processFile] that lets the environment run is the
    removal; here it is refused. *)
Definition locked_world : World :=
  demo_world (replicate 7 quiet ++ [fails "permission denied"]).

(** Nothing was processed: the bucket is the same, the local file system
    changed by the environment's turns only, and no removal was tried. *)
Definition unprocessed (w w' : World) : Prop :=
  objects w' = objects w /\
  untouched w w' /\
  exists acts, trace w' = trace w ++ acts /\ forall q e, ARemove q e ∉ acts.

(** The messages [Start] can die with. *)
Definition fatal_formats : list string :=
  ["GCS_BUCKET environment variable is required";
   "Failed to initialize GCS uploader: %v";
   "Failed to create file watcher: %v";
   "Failed to watch directory: %v"].

(** A host on which the root directory has not been created. *)
Definition rootless_world : World :=
  {| fs := {| dirents := {[ "/tmp" := 1 ]}; inodes := {[ 1 := Dir 4096 ]} |};
     objects := ∅; watches := ∅;
     environ := {[ "GCS_BUCKET" := "jfr-bucket" ]};
     script := []; trace := [] |}.

(** The callback of [scanAndUploadExisting]. *)
Definition scanFn (gcsUploader : uploader.GCSUploader) : WalkFunc :=
  λ path info err,
    match err, info with
    | Some err, _ =>
        logger.Infof "Error accessing path %s: %v" [Str path; Val err];;
        mret None
    | None, Some info =>
        (if negb (IsDir info) && strings.HasSuffix (Name info) ".jfr" then
           logger.Infof "Found existing file: %s" [Str path];;
           err ← daemon.processFile gcsUploader path;
           match err with
           | Some err =>
               logger.Infof "Failed to process existing file %s: %v"
                 [Str path; Val err]
           | None => mret tt
           end
         else mret tt);;
        mret None
    | None, None => mret None
    end.

(** [returns P m]: whatever the world, [m] returns a value with [P]. *)
Definition returns {A} (P : A -> Prop) (m : M A) : Prop :=
  forall w, P (m w).1.

(** The trace grew by calls that remove nothing but paths ending in
    [.jfr]. *)
Definition removes_recordings_only (w w' : World) : Prop :=
  exists acts,
    trace w' = trace w ++ acts /\
    forall q e, ARemove q e ∈ acts -> strings.HasSuffix q ".jfr" = true.

(** A path whose last element ends in [.jfr] only if the path does. *)
Definition plain_end (path : string) : Prop :=
  strings.HasSuffix (filepath.Base path) ".jfr" = true ->
  strings.HasSuffix path ".jfr" = true.

(** The bucket and the object name [processFile] uploads [path] under. *)
Definition key_of (u : uploader.GCSUploader) (path : string)
  : string * string :=
  (uploader.bucketName u,
   uploader.objectPath_of
     (match filepath.Rel rootProfileDir path with
      | inl rel => pod_of rel
      | inr _ => ""
      end)
     (filepath.Base path)).

(** What a quiet environment leaves of a world after calls of the daemon
    that process files for the uploader [u]: no call is left to fail, the
    inodes are the same, the trace and the bucket have grown, and a path
    either names what it named or was a regular file that has been
    uploaded and removed. *)
Definition pruned (u : uploader.GCSUploader) (w w' : World) : Prop :=
  script w = [] ->
  script w' = [] /\
  inodes (fs w') = inodes (fs w) /\
  (exists acts, trace w' = trace w ++ acts) /\
  (forall k, is_Some (objects w !! k) -> is_Some (objects w' !! k)) /\
  forall p,
    dirents (fs w') !! p = dirents (fs w) !! p \/
    (dirents (fs w') !! p = None /\
     ARemove p None ∈ trace w' /\
     is_Some (objects w' !! key_of u p) /\
     exists i content,
       dirents (fs w) !! p = Some i /\
       inodes (fs w) !! i = Some (File content)).

(** A recording below [path]: a regular file that is not empty, named
    [name] with the [.jfr] suffix, inside the directories [dirs], at a
    place where [processFile] accepts it. *)
Definition recording_at (f : FS) (path : string) (dirs : list string)
  (name : string) : Prop :=
  dirs_along f path dirs /\
  is_name name = true /\
  strings.HasSuffix name ".jfr" = true /\
  (exists i content,
     dirents f !! reach path (dirs ++ [name]) = Some i /\
     inodes f !! i = Some (File content) /\ content <> []) /\
  exists rel,
    filepath.Rel rootProfileDir (reach path (dirs ++ [name])) = inl rel /\
    2 <= length (strings.Split rel PathSeparator).

(** Three recordings of two pods, one of them nested, a file that is not a
    recording, an empty recording and a recording outside any pod
    directory. *)
Definition busy_fs : FS :=
  {| dirents := {[ "/tmp/jfr" := 1; "/tmp/jfr/pod-7" := 2;
                   "/tmp/jfr/pod-7/run1.jfr" := 3;
                   "/tmp/jfr/pod-7/notes.txt" := 4;
                   "/tmp/jfr/pod-7/old" := 5;
                   "/tmp/jfr/pod-7/old/run0.jfr" := 6;
                   "/tmp/jfr/pod-8" := 7;
                   "/tmp/jfr/pod-8/run2.jfr" := 8;
                   "/tmp/jfr/pod-8/empty.jfr" := 9;
                   "/tmp/jfr/stray.jfr" := 10 ]};
     inodes := {[ 1 := Dir 4096; 2 := Dir 4096; 3 := File [x4a; x46; x52];
                  4 := File [x68; x69]; 5 := Dir 4096; 6 := File [x30];
                  7 := Dir 4096; 8 := File [x32; x32]; 9 := File [];
                  10 := File [x3f] ]} |}.

Definition busy_world : World :=
  {| fs := busy_fs; objects := ∅; watches := ∅;
     environ := {[ "GCS_BUCKET" := "jfr-bucket" ]};
     script := []; trace := [] |}.

(** The calls of a quiet environment left the file system as it was. *)
Definition still (w w' : World) : Prop :=
  script w = [] -> script w' = [] /\ fs w' = fs w.

(** Subscriptions are added, never dropped. *)
Definition watches_grow (w w' : World) : Prop := watches w ⊆ watches w'.

(** Only a log entry was made, if anything. *)
Definition is_log (a : Action) : bool :=
  match a with
  | AInfof _ _ | AInfo _ _ => true
  | _ => false
  end.

Definition logged_only (w w' : World) : Prop :=
  fs w' = fs w /\ objects w' = objects w /\ watches w' = watches w /\
  script w' = script w /\
  exists acts, trace w' = trace w ++ acts /\ Forall (λ a, is_log a = true) acts.

(** An input of the event loop that makes the daemon look at files: a
    notification that discovers a recording, or a tick of the scanner. *)
Definition is_work (i : daemon.Input) : bool :=
  match i with
  | daemon.FromEvents event => discovers event
  | daemon.Tick => true
  | _ => false
  end.

(** A directory whose name looks like a recording. *)
Definition odd_world : World :=
  {| fs := {| dirents := {[ "/tmp/jfr" := 1; "/tmp/jfr/pod-7" := 2;
                            "/tmp/jfr/pod-7/dump.jfr" := 3 ]};
              inodes := {[ 1 := Dir 4096; 2 := Dir 4096; 3 := Dir 4096 ]} |};
     objects := ∅; watches := ∅; environ := ∅; script := []; trace := [] |}.

Definition dump_created : fsnotify.Event :=
  {| fsnotify.Name := "/tmp/jfr/pod-7/dump.jfr";
     fsnotify.Op := fsnotify.Create |}.

(** The local path a call is about, if any. *)
Definition local_path (a : Action) : option string :=
  match a with
  | AStat p _ | AOpen p _ | ARemove p _ => Some p
  | AFileStat f _ | AFileClose f => Some (f_name f)
  | _ => None
  end.

(** The copy breaks after two bytes. *)
Definition broken_copy : World :=
  demo_world [quiet; quiet; quiet; quiet; fails_after 2 "unexpected EOF"].

(** The store refuses the close of the writer, once. *)
Definition flaky_world : World :=
  demo_world (replicate 6 quiet ++ [fails "googleapi: Error 503"]).

(** The bucket store changed by objects of the bucket [b] only, each one
    written as a generic binary stream. *)
Definition writes_into (b : string) (w w' : World) : Prop :=
  forall k,
    objects w' !! k = objects w !! k \/
    (k.1 = b /\
     exists content,
       objects w' !! k
       = Some {| ContentType := octet_stream; data := content |}).

(** A world whose bucket store holds an object of somebody else. *)
Definition shared_store : World :=
  {| fs := demo_fs;
     objects := {[ ("backups", "pod-7/run1.jfr") :=
                     {| ContentType := "text/plain"; data := [x00] |} ]};
     watches := ∅; environ := {[ "GCS_BUCKET" := "jfr-bucket" ]};
     script := []; trace := [] |}.

(** Calls in a quiet environment that changed neither the local files nor
    the bucket. *)
Definition settled (w w' : World) : Prop :=
  script w = [] ->
  script w' = [] /\ fs w' = fs w /\ objects w' = objects w.

(** No recording is left below [path]. *)
Definition cleared (f : FS) (path : string) : Prop :=
  forall dirs name, ~ recording_at f path dirs name.

Definition is_digit (c : ascii) : bool :=
  match strconv.digit c with
  | Some _ => true
  | None => false
  end.

(** A string of decimal digits. *)
Fixpoint all_digits (s : string) : bool :=
  match s with
  | EmptyString => true
  | String c rest => is_digit c && all_digits rest
  end.

(** A line feed, the end of a line of [pgrep]'s output. *)
Definition LF : string := String "010"%char "".

(** The command that looks for the Java process. *)
Definition pgrep : list string := ["pgrep"; "-x"; "java"].

(** What a handler did to the response writer: one status written, one
    value encoded, the content type set; [Success] says whether the status
    is 200. *)
Definition answered (h h' : api.Host) (status : nat) (resp : api.Response)
  : Prop :=
  api.statuses h' = api.statuses h ++ [status] /\
  api.encoded h' = api.encoded h ++ [resp] /\
  api.header h' !! "Content-Type" = Some "application/json" /\
  api.Success resp = (status =? 200).

Definition answers_once (m : api.H unit) : Prop :=
  forall h, exists status resp,
    answered h (m h).2 status resp /\ status ∈ [200; 400; 405; 500].

(** The commands a handler may run for its request: none when it refuses
    the request, [pgrep] alone when that finds no PID, and [pgrep] followed
    by one [jcmd] on the PID found. *)
Definition runs_its_commands (sub : string) (m : api.H unit) : Prop :=
  forall h, exists status resp cmds,
    answered h (m h).2 status resp /\
    api.ran (m h).2 = api.ran h ++ cmds /\
    api.execs (m h).2 = drop (length cmds) (api.execs h) /\
    ((cmds = [] /\ (status = 405 \/ status = 400)) \/
     (cmds = [pgrep] /\ status = 500 /\
      exists err, (api.getJavaPID h).1 = Err err) \/
     (exists pid args,
        cmds = [pgrep; "jcmd" :: strconv.Itoa pid :: sub :: args] /\
        (api.getJavaPID h).1 = Ok pid /\
        (status = 200 \/ status = 500))).

(** A host on which one Java process runs, and one on which two do. *)
Definition java_host : api.Host :=
  {| api.execs := [("4711" +:+ LF, None); ("Started recording 1.", None)];
     api.clock := "2024-05-06T07:08:09+02:00";
     api.ran := []; api.header := ∅; api.statuses := []; api.encoded := [];
     api.logged := [] |}.

Definition crowded_host : api.Host :=
  {| api.execs := [("4711" +:+ LF +:+ "4712" +:+ LF, None)];
     api.clock := "2024-05-06T07:08:09+02:00";
     api.ran := []; api.header := ∅; api.statuses := []; api.encoded := [];
     api.logged := [] |}.

(** The name [createProfileHandler] records under. *)
Definition recording_name (req : api.ProfileRequest) (h : api.Host) : string :=
  if String.eqb (api.Name req) "" then
    "jfr_" +:+ ReplaceAll (api.clock h) ":" "-"
  else api.Name req.

(** The duration [createProfileHandler] records for. *)
Definition recording_duration (req : api.ProfileRequest) : string :=
  if String.eqb (api.Duration req) "" then "60s" else api.Duration req.

(** The answer of [createProfileHandler] to a request it carried out. *)
Definition started (pid : Z) (name duration output : string)
  : api.Response :=
  {| api.Success := true;
     api.Message := api.Lit "Profiling started successfully";
     api.Data := Some {[ "pid" := strconv.Itoa pid;
                         "name" := name;
                         "duration" := duration;
                         "filename" := name +:+ ".jfr";
                         "output" := output ]} |}.

(** * Properties *)

(** ** Paths *)

Section path_facts.

Local Abbreviation sep := PathSeparator.

Lemma app_String c s t : String c s +:+ t = String c (s +:+ t).
Proof. reflexivity. Qed.

Lemma app_Empty t : "" +:+ t = t.
Proof. reflexivity. Qed.

Lemma Split_nonempty s : strings.Split s sep <> [].
Proof.
  destruct s as [|c s]; simpl; [discriminate|].
  destruct (Ascii.eqb c sep); [discriminate|].
  destruct (strings.Split s sep); discriminate.
Qed.

Lemma Split_plain s :
  strings.Contains s sep = false -> strings.Split s sep = [s].
Proof.
  induction s as [|c s IH]; simpl; [reflexivity|].
  intros [Hc Hs]%orb_false_iff. rewrite Hc, (IH Hs). reflexivity.
Qed.

Lemma Split_app a b :
  strings.Contains a sep = false ->
  strings.Split (a +:+ String sep b) sep = a :: strings.Split b sep.
Proof.
  induction a as [|c a IH]; intros Ha.
  - rewrite app_Empty. simpl. reflexivity.
  - simpl in Ha. apply orb_false_iff in Ha as [Hc Ha].
    rewrite app_String. simpl. rewrite Hc, (IH Ha). reflexivity.
Qed.

Lemma is_name_plain s : is_name s = true -> strings.Contains s sep = false.
Proof.
  unfold is_name. rewrite !andb_true_iff, !negb_true_iff. tauto.
Qed.

Lemma is_name_clean r kept s :
  is_name s = true -> filepath.clean_elem r kept s = s :: kept.
Proof.
  unfold is_name, filepath.clean_elem.
  rewrite !andb_true_iff, !negb_true_iff. intros [[[-> ->] ->] _].
  reflexivity.
Qed.

Lemma is_name_nonempty s : is_name s = true -> s <> "".
Proof. intros H ->. discriminate H. Qed.

Lemma Split_Join elems :
  elems <> [] -> Forall (fun s => is_name s = true) elems ->
  strings.Split (strings.Join elems sep) sep = elems.
Proof.
  induction elems as [|e elems IH]; [congruence|]. intros _ Hall.
  apply Forall_cons in Hall as [He Hall].
  destruct elems as [|e' elems].
  - simpl. apply Split_plain, is_name_plain, He.
  - change (strings.Join (e :: e' :: elems) sep)
      with (e +:+ String sep (strings.Join (e' :: elems) sep)).
    rewrite Split_app by (apply is_name_plain, He).
    rewrite IH; [reflexivity|discriminate|exact Hall].
Qed.

Lemma clean_names r names kept :
  Forall (fun s => is_name s = true) names ->
  fold_left (filepath.clean_elem r) names kept = rev names ++ kept.
Proof.
  revert kept. induction names as [|n names IH]; intros kept Hall.
  - reflexivity.
  - apply Forall_cons in Hall as [Hn Hall]. simpl.
    rewrite is_name_clean by exact Hn. rewrite IH by exact Hall.
    rewrite <- app_assoc. reflexivity.
Qed.

Lemma Join_nonempty elems :
  elems <> [] -> Forall (fun s => is_name s = true) elems ->
  strings.Join elems sep <> "".
Proof.
  destruct elems as [|e elems]; [congruence|]. intros _ Hall.
  apply Forall_cons in Hall as [He _].
  apply is_name_nonempty in He.
  destruct e as [|c e]; [congruence|].
  destruct elems; simpl; [discriminate|]. rewrite app_String. discriminate.
Qed.

Lemma trim_trailing_app a b :
  filepath.trim_trailing b <> "" ->
  filepath.trim_trailing (a +:+ b) = a +:+ filepath.trim_trailing b.
Proof.
  intros Hb. induction a as [|c a IH].
  - reflexivity.
  - rewrite !app_String. simpl. rewrite IH.
    destruct (a +:+ filepath.trim_trailing b) eqn:E; [|reflexivity].
    destruct a; [|discriminate]. rewrite app_Empty in E. congruence.
Qed.

Lemma trim_trailing_plain s :
  strings.Contains s sep = false -> filepath.trim_trailing s = s.
Proof.
  induction s as [|c s IH]; [reflexivity|]. simpl.
  intros [Hc Hs]%orb_false_iff. rewrite (IH Hs), Hc.
  destruct s; reflexivity.
Qed.

Lemma trim_trailing_Join elems :
  elems <> [] -> Forall (fun s => is_name s = true) elems ->
  filepath.trim_trailing (strings.Join elems sep) = strings.Join elems sep.
Proof.
  induction elems as [|e elems IH]; [congruence|]. intros _ Hall.
  apply Forall_cons in Hall as [He Hall].
  destruct elems as [|e' elems].
  - simpl. apply trim_trailing_plain, is_name_plain, He.
  - change (strings.Join (e :: e' :: elems) sep)
      with (e +:+ String sep (strings.Join (e' :: elems) sep)).
    assert (Hrest : filepath.trim_trailing
              (String sep (strings.Join (e' :: elems) sep))
            = String sep (strings.Join (e' :: elems) sep)).
    { cbn [filepath.trim_trailing]. rewrite IH by (discriminate || exact Hall).
      destruct (strings.Join (e' :: elems) sep) eqn:E; [|reflexivity].
      exfalso. revert E. apply Join_nonempty; [discriminate|exact Hall]. }
    rewrite trim_trailing_app; rewrite Hrest; [reflexivity|discriminate].
Qed.

End path_facts.

Section root_paths.

Local Abbreviation sep := PathSeparator.
Local Abbreviation names elems := (Forall (fun s => is_name s = true) elems).

Lemma below_root_unfold elems :
  below rootProfileDir elems
  = "" +:+ String sep ("tmp" +:+ String sep ("jfr" +:+
      String sep (strings.Join elems sep))).
Proof. reflexivity. Qed.

Lemma Split_below_root elems :
  elems <> [] -> names elems ->
  strings.Split (below rootProfileDir elems) sep
  = "" :: "tmp" :: "jfr" :: elems.
Proof.
  intros Hne Hall. rewrite below_root_unfold.
  rewrite !Split_app by reflexivity.
  rewrite Split_Join by assumption. reflexivity.
Qed.

Lemma Clean_below_root elems :
  elems <> [] -> names elems ->
  filepath.Clean (below rootProfileDir elems) = below rootProfileDir elems.
Proof.
  intros Hne Hall. unfold filepath.Clean, filepath.clean_elems.
  rewrite Split_below_root by assumption.
  change (filepath.rooted (below rootProfileDir elems)) with true.
  cbn [fold_left].
  change (filepath.clean_elem true [] "") with (@nil string).
  change (filepath.clean_elem true [] "tmp") with ["tmp"].
  change (filepath.clean_elem true ["tmp"] "jfr") with ["jfr"; "tmp"].
  rewrite clean_names by assumption.
  rewrite rev_app_distr, rev_involutive.
  destruct elems as [|e elems]; [congruence|]. reflexivity.
Qed.

(** The path of an entry below the root, relative to the root, is the
    entry's own elements. *)
Lemma Rel_below_root elems :
  elems <> [] -> names elems ->
  filepath.Rel rootProfileDir (below rootProfileDir elems)
  = inl (strings.Join elems sep).
Proof.
  intros Hne Hall. unfold filepath.Rel.
  rewrite Clean_below_root by assumption.
  change (filepath.Clean rootProfileDir) with "/tmp/jfr".
  change (String.eqb (below rootProfileDir elems) "/tmp/jfr") with false.
  cbv iota.
  change (String.eqb "/tmp/jfr" ".") with false. cbv iota.
  change (filepath.rooted (below rootProfileDir elems)) with true.
  change (negb (Bool.eqb (filepath.rooted "/tmp/jfr") true)) with false.
  cbv iota.
  change (filepath.elements_of "/tmp/jfr") with ["tmp"; "jfr"].
  assert (Hel : filepath.elements_of (below rootProfileDir elems)
                = "tmp" :: "jfr" :: elems).
  { change (filepath.elements_of (below rootProfileDir elems))
      with (strings.Split ("tmp" +:+ String sep ("jfr" +:+
              String sep (strings.Join elems sep))) sep).
    rewrite !Split_app by reflexivity.
    rewrite Split_Join by assumption. reflexivity. }
  rewrite Hel. reflexivity.
Qed.

(** [strings.Split] of that relative path gives the elements back. *)
Lemma parts_below_root elems rel :
  elems <> [] -> names elems ->
  filepath.Rel rootProfileDir (below rootProfileDir elems) = inl rel ->
  strings.Split rel sep = elems.
Proof.
  intros Hne Hall. rewrite Rel_below_root by assumption.
  intros [= <-]. apply Split_Join; assumption.
Qed.

Lemma last_cons_cons {A} (a b : A) l d :
  List.last (a :: b :: l) d = List.last (b :: l) d.
Proof. reflexivity. Qed.

(** The base name of an entry below the root is its last element. *)
Lemma Base_below_root elems :
  elems <> [] -> names elems ->
  filepath.Base (below rootProfileDir elems) = List.last elems "".
Proof.
  intros Hne Hall. unfold filepath.Base.
  change (String.eqb (below rootProfileDir elems) "") with false. cbv iota.
  assert (Htrim : filepath.trim_trailing (below rootProfileDir elems)
                  = below rootProfileDir elems).
  { unfold below. rewrite trim_trailing_app.
    - cbn [filepath.trim_trailing].
      rewrite trim_trailing_Join by assumption.
      destruct (strings.Join elems sep) eqn:E; [|reflexivity].
      exfalso. revert E. apply Join_nonempty; assumption.
    - cbn [filepath.trim_trailing].
      rewrite trim_trailing_Join by assumption.
      destruct (strings.Join elems sep) eqn:E; [|discriminate].
      exfalso. revert E. apply Join_nonempty; assumption. }
  rewrite Htrim, Split_below_root by assumption.
  destruct elems as [|e elems]; [congruence|].
  rewrite !last_cons_cons.
  assert (Hlast : is_name (List.last (e :: elems) "") = true).
  { clear -Hall. revert e Hall. induction elems as [|e' elems IH]; intros e Hall.
    - apply Forall_cons in Hall as [He _]. exact He.
    - rewrite last_cons_cons. apply IH.
      apply Forall_cons in Hall as [_ Hall]. exact Hall. }
  destruct (String.eqb_spec (List.last (e :: elems) "") "") as [E|_];
    [|reflexivity].
  rewrite E in Hlast. discriminate Hlast.
Qed.

End root_paths.

(** ** Runs of the uploader *)

Ltac unfold_calls :=
  unfold os.Stat, os.Open, os.FileStat, os.FileClose, os.Remove, time.Sleep,
    readDirNames, storage.NewWriter, storage.Close, io.Copy, fsnotify.Add,
    fsnotify.NewWatcher, logger.Info, logger.Infof;
  unfold mbind, M_bind, mret, M_ret, env_step, get_fs, emit, put_object,
    unlink, add_watch.

Lemma open_result_name t f path file :
  os.open_result t f path = Ok file -> f_name file = path.
Proof.
  unfold os.open_result. intros H. repeat case_match; simplify_eq. reflexivity.
Qed.

Lemma size_differs (a b : nat) : negb (a =? b) = true -> a <> b.
Proof. intros H%negb_true_iff. apply Nat.eqb_neq, H. Qed.

Lemma size_same (a b : nat) : negb (a =? b) = false -> a = b.
Proof. intros H%negb_false_iff. apply Nat.eqb_eq, H. Qed.

Lemma Upload_run u localPath podName w :
  exists acts,
    trace (uploader.Upload u localPath podName w).2 = trace w ++ acts /\
    UploadRun u localPath podName (objects w) acts
      (uploader.Upload u localPath podName w).1
      (objects (uploader.Upload u localPath podName w).2).
Proof.
  unfold uploader.Upload. unfold_calls.
  cbn -[filepath.Base uploader.objectPath_of].
  repeat case_match; simplify_eq/=;
    rewrite <- ?app_assoc; (eexists; split; [reflexivity|]);
    econstructor; eauto using open_result_name, size_differs, size_same.
Qed.

(** ** Runs of [processFile] *)

Lemma processFile_run u filePath w :
  exists acts,
    trace (daemon.processFile u filePath w).2 = trace w ++ acts /\
    ProcessRun u filePath (objects w) acts
      (daemon.processFile u filePath w).1
      (objects (daemon.processFile u filePath w).2).
Proof.
  unfold daemon.processFile.
  destruct (filepath.Rel rootProfileDir filePath) as [rel|msg] eqn:Hrel.
  2:{ exists []. rewrite app_nil_r. split; [reflexivity|].
      apply rel_failed, Hrel. }
  destruct (length (strings.Split rel PathSeparator) <? 2) eqn:Hlen.
  { exists []. rewrite app_nil_r. split; [reflexivity|].
    eapply bad_structure; [exact Hrel|]. apply Nat.ltb_lt, Hlen. }
  assert (Hst : structured filePath rel).
  { split; [exact Hrel|]. apply Nat.ltb_ge, Hlen. }
  unfold_calls.
  cbn -[uploader.Upload filepath.Rel filepath.Base strings.Split].
  destruct (os.stat_result _ _ _) as [info|err].
  2:{ cbn. eexists. split; [reflexivity|]. eapply not_accessible, Hst. }
  destruct (Size info =? 0) eqn:Hsize.
  { cbn. rewrite <- app_assoc. eexists. split; [reflexivity|].
    eapply empty_file; [exact Hst|]. apply Nat.eqb_eq, Hsize. }
  apply Nat.eqb_neq in Hsize.
  match goal with
  | |- context [uploader.Upload ?u ?p ?pod ?w1] =>
      destruct (Upload_run u p pod w1) as (acts & Htrace & Hrun);
      destruct (uploader.Upload u p pod w1) as [[uerr|] w2]
  end; cbn in Htrace, Hrun.
  { cbn. rewrite Htrace, <- !app_assoc. eexists. split; [reflexivity|].
    eapply upload_failed; eauto. }
  destruct (os.remove_result _ _ _) as [rerr|];
    cbn; rewrite Htrace, <- !app_assoc; (eexists; split; [reflexivity|]).
  - eapply remove_failed; eauto.
  - eapply removed; eauto.
Qed.

(** ** Relations between worlds that the daemon's calls keep *)

Ltac keeps_step :=
  first
    [ progress intros
    | match goal with
      | |- keeps _ (mret _) => fail 1
      | |- keeps _ (mbind _ _) => fail 1
      | |- keeps _ (match ?x with _ => _ end) => destruct x
      end ].

Section frames.

Context (R : relation World) `{!PreOrder R}.

Lemma keeps_ret {A} (a : A) : keeps R (mret a).
Proof. intros w. reflexivity. Qed.

Lemma keeps_bind {A B} (m : M A) (k : A -> M B) :
  keeps R m -> (forall a, keeps R (k a)) -> keeps R (m ≫= k).
Proof.
  intros Hm Hk w. unfold mbind, M_bind.
  specialize (Hm w). destruct (m w) as [a w1]. cbn in Hm.
  etrans; [exact Hm|]. apply Hk.
Qed.

Lemma keeps_get_fs : keeps R get_fs.
Proof. intros w. reflexivity. Qed.

Lemma keeps_Getenv key : keeps R (os.Getenv key).
Proof. intros w. reflexivity. Qed.

Hypothesis R_turned : forall w, R w (turned w).
Hypothesis R_noted :
  forall a w, (forall q e, a <> ARemove q e) -> R w (noted a w).
Hypothesis R_stored : forall key o w, R w (stored key o w).

Lemma keeps_env_step : keeps R env_step.
Proof. intros w. apply R_turned. Qed.

Lemma keeps_emit a : (forall q e, a <> ARemove q e) -> keeps R (emit a).
Proof. intros Ha w. apply R_noted, Ha. Qed.

Lemma keeps_put_object key o : keeps R (put_object key o).
Proof. intros w. apply R_stored. Qed.

Ltac keeps_calls :=
  repeat first
    [ apply keeps_ret | apply keeps_env_step
    | apply keeps_get_fs | apply keeps_put_object
    | apply keeps_emit; discriminate
    | apply keeps_bind
    | keeps_step ].

Lemma keeps_Infof format args : keeps R (logger.Infof format args).
Proof. unfold logger.Infof. keeps_calls. Qed.

Lemma keeps_Info fields msg : keeps R (logger.Info fields msg).
Proof. unfold logger.Info. keeps_calls. Qed.

Lemma keeps_Sleep n : keeps R (time.Sleep n).
Proof. unfold time.Sleep. keeps_calls. Qed.

Lemma keeps_Stat path : keeps R (os.Stat path).
Proof. unfold os.Stat. keeps_calls. Qed.

Lemma keeps_Open path : keeps R (os.Open path).
Proof. unfold os.Open. keeps_calls. Qed.

Lemma keeps_FileStat file : keeps R (os.FileStat file).
Proof. unfold os.FileStat. keeps_calls. Qed.

Lemma keeps_FileClose file : keeps R (os.FileClose file).
Proof. unfold os.FileClose. keeps_calls. Qed.

Lemma keeps_readDirNames dirname : keeps R (readDirNames dirname).
Proof. unfold readDirNames. keeps_calls. Qed.

Lemma keeps_NewWriter bucket object :
  keeps R (storage.NewWriter bucket object).
Proof. unfold storage.NewWriter. keeps_calls. Qed.

Lemma keeps_Copy dst src : keeps R (io.Copy dst src).
Proof. unfold io.Copy. keeps_calls. Qed.

Lemma keeps_Close writer : keeps R (storage.Close writer).
Proof. unfold storage.Close. keeps_calls. Qed.

Lemma keeps_NewWatcher : keeps R fsnotify.NewWatcher.
Proof. unfold fsnotify.NewWatcher. keeps_calls. Qed.

Lemma keeps_NewGCSUploader bucket :
  keeps R (uploader.NewGCSUploader bucket).
Proof. unfold uploader.NewGCSUploader. keeps_calls. Qed.

Ltac keeps_all :=
  repeat first
    [ apply keeps_ret
    | apply keeps_Infof | apply keeps_Info | apply keeps_Sleep
    | apply keeps_Stat | apply keeps_Open | apply keeps_FileStat
    | apply keeps_FileClose | apply keeps_readDirNames
    | apply keeps_NewWriter | apply keeps_Copy | apply keeps_Close
    | apply keeps_NewWatcher | apply keeps_NewGCSUploader
    | apply keeps_Getenv
    | apply keeps_bind
    | keeps_step ].

(** [Upload] keeps every relation that environment turns, recorded calls
    other than removals, and stored objects keep. *)
Lemma keeps_Upload u localPath podName :
  keeps R (uploader.Upload u localPath podName).
Proof. unfold uploader.Upload. keeps_all. Qed.

(** [filepath.Walk] keeps what its callback keeps. *)
Lemma keeps_walk depth walkFn :
  (forall path info err, keeps R (walkFn path info err)) ->
  forall path info, keeps R (walk depth path info walkFn).
Proof.
  intros Hfn. induction depth as [|depth IH]; intros path info.
  - cbn [walk]. destruct (negb (IsDir info)); [apply Hfn|].
    keeps_all; apply Hfn.
  - cbn [walk]. destruct (negb (IsDir info)); [apply Hfn|].
    apply keeps_bind; [apply keeps_readDirNames|]. intros r.
    apply keeps_bind; [apply Hfn|]. intros err1.
    destruct r as [names|]; [|apply keeps_ret].
    destruct err1; [apply keeps_ret|].
    induction names as [|name rest IHnames]; [apply keeps_ret|].
    cbn [each_entry].
    apply keeps_bind; [apply keeps_Stat|]. intros r.
    apply keeps_bind.
    + destruct r; [apply IH|apply Hfn].
    + intros [err|]; [apply keeps_ret|apply IHnames].
Qed.

Lemma keeps_Walk depth root walkFn :
  (forall path info err, keeps R (walkFn path info err)) ->
  keeps R (Walk depth root walkFn).
Proof.
  intros Hfn. unfold Walk.
  apply keeps_bind; [apply keeps_Stat|].
  intros [info|err]; [apply keeps_walk, Hfn|apply Hfn].
Qed.

Section with_processFile.

Hypothesis R_processFile : forall u path, keeps R (daemon.processFile u path).

Lemma keeps_handleFileEvent u event :
  keeps R (daemon.handleFileEvent u event).
Proof.
  unfold daemon.handleFileEvent.
  destruct (negb _); [apply keeps_ret|].
  destruct (_ =? _)%N; [apply keeps_Infof|].
  destruct (_ || _); [|apply keeps_ret].
  keeps_all. apply R_processFile.
  all: keeps_all.
Qed.

Lemma keeps_scanAndUploadExisting depth u rootDir :
  keeps R (daemon.scanAndUploadExisting depth u rootDir).
Proof.
  unfold daemon.scanAndUploadExisting.
  apply keeps_bind; [apply keeps_Infof|]. intros ?.
  apply keeps_Walk. intros path info err.
  destruct err; [keeps_all|].
  destruct info as [info|]; [|apply keeps_ret].
  apply keeps_bind; [|intros; apply keeps_ret].
  destruct (_ && _); [|apply keeps_ret].
  keeps_all. apply R_processFile.
  all: keeps_all.
Qed.

Lemma keeps_eventLoop depth u inputs :
  keeps R (daemon.eventLoop depth u inputs).
Proof.
  induction inputs as [|input later IH]; [apply keeps_ret|].
  destruct input; cbn [daemon.eventLoop]; try apply keeps_ret.
  - apply keeps_bind; [apply keeps_handleFileEvent|]. intros ?. exact IH.
  - apply keeps_bind; [apply keeps_Infof|]. intros ?. exact IH.
  - apply keeps_bind; [apply keeps_scanAndUploadExisting|]. intros err.
    apply keeps_bind; [|intros ?; exact IH].
    destruct err; [apply keeps_Infof|apply keeps_ret].
Qed.

Hypothesis R_subscribed : forall path w, R w (subscribed path w).

Lemma keeps_Add path : keeps R (fsnotify.Add path).
Proof.
  unfold fsnotify.Add.
  apply keeps_bind; [apply keeps_env_step|]. intros t.
  apply keeps_bind; [apply keeps_get_fs|]. intros f. cbv zeta.
  apply keeps_bind.
  - destruct (fsnotify.add_result t f path); [apply keeps_ret|].
    intros w. apply R_subscribed.
  - intros ?. apply keeps_bind; [apply keeps_emit; discriminate|].
    intros ?. apply keeps_ret.
Qed.

Lemma keeps_watchDirectoryRecursive depth root :
  keeps R (daemon.watchDirectoryRecursive depth root).
Proof.
  unfold daemon.watchDirectoryRecursive.
  apply keeps_Walk. intros path info err.
  destruct err; [apply keeps_ret|].
  destruct info as [info|]; [|apply keeps_ret].
  destruct (IsDir info); [|apply keeps_ret].
  apply keeps_bind; [apply keeps_Infof|]. intros ?.
  apply keeps_bind; [apply keeps_Add|].
  intros [err|]; apply keeps_ret.
Qed.

(** The whole daemon keeps what [processFile] and subscriptions keep. *)
Lemma keeps_Start depth inputs : keeps R (daemon.Start depth inputs).
Proof.
  unfold daemon.Start.
  apply keeps_bind; [apply keeps_Getenv|]. intros bucketName.
  destruct (String.eqb bucketName ""); [apply keeps_ret|].
  apply keeps_bind; [apply keeps_NewGCSUploader|].
  intros [gcsUploader|err]; [|apply keeps_ret].
  apply keeps_bind; [apply keeps_Infof|]. intros ?.
  apply keeps_bind; [apply keeps_Infof|]. intros ?.
  apply keeps_bind; [apply keeps_NewWatcher|].
  intros [err|]; [apply keeps_ret|].
  apply keeps_bind; [apply keeps_watchDirectoryRecursive|].
  intros [err|]; [apply keeps_ret|].
  apply keeps_bind; [apply keeps_scanAndUploadExisting|]. intros err.
  apply keeps_bind; [|intros ?; apply keeps_eventLoop].
  destruct err; [apply keeps_Infof|apply keeps_ret].
Qed.

End with_processFile.

Lemma keeps_Remove path :
  (forall q e w, R w (noted (ARemove q e) w)) ->
  (forall q w, R w (unlinked q w)) ->
  keeps R (os.Remove path).
Proof.
  intros R_removal R_unlinked. unfold os.Remove.
  apply keeps_bind; [apply keeps_env_step|]. intros t.
  apply keeps_bind; [apply keeps_get_fs|]. intros f. cbv zeta.
  apply keeps_bind.
  - destruct (os.remove_result t f path); [apply keeps_ret|].
    intros w. apply R_unlinked.
  - intros ?. apply keeps_bind; [intros w; apply R_removal|].
    intros ?. apply keeps_ret.
Qed.

Section with_Remove.

Hypothesis R_Remove : forall path, keeps R (os.Remove path).

Lemma keeps_processFile u filePath :
  keeps R (daemon.processFile u filePath).
Proof.
  unfold daemon.processFile.
  destruct (filepath.Rel _ _); [|apply keeps_ret].
  destruct (_ <? _); [apply keeps_ret|]. cbv zeta.
  apply keeps_bind; [apply keeps_Stat|].
  intros [fileInfo|err]; [|apply keeps_ret].
  destruct (_ =? _); [keeps_all|].
  apply keeps_bind; [apply keeps_Infof|]. intros ?.
  apply keeps_bind; [apply keeps_Upload|].
  intros [err|]; [apply keeps_ret|].
  apply keeps_bind; [apply keeps_Infof|]. intros ?.
  apply keeps_bind; [apply R_Remove|].
  intros [err|]; keeps_all.
Qed.

End with_Remove.

End frames.

(** ** What the daemon leaves alone *)

Section relations.

Global Instance same_watches_preorder : PreOrder same_watches.
Proof.
  split; [intros w; reflexivity|].
  intros w1 w2 w3 H12 H23. unfold same_watches in *. congruence.
Qed.

Lemma env_effect_app turns1 turns2 f :
  env_effect (turns1 ++ turns2) f = env_effect turns2 (env_effect turns1 f).
Proof. apply foldl_app. Qed.

Global Instance untouched_preorder : PreOrder untouched.
Proof.
  split.
  - intros w. exists []. split; reflexivity.
  - intros w1 w2 w3 (t12 & Hs12 & Hf12) (t23 & Hs23 & Hf23).
    exists (t12 ++ t23). split.
    + rewrite Hs12, Hs23, app_assoc. reflexivity.
    + rewrite env_effect_app, <- Hf12. exact Hf23.
Qed.

Lemma untouched_turned w : untouched w (turned w).
Proof.
  unfold untouched, turned, next_turn. cbn.
  destruct (script w) as [|t later].
  - exists []. split; reflexivity.
  - exists [t]. split; reflexivity.
Qed.

Lemma untouched_same_fs w w' :
  script w' = script w -> fs w' = fs w -> untouched w w'.
Proof. intros Hs Hf. exists []. rewrite Hs, Hf. split; reflexivity. Qed.

Global Instance spared_preorder : PreOrder spared.
Proof.
  split.
  - intros w. exists []. rewrite app_nil_r. split; [reflexivity|].
    intros _. reflexivity.
  - intros w1 w2 w3 (a12 & Ht12 & H12) (a23 & Ht23 & H23).
    exists (a12 ++ a23). split.
    + rewrite Ht23, Ht12, app_assoc. reflexivity.
    + intros Hno. etrans; [apply H12|apply H23];
        intros q Hq; apply (Hno q), elem_of_app; auto.
Qed.

Lemma spared_untouched w w' acts :
  trace w' = trace w ++ acts -> untouched w w' -> spared w w'.
Proof. intros Ht Hu. exists acts. split; [exact Ht|]. intros _. exact Hu. Qed.

Lemma removals_follow_uploads_nil : removals_follow_uploads [].
Proof. intros [|? pre] q e post H; discriminate H. Qed.

Lemma removals_follow_uploads_one a :
  (forall q e, a <> ARemove q e) -> removals_follow_uploads [a].
Proof.
  intros Ha [|? [|? pre]] q e post H; simplify_eq/=. destruct (Ha q e).
  reflexivity.
Qed.

Lemma finalized_before_app older pre q :
  finalized_before pre q -> finalized_before (older ++ pre) q.
Proof.
  intros (b & o & fields & file & (pre0 & ->) & Hname).
  exists b, o, fields, file. split; [|exact Hname].
  exists (older ++ pre0). rewrite app_assoc. reflexivity.
Qed.

Lemma removals_follow_uploads_app acts1 acts2 :
  removals_follow_uploads acts1 -> removals_follow_uploads acts2 ->
  removals_follow_uploads (acts1 ++ acts2).
Proof.
  intros H1 H2 pre q e post Heq.
  apply app_eq_inv in Heq as [(k & -> & Hk)|(k & -> & Hk)].
  - destruct k as [|a k].
    + cbn in Hk. subst acts2.
      rewrite <- (app_nil_r pre). apply finalized_before_app.
      apply (H2 [] q e post). reflexivity.
    + cbn in Hk. injection Hk as <- ->.
      eapply (H1 pre q e). reflexivity.
  - apply finalized_before_app. eapply H2. exact Hk.
Qed.

Global Instance orderly_preorder : PreOrder orderly.
Proof.
  split.
  - intros w. exists []. rewrite app_nil_r.
    split; [reflexivity|apply removals_follow_uploads_nil].
  - intros w1 w2 w3 (a12 & Ht12 & H12) (a23 & Ht23 & H23).
    exists (a12 ++ a23). split.
    + rewrite Ht23, Ht12, app_assoc. reflexivity.
    + apply removals_follow_uploads_app; assumption.
Qed.

Lemma orderly_same_trace w w' : trace w' = trace w -> orderly w w'.
Proof.
  intros Ht. exists []. rewrite app_nil_r.
  split; [exact Ht|apply removals_follow_uploads_nil].
Qed.

Lemma ends_with_intro acts suffix :
  drop (length acts - length suffix) acts = suffix -> ends_with acts suffix.
Proof.
  intros H. exists (take (length acts - length suffix) acts).
  rewrite <- H at 2. symmetry. apply take_drop.
Qed.

End relations.

Section kept.

(** Nothing but [watcher.Add] changes the subscription set. *)
Lemma same_watches_processFile u filePath :
  keeps same_watches (daemon.processFile u filePath).
Proof.
  apply keeps_processFile; try apply _; try (intros; reflexivity).
  intros path. apply keeps_Remove; try apply _; intros; reflexivity.
Qed.

Lemma same_watches_handleFileEvent u event :
  keeps same_watches (daemon.handleFileEvent u event).
Proof.
  apply keeps_handleFileEvent; try apply _; try (intros; reflexivity).
  apply same_watches_processFile.
Qed.

Lemma same_watches_eventLoop depth u inputs :
  keeps same_watches (daemon.eventLoop depth u inputs).
Proof.
  apply keeps_eventLoop; try apply _; try (intros; reflexivity).
  apply same_watches_processFile.
Qed.

(** [Upload] does not touch the local file system. *)
Lemma untouched_Upload u localPath podName :
  keeps untouched (uploader.Upload u localPath podName).
Proof.
  apply keeps_Upload; try apply _.
  - apply untouched_turned.
  - intros. apply untouched_same_fs; reflexivity.
  - intros. apply untouched_same_fs; reflexivity.
Qed.

Lemma spared_turned w : spared w (turned w).
Proof.
  apply (spared_untouched _ _ []); [|apply untouched_turned].
  rewrite app_nil_r. reflexivity.
Qed.

Lemma spared_noted a w : spared w (noted a w).
Proof.
  apply (spared_untouched _ _ [a]); [reflexivity|].
  apply untouched_same_fs; reflexivity.
Qed.

Lemma spared_stored key o w : spared w (stored key o w).
Proof.
  apply (spared_untouched _ _ []); [cbn; rewrite app_nil_r; reflexivity|].
  apply untouched_same_fs; reflexivity.
Qed.

Lemma spared_subscribed path w : spared w (subscribed path w).
Proof.
  apply (spared_untouched _ _ []); [cbn; rewrite app_nil_r; reflexivity|].
  apply untouched_same_fs; reflexivity.
Qed.

Lemma spared_Remove path : keeps spared (os.Remove path).
Proof.
  intros w. unfold os.Remove. unfold_calls. cbn.
  destruct (os.remove_result _ _ _) as [err|] eqn:Hr; cbn.
  - exists [ARemove path (Some err)]. split; [reflexivity|].
    intros _. etrans; [apply untouched_turned|].
    apply untouched_same_fs; reflexivity.
  - exists [ARemove path None]. split; [reflexivity|].
    intros Hno. destruct (Hno path). apply list_elem_of_singleton.
    reflexivity.
Qed.

Lemma spared_processFile u filePath :
  keeps spared (daemon.processFile u filePath).
Proof.
  apply keeps_processFile; try apply _;
    auto using spared_turned, spared_noted, spared_stored, spared_Remove.
Qed.

Lemma spared_Start depth inputs : keeps spared (daemon.Start depth inputs).
Proof.
  apply keeps_Start; try apply _;
    auto using spared_turned, spared_noted, spared_stored,
      spared_subscribed, spared_processFile.
Qed.

End kept.

(** ** Where removals stand in the runs *)

(** Peels a list equation [explicit = pre ++ rest] element by element. *)
Ltac peel pre := repeat (destruct pre as [|? pre]; simplify_eq/=).

Lemma UploadRun_finalized u p pod before acts after :
  UploadRun u p pod before acts None after ->
  exists file n,
    ends_with acts
      [AWriterClose (bucket_of u) (object_for p pod) None;
       uploaded_log u p pod n; AFileClose file] /\
    f_name file = p.
Proof.
  intros H. inversion H as [| | | | | |file i1 i2 content Hname]; subst acts.
  exists file, (length content). split; [|exact Hname].
  apply ends_with_intro. reflexivity.
Qed.

Lemma UploadRun_no_removal u p pod before acts r after q e :
  UploadRun u p pod before acts r after -> ARemove q e ∉ acts.
Proof.
  inversion 1; subst; unfold recheck, opening, uploaded_log; cbn [app];
    rewrite ?not_elem_of_cons; repeat split; try discriminate;
    apply not_elem_of_nil.
Qed.

Lemma app_cons_eq_inv {A} (l1 l2 k1 k2 : list A) (a b : A) :
  l1 ++ a :: l2 = k1 ++ b :: k2 -> b ∉ l1 ->
  (k1 = l1 /\ a = b /\ l2 = k2) \/
  (exists k, k1 = l1 ++ a :: k /\ l2 = k ++ b :: k2).
Proof.
  revert k1. induction l1 as [|x l1 IH]; intros k1 Heq Hb.
  - destruct k1 as [|y k1]; simplify_eq/=; [left; auto|].
    right. exists k1. auto.
  - apply not_elem_of_cons in Hb as [Hbx Hb].
    destruct k1 as [|y k1]; cbn in Heq.
    { injection Heq as -> _. destruct Hbx. reflexivity. }
    injection Heq as -> Heq.
    destruct (IH k1 Heq Hb) as [(-> & -> & ->)|(k & -> & ->)].
    + left. auto.
    + right. exists k. auto.
Qed.

Lemma removal_position front p ro tail pre q e post :
  ARemove q e ∉ front -> ARemove q e ∉ tail ->
  front ++ ARemove p ro :: tail = pre ++ ARemove q e :: post ->
  pre = front /\ q = p /\ e = ro.
Proof.
  intros Hfront Htail Heq.
  apply app_cons_eq_inv in Heq as [(-> & Heq & _)|(k & _ & ->)];
    [| |exact Hfront].
  - injection Heq as -> ->. auto.
  - destruct Htail. apply elem_of_app. right. apply elem_of_cons. auto.
Qed.

Lemma ProcessRun_shape p rel info acts ro tail :
  AStat p (Ok info) :: uploading_log p rel info :: acts ++
    deleting_log p :: ARemove p ro :: tail
  = (AStat p (Ok info) :: uploading_log p rel info :: acts ++
       [deleting_log p]) ++ ARemove p ro :: tail.
Proof. cbn. rewrite <- app_assoc. reflexivity. Qed.

Lemma ProcessRun_front u p pod rel info before acts after q e :
  UploadRun u p pod before acts None after ->
  ARemove q e ∉ AStat p (Ok info) :: uploading_log p rel info :: acts ++
                [deleting_log p].
Proof.
  intros Hup. rewrite !not_elem_of_cons, not_elem_of_app.
  repeat split; try discriminate.
  - eapply UploadRun_no_removal, Hup.
  - rewrite not_elem_of_cons. split; [discriminate|apply not_elem_of_nil].
Qed.

Lemma ProcessRun_finalized u p pod rel info before acts after :
  UploadRun u p pod before acts None after ->
  finalized_before
    (AStat p (Ok info) :: uploading_log p rel info :: acts ++ [deleting_log p])
    p.
Proof.
  intros Hup.
  destruct (UploadRun_finalized _ _ _ _ _ _ Hup)
    as (file & n & (older & ->) & Hname).
  eexists (bucket_of u), (object_for p pod), _, file. split; [|exact Hname].
  exists (AStat p (Ok info) :: uploading_log p rel info :: older).
  unfold uploaded_log.
  cbn. rewrite <- app_assoc. reflexivity.
Qed.

Lemma ProcessRun_removals u p before acts r after :
  ProcessRun u p before acts r after -> removals_follow_uploads acts.
Proof.
  intros Hrun pre q e post Heq.
  assert (Hin : ARemove q e ∈ acts).
  { rewrite Heq. apply elem_of_app. right. apply elem_of_cons. auto. }
  destruct Hrun as [msg Hrel|rel Hrel Hlen|rel err Hst|rel info Hst Hsize
                   |rel info acts err after Hst Hsize Hup
                   |rel info acts err after Hst Hsize Hup
                   |rel info acts after Hst Hsize Hup].
  - peel pre.
  - peel pre.
  - peel pre.
  - peel pre.
  - exfalso. apply elem_of_cons in Hin as [Hin|Hin]; [discriminate|].
    apply elem_of_cons in Hin as [Hin|Hin]; [discriminate|].
    revert Hin. eapply UploadRun_no_removal, Hup.
  - rewrite ProcessRun_shape in Heq.
    apply removal_position in Heq as (-> & -> & _).
    + eapply ProcessRun_finalized, Hup.
    + eapply ProcessRun_front, Hup.
    + apply not_elem_of_nil.
  - rewrite ProcessRun_shape in Heq.
    apply removal_position in Heq as (-> & -> & _).
    + eapply ProcessRun_finalized, Hup.
    + eapply ProcessRun_front, Hup.
    + rewrite not_elem_of_cons. split; [discriminate|apply not_elem_of_nil].
Qed.

Lemma orderly_processFile u filePath :
  keeps orderly (daemon.processFile u filePath).
Proof.
  intros w. destruct (processFile_run u filePath w) as (acts & Ht & Hrun).
  exists acts. split; [exact Ht|]. eapply ProcessRun_removals, Hrun.
Qed.

Lemma orderly_noted a w :
  (forall q e, a <> ARemove q e) -> orderly w (noted a w).
Proof.
  intros Ha. exists [a]. split; [reflexivity|].
  apply removals_follow_uploads_one, Ha.
Qed.

Lemma orderly_Start depth inputs : keeps orderly (daemon.Start depth inputs).
Proof.
  apply keeps_Start; try apply _;
    auto using orderly_noted, orderly_processFile;
    intros; apply orderly_same_trace; reflexivity.
Qed.

(** ** Deletion only after a finalized upload *)

(** A run of [processFile] either records no removal at all, or contains a
    call of [Upload] for the same path that returned [nil], directly
    followed by the deletion log and the one removal. *)
Lemma processFile_upload_call u p w :
  (exists acts,
     trace (daemon.processFile u p w).2 = trace w ++ acts /\
     forall q e, ARemove q e ∉ acts) \/
  (exists rel info w1 ro tail,
     (uploader.Upload u p (pod_of rel) w1).1 = None /\
     trace w1 = trace w ++ [AStat p (Ok info); uploading_log p rel info] /\
     trace (daemon.processFile u p w).2
     = trace (uploader.Upload u p (pod_of rel) w1).2 ++
       deleting_log p :: ARemove p ro :: tail /\
     forall q e, ARemove q e ∉ tail).
Proof.
  unfold daemon.processFile.
  destruct (filepath.Rel rootProfileDir p) as [rel|msg] eqn:Hrel.
  2:{ left. exists []. rewrite app_nil_r. split; [reflexivity|].
      intros q e. apply not_elem_of_nil. }
  destruct (length (strings.Split rel PathSeparator) <? 2) eqn:Hlen.
  { left. exists []. rewrite app_nil_r. split; [reflexivity|].
    intros q e. apply not_elem_of_nil. }
  unfold_calls.
  cbn -[uploader.Upload filepath.Rel filepath.Base strings.Split].
  destruct (os.stat_result _ _ _) as [info|err].
  2:{ left. cbn. eexists. split; [reflexivity|]. intros q e.
      rewrite not_elem_of_cons. split; [discriminate|apply not_elem_of_nil]. }
  destruct (Size info =? 0) eqn:Hsize.
  { left. cbn. rewrite <- app_assoc. eexists. split; [reflexivity|].
    intros q e. cbn [app]. rewrite !not_elem_of_cons.
    repeat split; try discriminate. apply not_elem_of_nil. }
  match goal with
  | |- context [uploader.Upload ?u ?p ?pod ?w1] =>
      destruct (Upload_run u p pod w1) as (acts & Htrace & Hrun);
      pose (w1' := w1);
      assert (Hcall : uploader.Upload u p pod w1 = uploader.Upload u p pod w1')
        by reflexivity;
      destruct (uploader.Upload u p pod w1) as [[uerr|] w2]
  end; cbn in Htrace, Hrun.
  { left. cbn. rewrite Htrace, <- !app_assoc. eexists. split; [reflexivity|].
    intros q e. cbn [app]. rewrite !not_elem_of_cons.
    repeat split; try discriminate. eapply UploadRun_no_removal, Hrun. }
  right. exists rel, info, w1'. unfold pod_of. rewrite <- Hcall.
  destruct (os.remove_result _ _ _) as [rerr|]; cbn.
  - exists (Some rerr), []. repeat split.
    + subst w1'. cbn. rewrite <- app_assoc. reflexivity.
    + rewrite <- !app_assoc. reflexivity.
    + intros q e. apply not_elem_of_nil.
  - eexists None, [_]. repeat split.
    + subst w1'. cbn. rewrite <- app_assoc. reflexivity.
    + rewrite <- !app_assoc. reflexivity.
    + intros q e. rewrite not_elem_of_cons.
      split; [discriminate|apply not_elem_of_nil].
Qed.

Lemma ProcessRun_error_no_removal u p before acts err after q :
  ProcessRun u p before acts (Some err) after -> ARemove q None ∉ acts.
Proof.
  intros Hrun.
  inversion Hrun as [msg Hrel|rel Hrel Hlen|rel e Hst|rel info Hst Hsize
                    |rel info uacts e aft Hst Hsize Hup
                    |rel info uacts e aft Hst Hsize Hup
                    |rel info uacts aft Hst Hsize Hup];
    rewrite ?not_elem_of_cons, ?not_elem_of_app, ?not_elem_of_cons;
    repeat split; try discriminate; try apply not_elem_of_nil;
    eapply UploadRun_no_removal, Hup.
Qed.

(** C1. A local file is deleted only after the uploader has returned a
    finalized success for it, and an error of [processFile] at any stage
    leaves the local file system as the environment left it.

    For [processFile]: every removal recorded in a run is the removal of
    the processed path, stands right after a call of [Upload] for that
    path that returned [nil], and the calls before it end with the
    successful close of the remote writer; a run that returns an error
    records no successful removal and the daemon has not touched the
    local file system.  For the whole daemon ([Start], with any inputs of
    its event loop, any environment): every removal in the trace follows a
    finalized upload of the same path, and without a successful removal
    the local file system is untouched. *)
Theorem local_file_deleted_only_after_finalized_upload :
  (forall u filePath w,
     exists acts,
       trace (daemon.processFile u filePath w).2 = trace w ++ acts /\
       (forall pre q e post, acts = pre ++ ARemove q e :: post ->
          q = filePath /\
          finalized_before pre filePath /\
          exists podName w1,
            (uploader.Upload u filePath podName w1).1 = None /\
            trace w ++ pre
            = trace (uploader.Upload u filePath podName w1).2 ++
              [AInfof "Upload successful. Deleting local file: %s"
                 [Str filePath]]) /\
       (forall err, (daemon.processFile u filePath w).1 = Some err ->
          (forall q, ARemove q None ∉ acts) /\
          untouched w (daemon.processFile u filePath w).2)) /\
  (forall depth inputs w,
     exists acts,
       trace (daemon.Start depth inputs w).2 = trace w ++ acts /\
       removals_follow_uploads acts /\
       ((forall q, ARemove q None ∉ acts) ->
        untouched w (daemon.Start depth inputs w).2)).
Proof.
  split.
  - intros u p w.
    destruct (processFile_run u p w) as (acts & Ht & Hrun).
    exists acts. split; [exact Ht|]. split.
    + intros pre q e post Heq.
      destruct (processFile_upload_call u p w)
        as [(acts' & Ht' & Hno)|(rel & info & w1 & ro & tail & Hnil & Hw1 & Ht' & Htail)].
      { rewrite Ht in Ht'. apply app_inv_head in Ht'. subst acts'.
        destruct (Hno q e). rewrite Heq. apply elem_of_app. right.
        apply elem_of_cons. auto. }
      destruct (Upload_run u p (pod_of rel) w1) as (uacts & Hut & Hurun).
      rewrite Hnil in Hurun. rewrite Hut, Hw1, Ht in Ht'.
      rewrite <- !app_assoc in Ht'. apply app_inv_head in Ht'.
      cbn [app] in Ht'. rewrite Heq in Ht'. symmetry in Ht'.
      rewrite ProcessRun_shape in Ht'.
      apply removal_position in Ht' as (-> & -> & _);
        [|eapply ProcessRun_front, Hurun|apply Htail].
      split; [reflexivity|]. split; [eapply ProcessRun_finalized, Hurun|].
      exists (pod_of rel), w1. split; [exact Hnil|].
      rewrite Hut, Hw1. cbn. rewrite <- !app_assoc. reflexivity.
    + intros err Herr. rewrite Herr in Hrun. split.
      * intros q. eapply ProcessRun_error_no_removal, Hrun.
      * destruct (spared_processFile u p w) as (acts' & Ht' & Hsp).
        rewrite Ht in Ht'. apply app_inv_head in Ht'. subst acts'.
        apply Hsp. intros q. eapply ProcessRun_error_no_removal, Hrun.
  - intros depth inputs w.
    destruct (orderly_Start depth inputs w) as (acts & Ht & Hord).
    destruct (spared_Start depth inputs w) as (acts' & Ht' & Hsp).
    rewrite Ht in Ht'. apply app_inv_head in Ht'. subst acts'.
    exists acts. auto.
Qed.

(** ** The size re-check of the uploader *)

Lemma UploadRun_gated u p pod before acts r after :
  UploadRun u p pod before acts r after ->
  forall pre a post, acts = pre ++ a :: post -> is_remote_write a = true ->
    exists file i1 i2 mid,
      pre = recheck p file i1 i2 ++ mid /\
      f_name file = p /\ Size i2 = Size i1.
Proof.
  intros Hrun pre a post Heq Ha.
  destruct Hrun; unfold recheck, opening, uploaded_log in Heq;
    cbn [app] in Heq; peel pre;
    eexists _, _, _, _; (split; [reflexivity|]); auto.
Qed.

Lemma UploadRun_drift u p pod before acts r after :
  UploadRun u p pod before acts r after ->
  forall pre file j1 j2 post,
    acts = pre ++ AFileStat file (Ok j1) :: ASleep 2 ::
                  AFileStat file (Ok j2) :: post ->
    Size j2 <> Size j1 ->
    r = Some (Errorf "file is still being written (size changed)" []) /\
    after = before /\
    Forall (λ a, is_remote_write a = false) acts /\
    pre = [AOpen p (Ok file)] /\ post = [AFileClose file].
Proof.
  intros Hrun pre file j1 j2 post Heq Hdiff.
  destruct Hrun; unfold recheck, opening, uploaded_log in Heq;
    cbn [app] in Heq; peel pre; try congruence.
  repeat split; auto. unfold recheck. cbn [app].
  repeat constructor.
Qed.

(** C5. Before streaming any byte, [Upload] makes its own size re-check:
    every remote write of a run (creating the writer, copying, closing)
    comes after the calls open, stat, sleep 2 s, stat again on the same
    open file, with both sizes equal; and in a run whose two reads around
    the sleep differ, [Upload] returns the error [file is still being
    written (size changed)], no remote write is made at all, and the
    bucket and the local file system are as the environment left them. *)
Theorem Upload_rechecks_size_before_streaming u localPath podName w :
  exists acts,
    trace (uploader.Upload u localPath podName w).2 = trace w ++ acts /\
    (forall pre a post, acts = pre ++ a :: post -> is_remote_write a = true ->
       exists file i1 i2 mid,
         pre = [AOpen localPath (Ok file); AFileStat file (Ok i1); ASleep 2;
                AFileStat file (Ok i2)] ++ mid /\
         f_name file = localPath /\ Size i2 = Size i1) /\
    (forall pre file i1 i2 post,
       acts = pre ++ AFileStat file (Ok i1) :: ASleep 2 ::
                     AFileStat file (Ok i2) :: post ->
       Size i2 <> Size i1 ->
       (uploader.Upload u localPath podName w).1
       = Some (Errorf "file is still being written (size changed)" []) /\
       Forall (λ a, is_remote_write a = false) acts /\
       objects (uploader.Upload u localPath podName w).2 = objects w /\
       untouched w (uploader.Upload u localPath podName w).2).
Proof.
  destruct (Upload_run u localPath podName w) as (acts & Ht & Hrun).
  exists acts. split; [exact Ht|]. split.
  - intros pre a post Heq Ha.
    eapply UploadRun_gated in Hrun as (file & i1 & i2 & mid & H1 & H2 & H3);
      eauto. exists file, i1, i2, mid. auto.
  - intros pre file i1 i2 post Heq Hdiff.
    eapply UploadRun_drift in Hrun as (Hr & Hobj & Hno & _); eauto.
    repeat split; auto. apply untouched_Upload.
Qed.

(** ** Success of the uploader means a finalized remote write *)

Lemma UploadRun_success u p pod before acts after :
  UploadRun u p pod before acts None after ->
  exists file content,
    ends_with acts
      [ACopy (bucket_of u) (object_for p pod) (length content) None;
       AWriterClose (bucket_of u) (object_for p pod) None;
       uploaded_log u p pod (length content); AFileClose file] /\
    after = committed u p pod content before /\
    Forall (λ a, is_stream_error a = false) acts.
Proof.
  intros H. inversion H as [| | | | | |file i1 i2 content Hname]; subst.
  exists file, content. split; [apply ends_with_intro; reflexivity|].
  split; [reflexivity|]. unfold recheck, opening, uploaded_log. cbn [app].
  repeat constructor.
Qed.


(** ** Event-driven discovery *)

Lemma handleFileEvent_run u event w :
  discovers event = true ->
  exists w1 pacts r,
    trace w1 = trace w ++ [detected_log (fsnotify.Name event); ASleep 5] /\
    objects w1 = objects w /\
    daemon.processFile u (fsnotify.Name event) w1
    = (r, (daemon.processFile u (fsnotify.Name event) w1).2) /\
    ProcessRun u (fsnotify.Name event) (objects w) pacts r
      (objects (daemon.handleFileEvent u event w).2) /\
    trace (daemon.handleFileEvent u event w).2
    = trace w ++ detected_log (fsnotify.Name event) :: ASleep 5 :: pacts ++
        match r with
        | Some err => [failed_log (fsnotify.Name event) err]
        | None => []
        end.
Proof.
  unfold discovers. rewrite !andb_true_iff, negb_true_iff.
  intros [[Hsuffix Hremove] Hop].
  unfold daemon.handleFileEvent. rewrite Hsuffix, Hremove, Hop. cbn [negb].
  unfold logger.Infof, time.Sleep.
  unfold mbind, M_bind, mret, M_ret, env_step, emit.
  cbn -[daemon.processFile].
  match goal with
  | |- context [daemon.processFile ?u ?p ?w1] =>
      exists w1;
      destruct (processFile_run u p w1) as (pacts & Ht & Hrun);
      destruct (daemon.processFile u p w1) as [r w2]
  end.
  exists pacts, r. cbn in Ht, Hrun |- *.
  split; [rewrite <- app_assoc; reflexivity|].
  split; [reflexivity|]. split; [reflexivity|].
  destruct r as [err|]; cbn.
  - split; [exact Hrun|]. rewrite Ht, <- !app_assoc. reflexivity.
  - split; [exact Hrun|]. rewrite Ht, <- !app_assoc, app_nil_r. reflexivity.
Qed.

(** Calls of one kind ([sel]) that occur in a row inside
    [front ++ inner ++ back], where [front] and [back] have no call of
    that kind, occur inside [inner]. *)
Lemma embedded (sel : Action -> bool) front inner back pre xs post :
  Forall (λ a, sel a = false) front ->
  Forall (λ a, sel a = false) back ->
  Forall (λ a, sel a = true) xs -> xs <> [] ->
  front ++ inner ++ back = pre ++ xs ++ post ->
  exists pre' post',
    inner = pre' ++ xs ++ post' /\ pre = front ++ pre' /\
    post = post' ++ back.
Proof.
  intros Hfront Hback Hxs Hne. revert pre.
  induction Hfront as [|f front Hf Hfront IH]; intros pre Heq.
  - cbn in Heq. apply app_eq_inv in Heq as [(k & -> & Hk)|(k & -> & Hk)].
    + apply app_eq_inv in Hk as [(k2 & Hxk & Hback')|(k2 & -> & ->)].
      * destruct k2 as [|b k2].
        { rewrite app_nil_r in Hxk. subst k. cbn in Hback'. subst post.
          exists pre, []. rewrite app_nil_r. auto. }
        exfalso. subst xs back.
        apply Forall_app in Hxs as [_ Hxs]. apply Forall_cons in Hxs as [Hb _].
        apply Forall_cons in Hback as [Hb' _]. congruence.
      * exists pre, k2. auto.
    + exfalso. destruct xs as [|x xs]; [congruence|]. subst back.
      apply Forall_app in Hback as [_ Hback].
      apply Forall_cons in Hback as [Hx _].
      apply Forall_cons in Hxs as [Hx' _]. congruence.
  - destruct pre as [|p pre]; cbn in Heq.
    + exfalso. destruct xs as [|x xs]; [congruence|]. cbn in Heq.
      injection Heq as <- _. apply Forall_cons in Hxs as [Hx _]. congruence.
    + injection Heq as <- Heq.
      destruct (IH pre Heq) as (pre' & post' & -> & -> & ->).
      exists pre', post'. auto.
Qed.

Lemma UploadRun_no_removals u p pod before acts r after :
  UploadRun u p pod before acts r after ->
  Forall (λ a, forall q e, a <> ARemove q e) acts.
Proof.
  intros Hrun. apply Forall_forall. intros a Hin q e ->.
  revert Hin. eapply UploadRun_no_removal, Hrun.
Qed.

(** The run of [handleFileEvent] on a discovery: either no call of the
    uploader's re-check or remote write is made, or the calls are those of
    one run of [Upload] between the calls of the discovery and what
    follows the upload. *)
Lemma event_upload_part u event w :
  discovers event = true ->
  let name := fsnotify.Name event in
  let w' := (daemon.handleFileEvent u event w).2 in
  exists acts,
    trace w' = trace w ++ acts /\
    ((Forall (λ a, is_upload_call a = false) acts /\
      (forall q e, ARemove q e ∉ acts) /\ objects w' = objects w) \/
     (exists rel info uacts back ur,
        acts = [detected_log name; ASleep 5; AStat name (Ok info);
                uploading_log name rel info] ++ uacts ++ back /\
        UploadRun u name (pod_of rel) (objects w) uacts ur (objects w') /\
        Forall (λ a, is_upload_call a = false) back /\
        (forall e, ur = Some e ->
           back = [failed_log name (Errorf "upload failed: %w" [Val e])]))).
Proof.
  intros Hev name w'.
  destruct (handleFileEvent_run u event w Hev)
    as (w1 & pacts & r & _ & _ & _ & Hrun & Ht).
  fold name in Hrun, Ht. fold w' in Hrun, Ht.
  eexists. split; [exact Ht|].
  destruct Hrun as [msg Hrel|rel Hrel Hlen|rel err Hst|rel info Hst Hsize
                   |rel info uacts err after Hst Hsize Hup
                   |rel info uacts err after Hst Hsize Hup
                   |rel info uacts after Hst Hsize Hup].
  1-4: left; cbn [app]; split; [repeat constructor|];
       (split; [|reflexivity]); intros q e;
       rewrite ?not_elem_of_cons; repeat split; try discriminate;
       apply not_elem_of_nil.
  - right. exists rel, info, uacts, [failed_log name (Errorf "upload failed: %w" [Val err])], (Some err).
    split; [reflexivity|]. split; [exact Hup|].
    split; [repeat constructor|]. intros e [= <-]. reflexivity.
  - right. eexists rel, info, uacts, _, None.
    split; [cbn; rewrite <- app_assoc; reflexivity|]. split; [exact Hup|].
    split; [repeat constructor|]. discriminate.
  - right. eexists rel, info, uacts, _, None.
    split; [cbn; rewrite <- app_assoc; reflexivity|]. split; [exact Hup|].
    split; [repeat constructor|]. discriminate.
Qed.

Lemma discovery_front_plain name rel info :
  Forall (λ a, is_upload_call a = false)
    [detected_log name; ASleep 5; AStat name (Ok info);
     uploading_log name rel info].
Proof. repeat constructor. Qed.

Lemma spared_handleFileEvent u event :
  keeps spared (daemon.handleFileEvent u event).
Proof.
  apply keeps_handleFileEvent; try apply _;
    auto using spared_turned, spared_noted, spared_stored,
      spared_processFile.
Qed.

(** ** Paths below the root and what [processFile] does with them *)

Lemma structured_below_root elems :
  all_names elems -> 2 <= length elems ->
  exists rel,
    filepath.Rel rootProfileDir (below rootProfileDir elems) = inl rel /\
    strings.Split rel PathSeparator = elems.
Proof.
  intros Hall Hlen.
  assert (Hne : elems <> []) by (destruct elems; [cbn in Hlen; lia|discriminate]).
  exists (strings.Join elems PathSeparator).
  split; [apply Rel_below_root|apply Split_Join]; assumption.
Qed.

Lemma pod_of_Join elems :
  all_names elems -> elems <> [] ->
  pod_of (strings.Join elems PathSeparator) = hd "" elems.
Proof.
  intros Hall Hne. unfold pod_of. rewrite Split_Join by assumption.
  destruct elems; [congruence|reflexivity].
Qed.

(** C7. A candidate with fewer than two segments below the watched root
    (a file placed directly under the root, or the root itself) is a
    structural error: [processFile] returns [invalid file path structure]
    for it and the world is exactly as before, so nothing was read,
    uploaded or deleted and the file is still in place. *)
Theorem shallow_path_is_structural_error u elems w :
  all_names elems -> length elems < 2 ->
  daemon.processFile u (under_root elems) w
  = (Some (Errorf "invalid file path structure: %s" [Str (under_root elems)]),
     w).
Proof.
  intros Hall Hlen. unfold daemon.processFile.
  destruct elems as [|name [|? ?]]; [| |cbn in Hlen; lia].
  - reflexivity.
  - cbn [under_root]. rewrite Rel_below_root by (discriminate || exact Hall).
    rewrite Split_Join by (discriminate || exact Hall). reflexivity.
Qed.

(** C8. A zero-byte artifact file is skipped without error: when the stat
    of [processFile] finds an empty regular file at a path with at least
    two segments below the root, [processFile] returns [nil] after the
    stat and the skip log alone; there is no remote write and no removal,
    the bucket is unchanged, and the empty file is still there. *)
Theorem empty_file_is_skipped u elems w :
  all_names elems -> 2 <= length elems ->
  fault (next_turn w) = None ->
  node_at (fs (turned w)) (below rootProfileDir elems) = Some (File []) ->
  let filePath := below rootProfileDir elems in
  let w' := (daemon.processFile u filePath w).2 in
  (daemon.processFile u filePath w).1 = None /\
  trace w' = trace w ++
    [AStat filePath
       (Ok {| Name := List.last elems ""; Size := 0; IsDir := false |});
     AInfof "Skipping empty file: %s" [Str filePath]] /\
  objects w' = objects w /\
  fs w' = fs (turned w) /\
  node_at (fs w') filePath = Some (File []).
Proof.
  intros Hall Hlen Hfault Hnode filePath w'.
  destruct (structured_below_root elems Hall Hlen) as (rel & Hrel & Hsplit).
  assert (Hne : elems <> []) by (destruct elems; [cbn in Hlen; lia|discriminate]).
  subst w'. unfold daemon.processFile. fold filePath in Hrel. rewrite Hrel, Hsplit.
  destruct (length elems <? 2) eqn:Hlt; [apply Nat.ltb_lt in Hlt; lia|].
  unfold_calls. cbn -[filepath.Base].
  unfold os.stat_result. rewrite Hfault. cbn -[filepath.Base].
  fold filePath in Hnode.
  change (fs (turned w)) with (interfere (next_turn w) (fs w)) in Hnode.
  rewrite Hnode.
  unfold filePath. rewrite Base_below_root by assumption.
  cbn. rewrite <- app_assoc. auto.
Qed.

(** C6, as the code has it.  Processing a path whose file is already gone
    makes no upload and no delete attempt and changes neither the bucket
    nor the local file system; [processFile] itself returns the error
    [file not accessible] (wrapping the system's "no such file"), which
    its callers only log. *)
Theorem gone_file_is_reported_not_accessible u elems w :
  all_names elems -> 2 <= length elems ->
  fault (next_turn w) = None ->
  dirents (fs (turned w)) !! below rootProfileDir elems = None ->
  let filePath := below rootProfileDir elems in
  let w' := (daemon.processFile u filePath w).2 in
  (daemon.processFile u filePath w).1
  = Some (Errorf "file not accessible: %w" [Val os.ENOENT]) /\
  trace w' = trace w ++ [AStat filePath (Err os.ENOENT)] /\
  objects w' = objects w /\
  fs w' = fs (turned w).
Proof.
  intros Hall Hlen Hfault Hgone filePath w'.
  destruct (structured_below_root elems Hall Hlen) as (rel & Hrel & Hsplit).
  subst w'. unfold daemon.processFile. fold filePath in Hrel. rewrite Hrel, Hsplit.
  destruct (length elems <? 2) eqn:Hlt; [apply Nat.ltb_lt in Hlt; lia|].
  unfold_calls. cbn -[filepath.Base].
  unfold os.stat_result, node_at. rewrite Hfault. cbn -[filepath.Base].
  fold filePath in Hgone.
  change (fs (turned w)) with (interfere (next_turn w) (fs w)) in Hgone.
  rewrite Hgone. cbn. auto.
Qed.

(** ** The name and the attributes of the remote object *)

Lemma UploadRun_keys u p pod before acts r after :
  UploadRun u p pod before acts r after ->
  Forall (λ a, is_remote_write a = true ->
               remote_key a = Some (bucket_of u, object_for p pod)) acts.
Proof.
  destruct 1; unfold recheck, opening, uploaded_log; cbn [app];
    repeat constructor; cbn; congruence.
Qed.

Lemma UploadRun_objects u p pod before acts r after :
  UploadRun u p pod before acts r after ->
  after = before \/ exists content, after = committed u p pod content before.
Proof.
  destruct 1 as [| | | |file i1 i2 part err [cerr|] after ? ? ->| |]; eauto.
Qed.

Lemma plain_keys (acts : list Action) k :
  Forall (λ a, is_remote_write a = false) acts ->
  Forall (λ a, is_remote_write a = true -> remote_key a = Some k) acts.
Proof. intros Hl. eapply Forall_impl; [exact Hl|]. cbn. congruence. Qed.

Lemma UploadRun_closed u p pod before acts r after b o :
  UploadRun u p pod before acts r after ->
  AWriterClose b o None ∈ acts ->
  exists content, after = committed u p pod content before.
Proof.
  intros Hrun Hin.
  destruct Hrun as [| | | |file i1 i2 part err [cerr|] af ? ? ->| |];
    unfold recheck, opening, uploaded_log in Hin; cbn [app] in Hin;
    rewrite ?elem_of_cons in Hin; eauto;
    repeat (destruct Hin as [Hin|Hin]; [discriminate|]);
    apply elem_of_nil in Hin; destruct Hin.
Qed.

Lemma ProcessRun_keys u p rel before acts r after :
  filepath.Rel rootProfileDir p = inl rel ->
  ProcessRun u p before acts r after ->
  Forall (λ a, is_remote_write a = true ->
               remote_key a = Some (bucket_of u, object_for p (pod_of rel)))
         acts /\
  (after = before \/
   exists content, after = committed u p (pod_of rel) content before) /\
  (forall b o, AWriterClose b o None ∈ acts ->
     exists content, after = committed u p (pod_of rel) content before).
Proof.
  intros Hrel Hrun.
  destruct Hrun as [msg Hrel'|rel' Hrel' Hlen|rel' err Hst|rel' info Hst Hsize
                   |rel' info uacts err after [Hrel' Hlen] Hsize Hup
                   |rel' info uacts err after [Hrel' Hlen] Hsize Hup
                   |rel' info uacts after [Hrel' Hlen] Hsize Hup];
    try (assert (rel' = rel) as -> by congruence).
  1: congruence.
  1-3: split; [apply plain_keys; repeat constructor|split; [left; reflexivity|]].
  1-3: intros b o Hin; rewrite ?elem_of_cons in Hin;
       repeat (destruct Hin as [Hin|Hin]; [discriminate|]);
       apply elem_of_nil in Hin; destruct Hin.
  all: split; [|split; [eapply UploadRun_objects, Hup|]].
  1,3,5:
    match goal with
    | |- Forall _ (?a :: ?b :: ?l) => change (a :: b :: l) with ([a; b] ++ l)
    end;
    rewrite ?Forall_app; repeat split;
    try (eapply UploadRun_keys, Hup); apply plain_keys; repeat constructor.
  all: intros b o Hin;
       apply elem_of_cons in Hin as [Hin|Hin]; [discriminate|];
       apply elem_of_cons in Hin as [Hin|Hin]; [discriminate|];
       try (apply elem_of_app in Hin as [Hin|Hin]);
       try (eapply UploadRun_closed; [exact Hup|exact Hin]);
       repeat (apply elem_of_cons in Hin as [Hin|Hin]; [discriminate|]);
       apply elem_of_nil in Hin; destruct Hin.
Qed.

(** *** Runs in a quiet environment *)

(** With no interference and no fault, [Upload] of a regular file commits
    its bytes. *)
Lemma Upload_quiet u p pod i content w :
  script w = [] ->
  dirents (fs w) !! p = Some i ->
  inodes (fs w) !! i = Some (File content) ->
  (uploader.Upload u p pod w).1 = None /\
  objects (uploader.Upload u p pod w).2
  = <[(uploader.bucketName u, uploader.objectPath_of pod (filepath.Base p)) :=
        {| ContentType := "application/octet-stream"; data := content |}]>
      (objects w) /\
  fs (uploader.Upload u p pod w).2 = fs w /\
  script (uploader.Upload u p pod w).2 = [] /\
  watches (uploader.Upload u p pod w).2 = watches w.
Proof.
  intros Hscript Hd Hi.
  destruct w as [f objs ws en sc tr]. cbn in Hscript, Hd, Hi. subst sc.
  unfold uploader.Upload. unfold_calls.
  unfold os.open_result, os.filestat_result, io.copy_result, next_turn.
  cbn -[filepath.Base uploader.objectPath_of].
  rewrite Hd. cbn -[filepath.Base uploader.objectPath_of].
  do 2 (rewrite Hi; cbn -[filepath.Base uploader.objectPath_of]).
  rewrite Nat.eqb_refl. cbn -[filepath.Base uploader.objectPath_of].
  rewrite Hi. cbn -[filepath.Base uploader.objectPath_of].
  auto.
Qed.

(** With no interference and no fault, [processFile] on a non-empty
    regular file uploads it and removes it. *)
Lemma processFile_quiet u p rel i content w :
  script w = [] ->
  filepath.Rel rootProfileDir p = inl rel ->
  2 <= length (strings.Split rel PathSeparator) ->
  dirents (fs w) !! p = Some i ->
  inodes (fs w) !! i = Some (File content) ->
  content <> [] ->
  (daemon.processFile u p w).1 = None /\
  objects (daemon.processFile u p w).2
  = <[(uploader.bucketName u,
       uploader.objectPath_of (pod_of rel) (filepath.Base p)) :=
        {| ContentType := "application/octet-stream"; data := content |}]>
      (objects w) /\
  fs (daemon.processFile u p w).2
  = {| dirents := delete p (dirents (fs w)); inodes := inodes (fs w) |} /\
  script (daemon.processFile u p w).2 = [] /\
  watches (daemon.processFile u p w).2 = watches w.
Proof.
  intros Hscript Hrel Hlen Hd Hi Hne.
  destruct w as [f objs ws en sc tr]. cbn in Hscript, Hd, Hi. subst sc.
  unfold daemon.processFile. rewrite Hrel.
  destruct (length _ <? 2) eqn:Hlt; [apply Nat.ltb_lt in Hlt; lia|].
  unfold_calls. unfold os.stat_result, os.remove_result, node_at, next_turn.
  cbn -[uploader.Upload filepath.Base strings.Split]. rewrite Hd.
  cbn -[uploader.Upload filepath.Base strings.Split]. rewrite Hi.
  cbn -[uploader.Upload filepath.Base strings.Split].
  destruct content as [|b content]; [congruence|].
  cbn -[uploader.Upload filepath.Base strings.Split].
  match goal with
  | |- context [uploader.Upload ?u ?p ?pod ?w1] =>
      destruct (Upload_quiet u p pod i (b :: content) w1 eq_refl Hd Hi)
        as (Hr & Hobj & Hfs & Hsc & Hw);
      destruct (uploader.Upload u p pod w1) as [r [f2 objs2 ws2 en2 sc2 tr2]]
  end.
  cbn in Hr, Hobj, Hfs, Hsc, Hw. subst r f2 sc2 ws2 objs2.
  cbn -[filepath.Base strings.Split]. rewrite Hd.
  cbn -[filepath.Base strings.Split]. rewrite Hi.
  cbn -[filepath.Base strings.Split]. auto.
Qed.

(** ** Discovery and the settle sleep *)

(** What the settle sleep of a discovery lets through: the environment
    takes the turn of the sleep, and what is found at the name afterwards
    is processed. *)
Lemma discovery_after_settle_sleep u event t rel i content w :
  discovers event = true ->
  script w = [t] ->
  filepath.Rel rootProfileDir (fsnotify.Name event) = inl rel ->
  2 <= length (strings.Split rel PathSeparator) ->
  dirents (interfere t (fs w)) !! fsnotify.Name event = Some i ->
  inodes (interfere t (fs w)) !! i = Some (File content) ->
  content <> [] ->
  objects (daemon.handleFileEvent u event w).2
  = <[(uploader.bucketName u,
       uploader.objectPath_of (pod_of rel)
         (filepath.Base (fsnotify.Name event))) :=
        {| ContentType := "application/octet-stream"; data := content |}]>
      (objects w) /\
  fs (daemon.handleFileEvent u event w).2
  = {| dirents := delete (fsnotify.Name event)
                    (dirents (interfere t (fs w)));
       inodes := inodes (interfere t (fs w)) |}.
Proof.
  unfold discovers. rewrite !andb_true_iff, negb_true_iff.
  intros [[Hsuffix Hremove] Hop] Hscript Hrel Hlen Hd Hi Hne.
  destruct w as [f objs ws en sc tr]. cbn in Hscript, Hd, Hi. subst sc.
  unfold daemon.handleFileEvent. rewrite Hsuffix, Hremove, Hop. cbn [negb].
  unfold logger.Infof, time.Sleep.
  unfold mbind, M_bind, mret, M_ret, env_step, emit.
  cbn -[daemon.processFile filepath.Base uploader.objectPath_of].
  match goal with
  | |- context [daemon.processFile ?u ?p ?w1] =>
      destruct (processFile_quiet u p rel i content w1 eq_refl Hrel Hlen
                  Hd Hi Hne) as (Hr & Hobj & Hfs & _);
      destruct (daemon.processFile u p w1) as [r w2]
  end.
  cbn [fst snd] in Hr, Hobj, Hfs. subst r. cbn [snd].
  split; [exact Hobj|exact Hfs].
Qed.

(** C2, as the code has it.  A discovery compares sizes in the uploader
    only.
    In the run of [handleFileEvent] on a create or write notification for
    a [.jfr] name:
    - the run starts with the log line and the settle sleep of 5 s: no
      size is read before that sleep, so nothing is compared across it;
    - every remote write comes after a size read of the opened file, a
      sleep of 2 s and a second size read of the same file, with both
      sizes equal (the re-check of [Upload]);
    - when the two reads around the 2 s sleep differ, no remote write is
      made, nothing is removed, the bucket and the daemon's view of the
      local file system are untouched, and the attempt ends there with
      the failure [file is still being written (size changed)] logged;
    - whatever the producers do to the file during the settle sleep, if
      they then leave it alone, the non-empty file found after the sleep
      is uploaded as it is then and removed on this discovery. *)
Theorem discovery_compares_sizes_in_the_uploader_only u event w :
  discovers event = true ->
  exists acts,
    trace (daemon.handleFileEvent u event w).2 = trace w ++ acts /\
    (exists rest,
       acts = detected_log (fsnotify.Name event) :: ASleep 5 :: rest) /\
    (forall pre a post, acts = pre ++ a :: post -> is_remote_write a = true ->
       exists older file i1 i2 mid,
         pre = older ++ AFileStat file (Ok i1) :: ASleep 2 ::
                        AFileStat file (Ok i2) :: mid /\
         f_name file = fsnotify.Name event /\ Size i2 = Size i1) /\
    (forall pre file i1 i2 post,
       acts = pre ++ AFileStat file (Ok i1) :: ASleep 2 ::
                     AFileStat file (Ok i2) :: post ->
       Size i2 <> Size i1 ->
       Forall (λ a, is_remote_write a = false) acts /\
       (forall q e, ARemove q e ∉ acts) /\
       objects (daemon.handleFileEvent u event w).2 = objects w /\
       untouched w (daemon.handleFileEvent u event w).2 /\
       post = [AFileClose file;
               failed_log (fsnotify.Name event)
                 (Errorf "upload failed: %w"
                    [Val (Errorf "file is still being written (size changed)"
                            [])])]) /\
    (forall t rel i content,
       script w = [t] ->
       filepath.Rel rootProfileDir (fsnotify.Name event) = inl rel ->
       2 <= length (strings.Split rel PathSeparator) ->
       dirents (interfere t (fs w)) !! fsnotify.Name event = Some i ->
       inodes (interfere t (fs w)) !! i = Some (File content) ->
       content <> [] ->
       objects (daemon.handleFileEvent u event w).2
       = <[(uploader.bucketName u,
            uploader.objectPath_of (pod_of rel)
              (filepath.Base (fsnotify.Name event))) :=
             {| ContentType := "application/octet-stream";
                data := content |}]>
           (objects w) /\
       fs (daemon.handleFileEvent u event w).2
       = {| dirents := delete (fsnotify.Name event)
                         (dirents (interfere t (fs w)));
            inodes := inodes (interfere t (fs w)) |}).
Proof.
  intros Hev.
  destruct (event_upload_part u event w Hev) as (acts & Ht & Hparts).
  exists acts. split; [exact Ht|]. split.
  { destruct (handleFileEvent_run u event w Hev)
      as (w1 & pacts & r & _ & _ & _ & _ & Ht0).
    rewrite Ht in Ht0. apply app_inv_head in Ht0. eexists. exact Ht0. }
  split; [|split].
  - intros pre a post Heq Ha.
    destruct Hparts as [(Hnone & _)|(rel & info & uacts & back & ur & Hacts & Hup & Hback & _)].
    { exfalso. rewrite Forall_forall in Hnone.
      assert (Hin : a ∈ acts).
      { rewrite Heq. apply elem_of_app. right. apply elem_of_cons. auto. }
      specialize (Hnone a Hin). unfold is_upload_call in Hnone.
      rewrite Ha in Hnone. discriminate. }
    rewrite Heq in Hacts. symmetry in Hacts.
    assert (Hsel : Forall (λ a, is_upload_call a = true) [a]).
    { repeat constructor. unfold is_upload_call. rewrite Ha. reflexivity. }
    destruct (embedded is_upload_call _ _ _ _ [a] _
                (discovery_front_plain _ rel info) Hback Hsel
                ltac:(discriminate) Hacts)
      as (pre' & post' & Hu & -> & ->).
    destruct (UploadRun_gated _ _ _ _ _ _ _ Hup pre' a post' Hu Ha)
      as (file & i1 & i2 & mid & -> & Hn & Hs).
    exists [detected_log (fsnotify.Name event); ASleep 5;
            AStat (fsnotify.Name event) (Ok info);
            uploading_log (fsnotify.Name event) rel info;
            AOpen (fsnotify.Name event) (Ok file)], file, i1, i2, mid.
    split; [reflexivity|auto].
  - intros pre file i1 i2 post Heq Hdiff.
    destruct Hparts as [(Hnone & _)|(rel & info & uacts & back & ur & Hacts & Hup & Hback & Hfail)].
    { exfalso. rewrite Forall_forall in Hnone.
      assert (Hin : ASleep 2 ∈ acts).
      { rewrite Heq. apply elem_of_app. right. rewrite !elem_of_cons. auto. }
      specialize (Hnone _ Hin). discriminate. }
    assert (Hacts' := Hacts). rewrite Heq in Hacts'. symmetry in Hacts'.
    destruct (embedded is_upload_call _ _ _ _
                [AFileStat file (Ok i1); ASleep 2; AFileStat file (Ok i2)] _
                (discovery_front_plain _ rel info) Hback
                ltac:(repeat constructor) ltac:(discriminate) Hacts')
      as (pre' & post' & Hu & -> & ->).
    assert (Hno := UploadRun_no_removals _ _ _ _ _ _ _ Hup).
    destruct (UploadRun_drift _ _ _ _ _ _ _ Hup pre' file i1 i2 post' Hu Hdiff)
      as (-> & Hobj & Hremote & -> & ->).
    rewrite (Hfail _ eq_refl) in *.
    assert (Hnorem : forall q e, ARemove q e ∉ acts).
    { intros q e. rewrite Hacts. rewrite !not_elem_of_app. repeat split.
      - rewrite !not_elem_of_cons. repeat split; try discriminate.
        apply not_elem_of_nil.
      - intros Hin. rewrite Forall_forall in Hno. eapply Hno; eauto.
      - rewrite !not_elem_of_cons. repeat split; try discriminate.
        apply not_elem_of_nil. }
    repeat split.
    + rewrite Hacts. repeat (apply Forall_app; split); auto;
        repeat constructor.
    + exact Hnorem.
    + exact Hobj.
    + destruct (spared_handleFileEvent u event w) as (acts' & Ht' & Hsp).
      rewrite Ht in Ht'. apply app_inv_head in Ht'. subst acts'.
      apply Hsp. intros q. apply Hnorem.
  - intros t rel i content Hscript Hrel Hlen Hd Hi Hne.
    exact (discovery_after_settle_sleep u event t rel i content w
             Hev Hscript Hrel Hlen Hd Hi Hne).
Qed.

(** The object name [processFile] hands to the uploader for an entry below
    the root: its first element, a slash, its last element. *)
Lemma object_for_below_root elems :
  all_names elems -> 2 <= length elems ->
  object_for (below rootProfileDir elems)
    (pod_of (strings.Join elems PathSeparator))
  = hd "" elems +:+ "/" +:+ List.last elems "".
Proof.
  intros Hall Hlen.
  assert (Hne : elems <> []) by (destruct elems; [cbn in Hlen; lia|discriminate]).
  unfold object_for, uploader.objectPath_of.
  rewrite pod_of_Join, Base_below_root by assumption. reflexivity.
Qed.

Lemma processFile_names_object u elems w :
  all_names elems -> 2 <= length elems ->
  let filePath := below rootProfileDir elems in
  let key := (uploader.bucketName u,
              hd "" elems +:+ "/" +:+ List.last elems "") in
  exists acts,
    trace (daemon.processFile u filePath w).2 = trace w ++ acts /\
    (forall a, a ∈ acts -> is_remote_write a = true ->
       remote_key a = Some key) /\
    (objects (daemon.processFile u filePath w).2 = objects w \/
     exists content,
       objects (daemon.processFile u filePath w).2
       = <[key := {| ContentType := "application/octet-stream";
                     data := content |}]> (objects w)) /\
    (forall b o, AWriterClose b o None ∈ acts ->
       exists content,
         objects (daemon.processFile u filePath w).2
         = <[key := {| ContentType := "application/octet-stream";
                       data := content |}]> (objects w)).
Proof.
  intros Hall Hlen filePath key.
  assert (Hne : elems <> []) by (destruct elems; [cbn in Hlen; lia|discriminate]).
  destruct (processFile_run u filePath w) as (acts & Ht & Hrun).
  exists acts. split; [exact Ht|].
  eapply ProcessRun_keys in Hrun as (Hkeys & Hobj & Hclosed);
    [|apply Rel_below_root; assumption].
  unfold committed, bucket_of in *. subst filePath key.
  rewrite object_for_below_root in Hkeys, Hobj, Hclosed by assumption.
  rewrite Forall_forall in Hkeys. auto.
Qed.

(** C9. For a file [<root>/<sourceID>/.../<filename>], every remote write
    of [processFile] is about the object [{sourceID}/{filename}] of the
    uploader's bucket, where sourceID is the first segment below the root
    and filename the base name; what [processFile] leaves in the bucket is
    the bucket as it was or the bucket with that one name bound to a new
    object of content type [application/octet-stream], whatever the name
    held before (the earlier object is replaced, no second version is
    kept, and no other name changes); and in a quiet environment a
    non-empty regular file is uploaded with exactly its bytes. *)
Theorem remote_object_is_sourceID_slash_filename u elems w :
  all_names elems -> 2 <= length elems ->
  let filePath := below rootProfileDir elems in
  let key := (uploader.bucketName u,
              hd "" elems +:+ "/" +:+ List.last elems "") in
  (exists acts,
     trace (daemon.processFile u filePath w).2 = trace w ++ acts /\
     (forall a, a ∈ acts -> is_remote_write a = true ->
        remote_key a = Some key) /\
     (forall b o, AWriterClose b o None ∈ acts ->
        exists content,
          objects (daemon.processFile u filePath w).2
          = <[key := {| ContentType := "application/octet-stream";
                        data := content |}]> (objects w))) /\
  (objects (daemon.processFile u filePath w).2 = objects w \/
   exists content,
     objects (daemon.processFile u filePath w).2
     = <[key := {| ContentType := "application/octet-stream";
                   data := content |}]> (objects w)) /\
  (forall i content,
     script w = [] ->
     dirents (fs w) !! filePath = Some i ->
     inodes (fs w) !! i = Some (File content) ->
     content <> [] ->
     (daemon.processFile u filePath w).1 = None /\
     objects (daemon.processFile u filePath w).2 !! key
     = Some {| ContentType := "application/octet-stream"; data := content |} /\
     forall other, other <> key ->
       objects (daemon.processFile u filePath w).2 !! other
       = objects w !! other).
Proof.
  intros Hall Hlen filePath key.
  assert (Hne : elems <> []) by (destruct elems; [cbn in Hlen; lia|discriminate]).
  destruct (processFile_names_object u elems w Hall Hlen)
    as (acts & Ht & Hkeys & Hobj & Hclosed).
  split; [exists acts; auto|]. split; [exact Hobj|].
  intros i content Hscript Hd Hi Hcontent.
  destruct (processFile_quiet u filePath (strings.Join elems PathSeparator)
              i content w Hscript) as (Hr & Ho & _); try assumption.
  { apply Rel_below_root; assumption. }
  { rewrite Split_Join by assumption. exact Hlen. }
  fold (object_for filePath (pod_of (strings.Join elems PathSeparator))) in Ho.
  unfold filePath in Ho. rewrite object_for_below_root in Ho by assumption.
  fold filePath key in Ho. rewrite Ho. split; [exact Hr|]. split.
  - apply lookup_insert_eq.
  - intros other Hother. apply lookup_insert_ne. congruence.
Qed.

(** C10. A file three or more segments below the root is not a structural
    error: [processFile] never answers [invalid file path structure] for
    it; every remote write is about the object named by the first segment
    and the base name only, the directories in between being dropped; so
    in a quiet environment two non-empty files with the same first segment
    and the same base name, processed one after the other, are written to
    the same object, and the second replaces the first. *)
Theorem nested_file_keeps_first_segment_and_base_name u elems w :
  all_names elems -> 3 <= length elems ->
  let filePath := below rootProfileDir elems in
  let key := (uploader.bucketName u,
              hd "" elems +:+ "/" +:+ List.last elems "") in
  (daemon.processFile u filePath w).1
  <> Some (Errorf "invalid file path structure: %s" [Str filePath]) /\
  (exists acts,
     trace (daemon.processFile u filePath w).2 = trace w ++ acts /\
     forall a, a ∈ acts -> is_remote_write a = true ->
       remote_key a = Some key) /\
  (forall elems' i content i' content',
     all_names elems' -> 2 <= length elems' ->
     hd "" elems' = hd "" elems ->
     List.last elems' "" = List.last elems "" ->
     below rootProfileDir elems' <> filePath ->
     script w = [] ->
     dirents (fs w) !! filePath = Some i ->
     inodes (fs w) !! i = Some (File content) -> content <> [] ->
     dirents (fs w) !! below rootProfileDir elems' = Some i' ->
     inodes (fs w) !! i' = Some (File content') -> content' <> [] ->
     let w1 := (daemon.processFile u filePath w).2 in
     let w2 := (daemon.processFile u (below rootProfileDir elems') w1).2 in
     objects w1
     = <[key := {| ContentType := "application/octet-stream";
                   data := content |}]> (objects w) /\
     objects w2
     = <[key := {| ContentType := "application/octet-stream";
                   data := content' |}]> (objects w)).
Proof.
  intros Hall Hlen filePath key.
  assert (Hlen2 : 2 <= length elems) by lia.
  assert (Hne : elems <> []) by (destruct elems; [cbn in Hlen; lia|discriminate]).
  split; [|split].
  - destruct (processFile_run u filePath w) as (acts & _ & Hrun).
    intros Hbad. rewrite Hbad in Hrun.
    inversion Hrun as [|rel Hrel Hlt| | | | |].
    unfold filePath in Hrel. rewrite Rel_below_root in Hrel by assumption.
    injection Hrel as <-. rewrite Split_Join in Hlt by assumption. lia.
  - destruct (processFile_names_object u elems w Hall Hlen2)
      as (acts & Ht & Hkeys & _). exists acts. auto.
  - intros elems' i content i' content' Hall' Hlen' Hhd Hlast Hdiff
      Hscript Hd Hi Hc Hd' Hi' Hc' w1 w2.
    assert (Hne' : elems' <> [])
      by (destruct elems'; [cbn in Hlen'; lia|discriminate]).
    destruct (processFile_quiet u filePath (strings.Join elems PathSeparator)
                i content w Hscript) as (_ & Ho & Hfs & Hsc & _);
      try assumption.
    { apply Rel_below_root; assumption. }
    { rewrite Split_Join by assumption. exact Hlen2. }
    fold w1 in Ho, Hfs, Hsc.
    destruct (processFile_quiet u (below rootProfileDir elems')
                (strings.Join elems' PathSeparator) i' content' w1 Hsc)
      as (_ & Ho' & _); try assumption.
    { apply Rel_below_root; assumption. }
    { rewrite Split_Join by assumption. exact Hlen'. }
    { rewrite Hfs. cbn. rewrite lookup_delete_ne by congruence. exact Hd'. }
    { rewrite Hfs. exact Hi'. }
    fold w2 in Ho'.
    fold (object_for filePath (pod_of (strings.Join elems PathSeparator))) in Ho.
    fold (object_for (below rootProfileDir elems')
            (pod_of (strings.Join elems' PathSeparator))) in Ho'.
    unfold filePath in Ho. rewrite object_for_below_root in Ho by assumption.
    rewrite object_for_below_root in Ho' by assumption.
    rewrite Hhd, Hlast in Ho'. fold key in Ho, Ho'.
    split; [exact Ho|]. rewrite Ho', Ho. apply insert_insert_eq.
Qed.

(** ** Subscriptions *)

Section strings_more.

Lemma append_assoc (a b c : string) : (a +:+ b) +:+ c = a +:+ (b +:+ c).
Proof. induction a as [|x a IH]; [reflexivity|]. rewrite !app_String, IH. reflexivity. Qed.

Lemma prefix_append (a b : string) : String.prefix a (a +:+ b) = true.
Proof.
  induction a as [|x a IH]; [destruct b; reflexivity|].
  rewrite app_String. cbn. destruct (ascii_dec x x); [exact IH|congruence].
Qed.

Lemma substring_all (b : string) : substring 0 (String.length b) b = b.
Proof. induction b as [|x b IH]; [reflexivity|]. cbn. rewrite IH. reflexivity. Qed.

Lemma length_append (a b : string) :
  String.length (a +:+ b) = String.length a + String.length b.
Proof. induction a as [|x a IH]; [reflexivity|]. rewrite app_String. cbn. rewrite IH. reflexivity. Qed.

Lemma substring_append (a b : string) :
  substring (String.length a) (String.length (a +:+ b) - String.length a)
    (a +:+ b) = b.
Proof.
  rewrite length_append.
  replace (String.length a + String.length b - String.length a)
    with (String.length b) by lia.
  induction a as [|x a IH]; [apply substring_all|].
  rewrite app_String. cbn. exact IH.
Qed.

Lemma entry_name_below dir name :
  is_name name = true -> entry_name dir (below dir [name]) = Some name.
Proof.
  intros Hname. unfold entry_name, below. cbn [strings.Join].
  replace (dir +:+ String PathSeparator name)
    with ((dir +:+ String PathSeparator "") +:+ name)
    by (rewrite append_assoc; reflexivity).
  rewrite prefix_append, substring_append, Hname. reflexivity.
Qed.

Lemma elem_of_insert_sorted x n l :
  x ∈ insert_sorted n l <-> x = n \/ x ∈ l.
Proof.
  induction l as [|y l IH]; cbn.
  - rewrite list_elem_of_singleton, elem_of_nil. tauto.
  - destruct (String.leb n y); rewrite !elem_of_cons; [tauto|].
    rewrite IH. tauto.
Qed.

Lemma elem_of_sorted x l : x ∈ foldr insert_sorted [] l <-> x ∈ l.
Proof.
  induction l as [|y l IH]; cbn; [reflexivity|].
  rewrite elem_of_insert_sorted, elem_of_cons, IH. reflexivity.
Qed.

Lemma entry_listed f dir name i :
  is_name name = true -> dirents f !! below dir [name] = Some i ->
  name ∈ entries f dir.
Proof.
  intros Hname Hd. unfold entries. apply elem_of_sorted.
  apply list_elem_of_omap. exists (below dir [name]).
  split; [|apply entry_name_below, Hname].
  apply elem_of_elements. eapply elem_of_dom_2, Hd.
Qed.

Lemma reach_below path elems :
  elems <> [] -> reach path elems = below path elems.
Proof.
  revert path. induction elems as [|name rest IH]; intros path Hne; [congruence|].
  destruct rest as [|name' rest]; [reflexivity|].
  cbn [reach] in *. rewrite IH by discriminate.
  unfold below. cbn [strings.Join].
  rewrite append_assoc. reflexivity.
Qed.

End strings_more.

Ltac subset_chain :=
  repeat first [assumption | reflexivity | etrans; [eassumption|]].

Section quiet_walk.

Global Instance quietly_trans : Transitive quietly.
Proof.
  intros w1 w2 w3 (Hf12 & Hs12 & Hw12) (Hf23 & Hs23 & Hw23).
  split; [congruence|]. split; [assumption|]. etrans; eassumption.
Qed.

Lemma quietly_refl w : script w = [] -> quietly w w.
Proof. intros Hs. split; [reflexivity|]. split; [exact Hs|reflexivity]. Qed.

Lemma Stat_quiet path w :
  script w = [] ->
  (os.Stat path w).1
  = match node_at (fs w) path with
    | Some n => Ok (info_of (filepath.Base path) n)
    | None => Err os.ENOENT
    end /\
  quietly w (os.Stat path w).2.
Proof.
  intros Hs. destruct w as [f o ws en sc tr]. cbn in Hs. subst sc.
  unfold os.Stat. unfold_calls. unfold os.stat_result. cbn.
  split; [reflexivity|]. split; [reflexivity|]. split; reflexivity.
Qed.

Lemma readDirNames_quiet path w :
  script w = [] ->
  (readDirNames path w).1 = Ok (entries (fs w) path) /\
  quietly w (readDirNames path w).2.
Proof.
  intros Hs. destruct w as [f o ws en sc tr]. cbn in Hs. subst sc.
  unfold readDirNames. unfold_calls. unfold readdir_result. cbn.
  split; [reflexivity|]. split; [reflexivity|]. split; reflexivity.
Qed.

Lemma watchFn_quiet path info w :
  script w = [] ->
  (watchFn path (Some info) None w).1 = None ->
  quietly w (watchFn path (Some info) None w).2 /\
  (IsDir info = true -> path ∈ watches (watchFn path (Some info) None w).2).
Proof.
  intros Hs. destruct w as [f o ws en sc tr]. cbn in Hs. subst sc.
  unfold watchFn. destruct (IsDir info).
  - unfold fsnotify.Add. unfold_calls. unfold fsnotify.add_result. cbn.
    destruct (node_at f path); cbn; [|discriminate].
    intros _. split.
    + split; [reflexivity|]. split; [reflexivity|]. cbn.
      apply union_subseteq_r.
    + intros _. apply elem_of_union_l, elem_of_singleton. reflexivity.
  - cbn. intros _. split; [|discriminate].
    split; [reflexivity|]. split; reflexivity.
Qed.

Lemma bind_eq {A B} (m : M A) (k : A -> M B) w :
  (m ≫= k) w = k (m w).1 (m w).2.
Proof. unfold mbind, M_bind. destruct (m w). reflexivity. Qed.

Lemma walk_file depth path info fn :
  IsDir info = false -> walk depth path info fn = fn path (Some info) None.
Proof. intros H. destruct depth; cbn [walk]; rewrite H; reflexivity. Qed.

Lemma node_dirent f path n :
  node_at f path = Some n -> exists i, dirents f !! path = Some i.
Proof.
  unfold node_at. destruct (dirents f !! path) as [i|]; [eauto|discriminate].
Qed.

Section entries_loop.

Variables (depth : nat) (path : string).

Hypothesis IH :
  forall path info w,
    script w = [] ->
    (exists syssize,
       node_at (fs w) path = Some (Dir syssize) /\
       info = info_of (filepath.Base path) (Dir syssize)) ->
    (walk depth path info watchFn w).1 = None ->
    quietly w (walk depth path info watchFn w).2 /\
    forall elems, dirs_along (fs w) path elems ->
      reach path elems ∈ watches (walk depth path info watchFn w).2.

Let loop := each_entry (λ p i, walk depth p i watchFn) watchFn path.

Lemma each_entry_subscribes names :
  forall w,
    script w = [] ->
    (loop names w).1 = None ->
    quietly w (loop names w).2 /\
    forall name rest,
      name ∈ names ->
      (exists syssize,
         node_at (fs w) (below path [name]) = Some (Dir syssize)) ->
      dirs_along (fs w) (below path [name]) rest ->
      reach (below path [name]) rest ∈ watches (loop names w).2.
Proof.
  induction names as [|name0 rest0 IHnames]; intros w Hs.
  - intros _. split; [apply quietly_refl, Hs|].
    intros name rest Hin. apply elem_of_nil in Hin. destruct Hin.
  - unfold loop. cbn [each_entry]. fold loop. rewrite bind_eq.
    destruct (Stat_quiet (below path [name0]) w Hs) as (Hr & Hq1).
    rewrite Hr. set (w1 := (os.Stat (below path [name0]) w).2) in *.
    destruct Hq1 as (Hf1 & Hs1 & Hw1).
    destruct (node_at (fs w) (below path [name0])) as [[content|sz]|] eqn:Hnode.
    + (* a file *)
      rewrite bind_eq, walk_file by reflexivity.
      pose proof (watchFn_quiet (below path [name0])
                    (info_of (filepath.Base (below path [name0])) (File content))
                    w1 Hs1) as Hfn.
      destruct (watchFn _ _ None w1) as [[err|] w2]; cbn in Hfn |- *;
        [discriminate|].
      destruct (Hfn eq_refl) as ((Hf2 & Hs2 & Hw2) & _).
      intros Hloop. destruct (IHnames w2 Hs2 Hloop) as ((Hf3 & Hs3 & Hw3) & Hrest).
      split; [split; [congruence|split; [assumption|subset_chain]]|].
      intros name rest Hin (sz' & Hdir) Hchain.
      apply elem_of_cons in Hin as [->|Hin]; [congruence|].
      apply Hrest; [exact Hin|exists sz'|]; rewrite Hf2, Hf1; assumption.
    + (* a directory *)
      rewrite bind_eq.
      assert (Hdir1 : exists syssize,
                 node_at (fs w1) (below path [name0]) = Some (Dir syssize) /\
                 info_of (filepath.Base (below path [name0])) (Dir sz)
                 = info_of (filepath.Base (below path [name0])) (Dir syssize)).
      { exists sz. rewrite Hf1. auto. }
      pose proof (IH (below path [name0]) _ w1 Hs1 Hdir1) as Hsub.
      destruct (walk depth (below path [name0]) _ watchFn w1) as [[err|] w2];
        cbn in Hsub |- *; [discriminate|].
      destruct (Hsub eq_refl) as ((Hf2 & Hs2 & Hw2) & Hreach).
      intros Hloop. destruct (IHnames w2 Hs2 Hloop) as ((Hf3 & Hs3 & Hw3) & Hrest).
      split; [split; [congruence|split; [assumption|subset_chain]]|].
      intros name rest Hin (sz' & Hdir) Hchain.
      apply elem_of_cons in Hin as [->|Hin].
      * apply Hw3, Hreach. rewrite Hf1. exact Hchain.
      * apply Hrest; [exact Hin|exists sz'|]; rewrite Hf2, Hf1; assumption.
    + (* gone *)
      rewrite bind_eq. cbn. discriminate.
Qed.

End entries_loop.

Lemma walk_subscribes depth :
  forall path info w,
    script w = [] ->
    (exists syssize,
       node_at (fs w) path = Some (Dir syssize) /\
       info = info_of (filepath.Base path) (Dir syssize)) ->
    (walk depth path info watchFn w).1 = None ->
    quietly w (walk depth path info watchFn w).2 /\
    forall elems, dirs_along (fs w) path elems ->
      reach path elems ∈ watches (walk depth path info watchFn w).2.
Proof.
  induction depth as [|depth IH]; intros path info w Hs (sz & Hnode & ->);
    cbn [walk info_of IsDir negb]; rewrite bind_eq;
    destruct (readDirNames_quiet path w Hs) as (Hr & (Hf1 & Hs1 & Hw1));
    rewrite Hr; set (w1 := (readDirNames path w).2) in *;
    cbn [error_of]; rewrite bind_eq;
    pose proof (watchFn_quiet path (info_of (filepath.Base path) (Dir sz)) w1
                  Hs1) as Hfn; cbn [info_of] in Hfn;
    destruct (watchFn path _ None w1) as [[err|] w2]; cbn in Hfn |- *;
    try discriminate;
    destruct (Hfn eq_refl) as ((Hf2 & Hs2 & Hw2) & Hin).
  - destruct (entries (fs w) path) as [|n names] eqn:Hent; [|discriminate].
    intros _. split; [split; [congruence|split; [assumption|subset_chain]]|].
    intros [|name rest] Hchain; [apply Hin; reflexivity|].
    destruct Hchain as (Hname & (sz' & Hdir) & _).
    apply node_dirent in Hdir as (i & Hd).
    pose proof (entry_listed _ _ _ _ Hname Hd) as Hlisted.
    rewrite Hent in Hlisted. apply elem_of_nil in Hlisted. destruct Hlisted.
  - intros Hloop.
    destruct (each_entry_subscribes depth path IH _ w2 Hs2 Hloop)
      as ((Hf3 & Hs3 & Hw3) & Hrest).
    split; [split; [congruence|split; [assumption|subset_chain]]|].
    intros [|name rest] Hchain; [apply Hw3, Hin; reflexivity|].
    destruct Hchain as (Hname & (sz' & Hdir) & Hchain).
    destruct (node_dirent _ _ _ Hdir) as (i & Hd).
    cbn [reach]. apply Hrest.
    + eapply entry_listed; eassumption.
    + exists sz'. rewrite Hf2, Hf1. exact Hdir.
    + rewrite Hf2, Hf1. exact Hchain.
Qed.

(** The startup walk: in a quiet environment, when
    [watchDirectoryRecursive] succeeds on a root that is a directory,
    the root and every directory below it are subscribed. *)
Lemma startup_walk_subscribes depth root w :
  script w = [] ->
  (exists syssize, node_at (fs w) root = Some (Dir syssize)) ->
  (daemon.watchDirectoryRecursive depth root w).1 = None ->
  forall elems, dirs_along (fs w) root elems ->
    reach root elems ∈ watches (daemon.watchDirectoryRecursive depth root w).2.
Proof.
  intros Hs (sz & Hnode) Hok elems Hchain.
  change (daemon.watchDirectoryRecursive depth root)
    with (Walk depth root watchFn) in *.
  unfold Walk in *. rewrite bind_eq in Hok |- *.
  destruct (Stat_quiet root w Hs) as (Hr & (Hf1 & Hs1 & Hw1)).
  rewrite Hr, Hnode in Hok |- *.
  set (w1 := (os.Stat root w).2) in *.
  apply walk_subscribes; try assumption.
  - exists sz. rewrite Hf1. auto.
  - rewrite Hf1. exact Hchain.
Qed.

End quiet_walk.

Lemma reach_under_root elems :
  reach rootProfileDir elems = under_root elems.
Proof.
  destruct elems as [|name rest]; [reflexivity|].
  apply reach_below. discriminate.
Qed.

(** C3, as the code has it.  Subscriptions are added by the tree walk of
    [watchDirectoryRecursive], which [Start] runs once, before its event
    loop, and by nothing else.  No notification adds one:
    [handleFileEvent] leaves the subscription set as it was for every
    event, a create of a directory included, and so does the whole event
    loop, scan ticks included.  The startup walk does subscribe the tree
    it finds: in a quiet environment, when it succeeds on a root that is
    a directory, the root and every directory below it at that time are
    subscribed. *)
Theorem subscriptions_are_added_at_startup_only :
  (forall u event w,
     watches (daemon.handleFileEvent u event w).2 = watches w) /\
  (forall depth u inputs w,
     watches (daemon.eventLoop depth u inputs w).2 = watches w) /\
  (forall depth w elems,
     script w = [] ->
     (exists syssize,
        node_at (fs w) rootProfileDir = Some (Dir syssize)) ->
     (daemon.watchDirectoryRecursive depth rootProfileDir w).1 = None ->
     dirs_along (fs w) rootProfileDir elems ->
     under_root elems
     ∈ watches (daemon.watchDirectoryRecursive depth rootProfileDir w).2).
Proof.
  split; [|split].
  - intros u event w. apply same_watches_handleFileEvent.
  - intros depth u inputs w. apply same_watches_eventLoop.
  - intros depth w elems Hs Hroot Hok Hchain.
    rewrite <- reach_under_root.
    apply startup_walk_subscribes; assumption.
Qed.

(** ** Scenarios *)

(** *** Paths *)

Example Rel_of_artifact :
  filepath.Rel "/tmp/jfr" "/tmp/jfr/pod-7/run1.jfr" = inl "pod-7/run1.jfr".
Proof. vm_compute. reflexivity. Qed.

Example Rel_of_top_level_file :
  filepath.Rel "/tmp/jfr" "/tmp/jfr/run1.jfr" = inl "run1.jfr".
Proof. vm_compute. reflexivity. Qed.

Example Rel_of_root : filepath.Rel "/tmp/jfr" "/tmp/jfr" = inl ".".
Proof. vm_compute. reflexivity. Qed.

Example Rel_of_outside_path :
  filepath.Rel "/tmp/jfr" "/var//log/./a/../x.jfr" = inl "../../var/log/x.jfr".
Proof. vm_compute. reflexivity. Qed.

Example Rel_of_unrooted_path :
  exists msg, filepath.Rel "/tmp/jfr" "x.jfr" = inr msg.
Proof. vm_compute. eauto. Qed.

Example Base_of_artifact : filepath.Base "/tmp/jfr/pod-7/run1.jfr" = "run1.jfr".
Proof. vm_compute. reflexivity. Qed.

Example Base_of_slashes : filepath.Base "///" = "/".
Proof. vm_compute. reflexivity. Qed.

Example Base_drops_trailing_slashes : filepath.Base "a/b//" = "b".
Proof. vm_compute. reflexivity. Qed.

Example Split_keeps_empty_pieces :
  strings.Split "a//b" PathSeparator = ["a"; ""; "b"].
Proof. vm_compute. reflexivity. Qed.

Example HasSuffix_jfr :
  strings.HasSuffix "a.jfr" ".jfr" = true /\
  strings.HasSuffix "jfr" ".jfr" = false.
Proof. vm_compute. split; reflexivity. Qed.

(** *** The daemon on the demo tree *)

(** In a quiet environment [Start] subscribes both directories, uploads
    the file under [pod-7/run1.jfr] and removes it locally. *)
Example Start_uploads_and_removes :
  elements (watches (daemon.Start 3 [] (demo_world [])).2)
  = ["/tmp/jfr/pod-7"; "/tmp/jfr"] /\
  map_to_list (objects (daemon.Start 3 [] (demo_world [])).2)
  = [(("jfr-bucket", "pod-7/run1.jfr"),
      {| ContentType := "application/octet-stream";
         data := [x4a; x46; x52] |})] /\
  dirents (fs (daemon.Start 3 [] (demo_world [])).2) !! run1 = None.
Proof. vm_compute. auto. Qed.

(** A failing close of the remote writer leaves the local file in place. *)
Example failed_close_keeps_the_file :
  (daemon.processFile demo_uploader run1
     (demo_world [quiet; quiet; quiet; quiet; quiet; quiet;
                  fails "googleapi: Error 503"])).1
  = Some (Errorf "upload failed: %w"
            [Val (Errorf "failed to finalize upload: %w"
                    [Val (Errno "googleapi: Error 503")])]) /\
  dirents (fs (daemon.processFile demo_uploader run1
                 (demo_world [quiet; quiet; quiet; quiet; quiet; quiet;
                              fails "googleapi: Error 503"])).2) !! run1
  = Some 3.
Proof. vm_compute. auto. Qed.

(** *** Counterexamples and instances *)

Lemma after_pod9_watches :
  elements (watches after_pod9) = ["/tmp/jfr/pod-7"; "/tmp/jfr"].
Proof. vm_compute. reflexivity. Qed.

(** C3 fails as stated: the directory [/tmp/jfr/pod-9] is created after
    the startup walk, its create notification is handled and a scan tick
    passes, and the directory exists but is not subscribed, while the
    directories of the startup walk are. *)
Lemma created_directory_is_not_subscribed :
  node_at (fs after_pod9) "/tmp/jfr/pod-9" = Some (Dir 4096) /\
  elements (watches after_pod9) = ["/tmp/jfr/pod-7"; "/tmp/jfr"] /\
  "/tmp/jfr/pod-9" ∉ watches after_pod9.
Proof.
  split; [vm_compute; reflexivity|]. split; [exact after_pod9_watches|].
  generalize after_pod9_watches. generalize (watches after_pod9).
  intros X Hel Hin.
  apply elem_of_elements in Hin. rewrite Hel in Hin.
  rewrite !elem_of_cons in Hin.
  destruct Hin as [Hin|[Hin|Hin]]; try discriminate.
  apply elem_of_nil in Hin. exact Hin.
Qed.

(** C6 fails as stated: the file is uploaded and deleted by a first
    processing, which returns [nil]; processing the same path again finds
    it gone and returns an error. *)
Lemma second_processing_returns_an_error :
  (daemon.processFile demo_uploader run1 (demo_world [])).1 = None /\
  dirents (fs after_run1) !! run1 = None /\
  (daemon.processFile demo_uploader run1 after_run1).1
  = Some (Errorf "file not accessible: %w" [Val os.ENOENT]).
Proof. vm_compute. auto. Qed.

(** C2 fails as stated: the file holds three bytes when it is discovered
    and four after the settle sleep of 5 s, during which the producer has
    written.  No size was read before that sleep; the uploader's two reads
    around its own 2 s agree on the new size, and the file is uploaded with
    its four bytes and removed on this very discovery. *)
Lemma growth_during_the_settle_sleep_is_uploaded :
  discovers run1_created = true /\
  node_at (fs settling_world) run1 = Some (File [x4a; x46; x52]) /\
  trace (daemon.handleFileEvent demo_uploader run1_created settling_world).2
  = [detected_log run1;
     ASleep 5;
     AStat run1 (Ok {| Name := "run1.jfr"; Size := 4; IsDir := false |});
     AInfof "Uploading file: %s (pod: %s, size: %d bytes)"
       [Str run1; Str "pod-7"; Num 4];
     AOpen run1 (Ok {| f_name := run1; f_inode := 3 |});
     AFileStat {| f_name := run1; f_inode := 3 |}
       (Ok {| Name := "run1.jfr"; Size := 4; IsDir := false |});
     ASleep 2;
     AFileStat {| f_name := run1; f_inode := 3 |}
       (Ok {| Name := "run1.jfr"; Size := 4; IsDir := false |});
     ANewWriter "jfr-bucket" "pod-7/run1.jfr";
     AInfo [("local_path", Str run1);
            ("gcs_path", Str "gs://jfr-bucket/pod-7/run1.jfr");
            ("size_bytes", Num 4)]
       "Uploading file to GCS";
     ACopy "jfr-bucket" "pod-7/run1.jfr" 4 None;
     AWriterClose "jfr-bucket" "pod-7/run1.jfr" None;
     AInfo [("bytes_written", Num 4);
            ("gcs_path", Str "gs://jfr-bucket/pod-7/run1.jfr")]
       "Successfully uploaded file to GCS";
     AFileClose {| f_name := run1; f_inode := 3 |};
     AInfof "Upload successful. Deleting local file: %s" [Str run1];
     ARemove run1 None;
     AInfof "Successfully processed and deleted: %s" [Str run1]] /\
  objects (daemon.handleFileEvent demo_uploader run1_created
             settling_world).2
  !! ("jfr-bucket", "pod-7/run1.jfr")
  = Some {| ContentType := "application/octet-stream";
            data := [x4a; x46; x52; x21] |} /\
  dirents (fs (daemon.handleFileEvent demo_uploader run1_created
                 settling_world).2) !! run1 = None.
Proof. vm_compute. auto 6. Qed.

Lemma gone_file_witness :
  all_names ["pod-7"; "run1.jfr"] /\
  2 <= length ["pod-7"; "run1.jfr"] /\
  fault (next_turn after_run1) = None /\
  dirents (fs (turned after_run1)) !! run1 = None /\
  (daemon.processFile demo_uploader run1 after_run1).1
  = Some (Errorf "file not accessible: %w" [Val os.ENOENT]) /\
  objects (daemon.processFile demo_uploader run1 after_run1).2
  = objects after_run1.
Proof.
  assert (Hall : all_names ["pod-7"; "run1.jfr"]) by (repeat constructor).
  assert (Hlen : 2 <= length ["pod-7"; "run1.jfr"]) by (cbn; lia).
  assert (Hfault : fault (next_turn after_run1) = None)
    by (vm_compute; reflexivity).
  assert (Hgone : dirents (fs (turned after_run1))
                  !! below rootProfileDir ["pod-7"; "run1.jfr"] = None)
    by (vm_compute; reflexivity).
  destruct (gone_file_is_reported_not_accessible demo_uploader
              ["pod-7"; "run1.jfr"] after_run1 Hall Hlen Hfault Hgone)
    as (Hr & _ & Hobj & _).
  split; [exact Hall|]. split; [exact Hlen|]. split; [exact Hfault|].
  split; [exact Hgone|]. split; [exact Hr|exact Hobj].
Defined.

Lemma shallow_path_witness :
  all_names ["top.jfr"] /\ length ["top.jfr"] < 2 /\
  daemon.processFile demo_uploader "/tmp/jfr/top.jfr" (demo_world [])
  = (Some (Errorf "invalid file path structure: %s"
             [Str "/tmp/jfr/top.jfr"]),
     demo_world []).
Proof.
  assert (Hall : all_names ["top.jfr"]) by (repeat constructor).
  assert (Hlen : length ["top.jfr"] < 2) by (cbn; lia).
  split; [exact Hall|]. split; [exact Hlen|].
  exact (shallow_path_is_structural_error demo_uploader ["top.jfr"]
           (demo_world []) Hall Hlen).
Defined.

Lemma empty_file_witness :
  all_names ["pod-7"; "run1.jfr"] /\
  2 <= length ["pod-7"; "run1.jfr"] /\
  fault (next_turn empty_world) = None /\
  node_at (fs (turned empty_world)) run1 = Some (File []) /\
  (daemon.processFile demo_uploader run1 empty_world).1 = None /\
  objects (daemon.processFile demo_uploader run1 empty_world).2
  = objects empty_world /\
  node_at (fs (daemon.processFile demo_uploader run1 empty_world).2) run1
  = Some (File []).
Proof.
  assert (Hall : all_names ["pod-7"; "run1.jfr"]) by (repeat constructor).
  assert (Hlen : 2 <= length ["pod-7"; "run1.jfr"]) by (cbn; lia).
  assert (Hfault : fault (next_turn empty_world) = None)
    by (vm_compute; reflexivity).
  assert (Hnode : node_at (fs (turned empty_world))
                    (below rootProfileDir ["pod-7"; "run1.jfr"])
                  = Some (File [])) by (vm_compute; reflexivity).
  destruct (empty_file_is_skipped demo_uploader ["pod-7"; "run1.jfr"]
              empty_world Hall Hlen Hfault Hnode)
    as (Hr & _ & Hobj & _ & Hstill).
  split; [exact Hall|]. split; [exact Hlen|]. split; [exact Hfault|].
  split; [exact Hnode|]. split; [exact Hr|]. split; [exact Hobj|exact Hstill].
Defined.

Lemma growing_file_witness :
  discovers run1_created = true /\
  objects (daemon.handleFileEvent demo_uploader run1_created growing_world).2
  = objects growing_world /\
  (forall q e,
     ARemove q e
     ∉ trace (daemon.handleFileEvent demo_uploader run1_created
                growing_world).2).
Proof.
  assert (Hev : discovers run1_created = true) by (vm_compute; reflexivity).
  destruct (discovery_compares_sizes_in_the_uploader_only demo_uploader
              run1_created growing_world Hev)
    as (acts & Ht & _ & _ & Hdrift & _).
  assert (Hacts : acts
            = trace (daemon.handleFileEvent demo_uploader run1_created
                       growing_world).2) by (symmetry; exact Ht).
  subst acts.
  set (file := {| f_name := run1; f_inode := 3 |}).
  set (i1 := {| Name := "run1.jfr"; Size := 3; IsDir := false |}).
  set (i2 := {| Name := "run1.jfr"; Size := 4; IsDir := false |}).
  assert (Hsplit :
    trace (daemon.handleFileEvent demo_uploader run1_created growing_world).2
    = take 5 (trace (daemon.handleFileEvent demo_uploader run1_created
                       growing_world).2) ++
      AFileStat file (Ok i1) :: ASleep 2 :: AFileStat file (Ok i2) ::
      drop 8 (trace (daemon.handleFileEvent demo_uploader run1_created
                       growing_world).2)) by (vm_compute; reflexivity).
  assert (Hdiff : Size i2 <> Size i1) by (cbn; lia).
  destruct (Hdrift _ file i1 i2 _ Hsplit Hdiff) as (_ & Hno & Hobj & _).
  split; [exact Hev|]. split; [exact Hobj|exact Hno].
Defined.

Lemma overwritten_object_witness :
  all_names ["pod-7"; "run1.jfr"] /\
  2 <= length ["pod-7"; "run1.jfr"] /\
  objects stale_world !! ("jfr-bucket", "pod-7/run1.jfr")
  = Some {| ContentType := "text/plain"; data := [x00] |} /\
  objects (daemon.processFile demo_uploader run1 stale_world).2
  !! ("jfr-bucket", "pod-7/run1.jfr")
  = Some {| ContentType := "application/octet-stream";
            data := [x4a; x46; x52] |}.
Proof.
  assert (Hall : all_names ["pod-7"; "run1.jfr"]) by (repeat constructor).
  assert (Hlen : 2 <= length ["pod-7"; "run1.jfr"]) by (cbn; lia).
  destruct (remote_object_is_sourceID_slash_filename demo_uploader
              ["pod-7"; "run1.jfr"] stale_world Hall Hlen) as (_ & _ & Hquiet).
  assert (Hd : dirents (fs stale_world)
               !! below rootProfileDir ["pod-7"; "run1.jfr"] = Some 3)
    by (vm_compute; reflexivity).
  assert (Hi : inodes (fs stale_world) !! 3 = Some (File [x4a; x46; x52]))
    by (vm_compute; reflexivity).
  destruct (Hquiet 3 [x4a; x46; x52] eq_refl Hd Hi ltac:(discriminate))
    as (_ & Hobj & _).
  split; [exact Hall|]. split; [exact Hlen|].
  split; [vm_compute; reflexivity|exact Hobj].
Defined.

Lemma nested_files_witness :
  all_names ["pod-7"; "a"; "run1.jfr"] /\
  3 <= length ["pod-7"; "a"; "run1.jfr"] /\
  (daemon.processFile demo_uploader nested_a nested_world).1 = None /\
  objects (daemon.processFile demo_uploader nested_a nested_world).2
  = {[ ("jfr-bucket", "pod-7/run1.jfr") :=
         {| ContentType := "application/octet-stream"; data := [x01] |} ]} /\
  objects (daemon.processFile demo_uploader nested_b
             (daemon.processFile demo_uploader nested_a nested_world).2).2
  = <[ ("jfr-bucket", "pod-7/run1.jfr") :=
         {| ContentType := "application/octet-stream";
            data := [x02; x03] |} ]> (objects nested_world).
Proof.
  assert (Hall : all_names ["pod-7"; "a"; "run1.jfr"]) by (repeat constructor).
  assert (Hall' : all_names ["pod-7"; "b"; "run1.jfr"]) by (repeat constructor).
  assert (Hlen : 3 <= length ["pod-7"; "a"; "run1.jfr"]) by (cbn; lia).
  assert (Hlen' : 2 <= length ["pod-7"; "b"; "run1.jfr"]) by (cbn; lia).
  destruct (nested_file_keeps_first_segment_and_base_name demo_uploader
              ["pod-7"; "a"; "run1.jfr"] nested_world Hall Hlen)
    as (_ & _ & Hsame).
  assert (Hdiff : below rootProfileDir ["pod-7"; "b"; "run1.jfr"]
                  <> below rootProfileDir ["pod-7"; "a"; "run1.jfr"])
    by (vm_compute; discriminate).
  assert (Hd : dirents (fs nested_world)
               !! below rootProfileDir ["pod-7"; "a"; "run1.jfr"] = Some 5)
    by (vm_compute; reflexivity).
  assert (Hi : inodes (fs nested_world) !! 5 = Some (File [x01]))
    by (vm_compute; reflexivity).
  assert (Hd' : dirents (fs nested_world)
                !! below rootProfileDir ["pod-7"; "b"; "run1.jfr"] = Some 6)
    by (vm_compute; reflexivity).
  assert (Hi' : inodes (fs nested_world) !! 6 = Some (File [x02; x03]))
    by (vm_compute; reflexivity).
  destruct (Hsame ["pod-7"; "b"; "run1.jfr"] 5 [x01] 6 [x02; x03]
              Hall' Hlen' eq_refl eq_refl Hdiff eq_refl Hd Hi
              ltac:(discriminate) Hd' Hi' ltac:(discriminate))
    as (Hfirst & Hsecond).
  split; [exact Hall|]. split; [exact Hlen|].
  split; [vm_compute; reflexivity|].
  split; [exact Hfirst|exact Hsecond].
Defined.

(** The removal of run1.jfr in a quiet run stands after its finalized
    upload; a daemon whose storage client cannot be created removes
    nothing. *)
Lemma removal_after_upload_witness :
  finalized_before
    (take 13 (trace (daemon.processFile demo_uploader run1 (demo_world [])).2))
    run1 /\
  (daemon.Start 3 [] (demo_world [fails "dial tcp: i/o timeout"])).1
  = daemon.Fatal "Failed to initialize GCS uploader: %v"
      [Val (Errorf "failed to create GCS client: %w"
              [Val (Errno "dial tcp: i/o timeout")])] /\
  untouched (demo_world [fails "dial tcp: i/o timeout"])
    (daemon.Start 3 [] (demo_world [fails "dial tcp: i/o timeout"])).2.
Proof.
  destruct local_file_deleted_only_after_finalized_upload as (Hfile & Hsys).
  destruct (Hfile demo_uploader run1 (demo_world []))
    as (acts & Ht & Hrem & _).
  assert (Hacts : acts
            = trace (daemon.processFile demo_uploader run1 (demo_world [])).2)
    by (symmetry; exact Ht).
  subst acts.
  assert (Hsplit :
    trace (daemon.processFile demo_uploader run1 (demo_world [])).2
    = take 13 (trace (daemon.processFile demo_uploader run1
                        (demo_world [])).2) ++
      ARemove run1 None ::
      drop 14 (trace (daemon.processFile demo_uploader run1
                        (demo_world [])).2)) by (vm_compute; reflexivity).
  destruct (Hrem _ _ _ _ Hsplit) as (_ & Hfin & _).
  split; [exact Hfin|]. split; [vm_compute; reflexivity|].
  destruct (Hsys 3 [] (demo_world [fails "dial tcp: i/o timeout"]))
    as (acts & Ht' & _ & Hun).
  apply Hun. intros q Hin.
  assert (Hacts : acts = []) by (symmetry; exact Ht').
  rewrite Hacts in Hin. apply elem_of_nil in Hin. exact Hin.
Defined.


(** The file grows by one byte during the sleep: the upload is refused
    before any remote call. *)
Lemma size_drift_witness :
  (uploader.Upload demo_uploader run1 "pod-7" growing_upload).1
  = Some (Errorf "file is still being written (size changed)" []) /\
  Forall (λ a, is_remote_write a = false)
    (trace (uploader.Upload demo_uploader run1 "pod-7" growing_upload).2) /\
  objects (uploader.Upload demo_uploader run1 "pod-7" growing_upload).2
  = objects growing_upload.
Proof.
  destruct (Upload_rechecks_size_before_streaming demo_uploader run1 "pod-7"
              growing_upload) as (acts & Ht & _ & Hdrift).
  assert (Hacts : acts
            = trace (uploader.Upload demo_uploader run1 "pod-7"
                       growing_upload).2) by (symmetry; exact Ht).
  subst acts.
  set (file := {| f_name := run1; f_inode := 3 |}).
  set (i1 := {| Name := "run1.jfr"; Size := 3; IsDir := false |}).
  set (i2 := {| Name := "run1.jfr"; Size := 4; IsDir := false |}).
  assert (Hsplit :
    trace (uploader.Upload demo_uploader run1 "pod-7" growing_upload).2
    = [AOpen run1 (Ok file)] ++
      AFileStat file (Ok i1) :: ASleep 2 :: AFileStat file (Ok i2) ::
      [AFileClose file]) by (vm_compute; reflexivity).
  assert (Hdiff : Size i2 <> Size i1) by (cbn; lia).
  destruct (Hdrift _ file i1 i2 _ Hsplit Hdiff) as (Hr & Hno & Hobj & _).
  split; [exact Hr|]. split; [exact Hno|exact Hobj].
Defined.

(** The startup walk of the demo tree subscribes the directory of pod-7. *)
Lemma startup_walk_witness :
  script (demo_world []) = [] /\
  dirs_along (fs (demo_world [])) rootProfileDir ["pod-7"] /\
  "/tmp/jfr/pod-7"
  ∈ watches (daemon.watchDirectoryRecursive 3 rootProfileDir
               (demo_world [])).2.
Proof.
  destruct subscriptions_are_added_at_startup_only as (_ & _ & Hwalk).
  assert (Hchain : dirs_along (fs (demo_world [])) rootProfileDir ["pod-7"]).
  { split; [reflexivity|]. split; [|exact I].
    exists 4096. vm_compute. reflexivity. }
  assert (Hroot : exists syssize,
             node_at (fs (demo_world [])) rootProfileDir = Some (Dir syssize))
    by (exists 4096; vm_compute; reflexivity).
  assert (Hok : (daemon.watchDirectoryRecursive 3 rootProfileDir
                   (demo_world [])).1 = None) by (vm_compute; reflexivity).
  split; [reflexivity|]. split; [exact Hchain|].
  exact (Hwalk 3 (demo_world []) ["pod-7"] eq_refl Hroot Hok Hchain).
Defined.

(** * Further properties *)

(** ** The handle of the local file *)

(** X1.  Every run of [Upload] that opens the local file closes that very
    handle, once, as its last call (the deferred [file.Close]); a run whose
    [os.Open] fails makes no other call, reports the failure of the open and
    leaves the bucket alone. *)
Theorem Upload_closes_the_file_it_opened u localPath podName w :
  exists acts,
    trace (uploader.Upload u localPath podName w).2 = trace w ++ acts /\
    ((exists err,
        acts = [AOpen localPath (Err err)] /\
        (uploader.Upload u localPath podName w).1
        = Some (Errorf "failed to open file %s: %w"
                  [Str localPath; Val err]) /\
        objects (uploader.Upload u localPath podName w).2 = objects w) \/
     (exists file mid,
        acts = AOpen localPath (Ok file) :: mid ++ [AFileClose file] /\
        f_name file = localPath /\
        Forall (λ a, is_file_handle_call a = false) mid)).
Proof.
  destruct (Upload_run u localPath podName w) as (acts & Ht & Hrun).
  exists acts. split; [exact Ht|].
  destruct Hrun as [err|file err Hn|file i1 err Hn|file i1 i2 Hn Hd
                   |file i1 i2 part err cerr after Hn Hs Ha
                   |file i1 i2 n err Hn Hs|file i1 i2 content Hn Hs].
  - left. exists err. auto.
  - right. exists file, [AFileStat file (Err err)].
    split; [reflexivity|]. split; [exact Hn|]. repeat constructor.
  - right. exists file, [AFileStat file (Ok i1); ASleep 2;
                         AFileStat file (Err err)].
    split; [reflexivity|]. split; [exact Hn|]. repeat constructor.
  - right. exists file, [AFileStat file (Ok i1); ASleep 2;
                         AFileStat file (Ok i2)].
    split; [reflexivity|]. split; [exact Hn|]. repeat constructor.
  - right. exists file,
      ([AFileStat file (Ok i1); ASleep 2; AFileStat file (Ok i2)] ++
       opening u localPath podName i1 ++
       [ACopy (bucket_of u) (object_for localPath podName) (length part)
          (Some err);
        AWriterClose (bucket_of u) (object_for localPath podName) cerr]).
    split; [reflexivity|]. split; [exact Hn|]. repeat constructor.
  - right. exists file,
      ([AFileStat file (Ok i1); ASleep 2; AFileStat file (Ok i2)] ++
       opening u localPath podName i1 ++
       [ACopy (bucket_of u) (object_for localPath podName) n None;
        AWriterClose (bucket_of u) (object_for localPath podName)
          (Some err)]).
    split; [reflexivity|]. split; [exact Hn|]. repeat constructor.
  - right. exists file,
      ([AFileStat file (Ok i1); ASleep 2; AFileStat file (Ok i2)] ++
       opening u localPath podName i1 ++
       [ACopy (bucket_of u) (object_for localPath podName) (length content)
          None;
        AWriterClose (bucket_of u) (object_for localPath podName) None;
        uploaded_log u localPath podName (length content)]).
    split; [reflexivity|]. split; [exact Hn|]. repeat constructor.
Qed.

(** ** A copy that breaks *)

(** X2.  When [io.Copy] breaks after [n] bytes, [Upload] still closes the
    remote writer and drops the outcome of that close: it reports the
    failure of the copy, and when the close goes through the object holds
    the [n] bytes that were copied, in place of what the name held. *)
Theorem failed_copy_commits_the_copied_bytes u p pod i content n msg w :
  script w = [quiet; quiet; quiet; quiet; fails_after n msg] ->
  dirents (fs w) !! p = Some i ->
  inodes (fs w) !! i = Some (File content) ->
  (uploader.Upload u p pod w).1
  = Some (Errorf "failed to upload file: %w" [Val (Errno msg)]) /\
  objects (uploader.Upload u p pod w).2
  = <[(uploader.bucketName u, uploader.objectPath_of pod (filepath.Base p)) :=
        {| ContentType := "application/octet-stream";
           data := take n content |}]> (objects w) /\
  fs (uploader.Upload u p pod w).2 = fs w.
Proof.
  intros Hscript Hd Hi.
  destruct w as [f objs ws en sc tr]. cbn in Hscript, Hd, Hi. subst sc.
  unfold uploader.Upload. unfold_calls.
  unfold os.open_result, os.filestat_result, io.copy_result, next_turn.
  cbn -[filepath.Base uploader.objectPath_of].
  rewrite Hd. cbn -[filepath.Base uploader.objectPath_of].
  do 2 (rewrite Hi; cbn -[filepath.Base uploader.objectPath_of]).
  rewrite Nat.eqb_refl. cbn -[filepath.Base uploader.objectPath_of].
  rewrite Hi. cbn -[filepath.Base uploader.objectPath_of].
  auto.
Qed.

(** ** Paths that are not rooted *)

Section unrooted_paths.

Local Abbreviation sep := PathSeparator.

Lemma Split_pieces s : Forall (λ e, strings.Contains e sep = false)
                              (strings.Split s sep).
Proof.
  induction s as [|c s IH]; cbn [strings.Split]; [repeat constructor|].
  destruct (Ascii.eqb c sep) eqn:Hc.
  - constructor; [reflexivity|exact IH].
  - destruct (strings.Split s sep) as [|piece pieces].
    + repeat constructor. cbn. rewrite Hc. reflexivity.
    + inversion IH as [|? ? Hp Hps]; subst. constructor; [|exact Hps].
      cbn. rewrite Hc. exact Hp.
Qed.

Lemma clean_elem_kept r kept e :
  Forall kept_elem kept -> strings.Contains e sep = false ->
  Forall kept_elem (filepath.clean_elem r kept e).
Proof.
  intros Hk He. unfold filepath.clean_elem.
  destruct (String.eqb e "") eqn:H0; [exact Hk|].
  destruct (String.eqb e ".") eqn:H1; [exact Hk|].
  assert (Hke : kept_elem e).
  { split; [|exact He]. intros ->. discriminate. }
  destruct (String.eqb e "..") eqn:H2; [|constructor; assumption].
  destruct kept as [|top below].
  - destruct r; [constructor|]. constructor; [exact Hke|constructor].
  - destruct (String.eqb top "..").
    + constructor; assumption.
    + inversion Hk; assumption.
Qed.

Lemma clean_fold_kept r pieces kept :
  Forall kept_elem kept ->
  Forall (λ e, strings.Contains e sep = false) pieces ->
  Forall kept_elem (fold_left (filepath.clean_elem r) pieces kept).
Proof.
  revert kept. induction pieces as [|e pieces IH]; intros kept Hk Hp;
    cbn [fold_left]; [exact Hk|].
  inversion Hp; subst. apply IH; [|assumption].
  apply clean_elem_kept; assumption.
Qed.

Lemma clean_elems_kept path : Forall kept_elem (filepath.clean_elems path).
Proof.
  unfold filepath.clean_elems. apply Forall_rev.
  apply clean_fold_kept; [constructor|apply Split_pieces].
Qed.

Lemma rooted_Join e elems :
  kept_elem e -> filepath.rooted (strings.Join (e :: elems) sep) = false.
Proof.
  intros (Hne & Hplain). destruct e as [|c e]; [congruence|].
  assert (Hc : Ascii.eqb c sep = false).
  { cbn in Hplain. apply orb_false_iff in Hplain. tauto. }
  destruct elems; cbn; exact Hc.
Qed.

(** [Clean] keeps a path rooted or unrooted. *)
Lemma Clean_rooted path :
  filepath.rooted (filepath.Clean path) = filepath.rooted path.
Proof.
  unfold filepath.Clean. pose proof (clean_elems_kept path) as Hk.
  destruct (filepath.rooted path) eqn:Hr; [reflexivity|].
  destruct (filepath.clean_elems path) as [|e elems]; [reflexivity|].
  inversion Hk; subst. apply rooted_Join. assumption.
Qed.

Lemma rooted_differ a b :
  filepath.rooted a <> filepath.rooted b -> String.eqb a b = false.
Proof.
  intros Hd. apply String.eqb_neq. intros ->. congruence.
Qed.

(** A path that is not rooted cannot be related to the root. *)
Lemma Rel_unrooted path :
  filepath.rooted path = false ->
  filepath.Rel rootProfileDir path
  = inr ("Rel: can't make " +:+ path +:+ " relative to " +:+ rootProfileDir).
Proof.
  intros Hr. unfold filepath.Rel.
  change (filepath.Clean rootProfileDir) with rootProfileDir.
  pose proof (Clean_rooted path) as Hc. rewrite Hr in Hc.
  rewrite rooted_differ by (rewrite Hc; discriminate).
  change (String.eqb rootProfileDir ".") with false. cbn iota.
  rewrite Hc. reflexivity.
Qed.

(** Every rooted path can: the root has no [..] element. *)
Lemma Rel_rooted path :
  filepath.rooted path = true ->
  exists rel, filepath.Rel rootProfileDir path = inl rel.
Proof.
  intros Hr. unfold filepath.Rel.
  change (filepath.Clean rootProfileDir) with rootProfileDir.
  pose proof (Clean_rooted path) as Hc. rewrite Hr in Hc.
  destruct (String.eqb (filepath.Clean path) rootProfileDir); [eauto|].
  change (String.eqb rootProfileDir ".") with false. cbn iota.
  rewrite Hc.
  change (filepath.elements_of rootProfileDir) with ["tmp"; "jfr"].
  change (negb (Bool.eqb (filepath.rooted rootProfileDir) true)) with false.
  cbn iota.
  destruct (filepath.elements_of (filepath.Clean path)) as [|x [|y l]];
    cbn [filepath.drop_common];
    repeat match goal with
           | |- context [String.eqb ?a ?b] =>
               is_var b; destruct (String.eqb a b);
               cbn [filepath.drop_common]
           end; cbn; eauto.
Qed.

End unrooted_paths.

(** X4.  [processFile] gives up with [failed to get relative path] exactly
    on the paths that are not rooted, and then it has done nothing at all:
    no stat, no upload, no removal; a rooted path never meets that error. *)
Theorem unrooted_path_is_not_processed u filePath w :
  (filepath.rooted filePath = false ->
   daemon.processFile u filePath w
   = (Some (Errorf "failed to get relative path: %w"
              [Val (Errno ("Rel: can't make " +:+ filePath +:+
                           " relative to " +:+ rootProfileDir))]), w)) /\
  (filepath.rooted filePath = true ->
   forall e,
     (daemon.processFile u filePath w).1
     <> Some (Errorf "failed to get relative path: %w" [Val e])).
Proof.
  split.
  - intros Hr. unfold daemon.processFile. rewrite (Rel_unrooted _ Hr).
    reflexivity.
  - intros Hr e Hres. destruct (Rel_rooted _ Hr) as (rel & Hrel).
    destruct (processFile_run u filePath w) as (acts & _ & Hrun).
    rewrite Hres in Hrun. inversion Hrun; congruence.
Qed.

(** ** A removal that fails *)

Lemma trace_growth_unique (w w' : World) acts1 acts2 :
  trace w' = trace w ++ acts1 -> trace w' = trace w ++ acts2 -> acts1 = acts2.
Proof. intros H1 H2. rewrite H1 in H2. exact (app_inv_head _ _ _ H2). Qed.

(** A run of [processFile] that returns an error leaves the local file
    system to the environment. *)
Lemma processFile_error_untouched u filePath w err :
  (daemon.processFile u filePath w).1 = Some err ->
  untouched w (daemon.processFile u filePath w).2.
Proof.
  intros Hres.
  destruct (processFile_run u filePath w) as (acts & Ht & Hrun).
  destruct (spared_processFile u filePath w) as (acts' & Ht' & Hun).
  rewrite (trace_growth_unique _ _ _ _ Ht' Ht) in Hun.
  apply Hun. intros q. rewrite Hres in Hrun.
  eapply ProcessRun_error_no_removal, Hrun.
Qed.

(** X5.  When [os.Remove] fails after the upload, [processFile] returns
    [failed to delete local file]; the upload stays: the object is in the
    bucket under the name of the file, and the daemon has not changed the
    local file system, so that a later pass finds the file again and
    uploads it once more. *)
Theorem failed_removal_keeps_the_upload u filePath w err :
  (daemon.processFile u filePath w).1
  = Some (Errorf "failed to delete local file: %w" [Val err]) ->
  exists rel content,
    filepath.Rel rootProfileDir filePath = inl rel /\
    objects (daemon.processFile u filePath w).2
    = <[(uploader.bucketName u,
         uploader.objectPath_of (pod_of rel) (filepath.Base filePath)) :=
          {| ContentType := "application/octet-stream"; data := content |}]>
        (objects w) /\
    untouched w (daemon.processFile u filePath w).2 /\
    ends_with (trace (daemon.processFile u filePath w).2)
      [ARemove filePath (Some err)].
Proof.
  intros Hres.
  pose proof (processFile_error_untouched _ _ _ _ Hres) as Hun.
  destruct (processFile_run u filePath w) as (acts & Ht & Hrun).
  rewrite Hres in Hrun.
  inversion Hrun as [| | | | |rel info uacts err' after (Hrel & Hlen) Hsize Hup
                    Hacts Herr Hafter|]; subst.
  destruct (UploadRun_success _ _ _ _ _ _ Hup) as (file & content & _ & Hc & _).
  exists rel, content. split; [exact Hrel|]. split; [exact Hc|].
  split; [exact Hun|].
  rewrite Ht.
  exists (trace w ++ AStat filePath (Ok info) :: uploading_log filePath rel info
            :: uacts ++ [deleting_log filePath]).
  rewrite <- !app_assoc. cbn. rewrite <- !app_assoc. reflexivity.
Qed.

Lemma failed_removal_witness :
  (daemon.processFile demo_uploader run1 locked_world).1
  = Some (Errorf "failed to delete local file: %w"
            [Val (Errno "permission denied")]) /\
  exists content,
    objects (daemon.processFile demo_uploader run1 locked_world).2
    = <[("jfr-bucket", "pod-7/run1.jfr") :=
          {| ContentType := "application/octet-stream"; data := content |}]>
        (objects locked_world).
Proof.
  assert (Hres : (daemon.processFile demo_uploader run1 locked_world).1
                 = Some (Errorf "failed to delete local file: %w"
                           [Val (Errno "permission denied")]))
    by (vm_compute; reflexivity).
  split; [exact Hres|].
  destruct (failed_removal_keeps_the_upload demo_uploader run1 locked_world
              _ Hres) as (rel & content & Hrel & Hobj & _).
  assert (Hr : rel = "pod-7/run1.jfr").
  { assert (Hc : filepath.Rel rootProfileDir run1 = inl "pod-7/run1.jfr")
      by (vm_compute; reflexivity).
    rewrite Hc in Hrel. injection Hrel as <-. reflexivity. }
  subst rel. exists content. exact Hobj.
Defined.

(** ** Trying again *)

Lemma env_effect_idle turns f : Forall idle turns -> env_effect turns f = f.
Proof.
  unfold env_effect. revert f.
  induction turns as [|t turns IH]; intros f Hall; [reflexivity|].
  inversion Hall as [|? ? Ht Hts]; subst. cbn. rewrite Ht. apply IH, Hts.
Qed.

(** X6.  A failed attempt does not stand in the way of the next one.  When
    the environment makes calls fail but leaves the files alone, a run of
    [processFile] that returns an error leaves the local file system as it
    was; and once the faults are over, processing the same path again
    uploads the file's bytes and removes the file. *)
Theorem failed_attempt_can_be_retried u elems i content err w :
  all_names elems -> 2 <= length elems ->
  Forall idle (script w) ->
  dirents (fs w) !! below rootProfileDir elems = Some i ->
  inodes (fs w) !! i = Some (File content) ->
  content <> [] ->
  (daemon.processFile u (below rootProfileDir elems) w).1 = Some err ->
  let filePath := below rootProfileDir elems in
  let w1 := (daemon.processFile u filePath w).2 in
  fs w1 = fs w /\
  (script w1 = [] ->
   (daemon.processFile u filePath w1).1 = None /\
   objects (daemon.processFile u filePath w1).2
   !! (uploader.bucketName u, hd "" elems +:+ "/" +:+ List.last elems "")
   = Some {| ContentType := "application/octet-stream"; data := content |} /\
   dirents (fs (daemon.processFile u filePath w1).2) !! filePath = None).
Proof.
  intros Hall Hlen Hidle Hd Hi Hne Hres filePath w1.
  destruct (processFile_error_untouched _ _ _ _ Hres) as (turns & Hsc & Hfs).
  fold filePath w1 in Hsc, Hfs.
  assert (Hsame : fs w1 = fs w).
  { rewrite Hfs. apply env_effect_idle.
    rewrite Hsc in Hidle. apply Forall_app in Hidle. tauto. }
  split; [exact Hsame|]. intros Hquiet.
  destruct (structured_below_root elems Hall Hlen) as (rel & Hrel & Hparts).
  assert (Hne' : elems <> [])
    by (destruct elems; [cbn in Hlen; lia|discriminate]).
  pose proof (Rel_below_root elems Hne' Hall) as Hrel'.
  rewrite Hrel' in Hrel. injection Hrel as <-.
  destruct (processFile_quiet u filePath _ i content w1 Hquiet Hrel')
    as (Hr & Hobj & Hfs' & _).
  - rewrite Hparts. exact Hlen.
  - rewrite Hsame. exact Hd.
  - rewrite Hsame. exact Hi.
  - exact Hne.
  - split; [exact Hr|]. split.
    + rewrite Hobj.
      pose proof (object_for_below_root elems Hall Hlen) as Hkey.
      unfold object_for in Hkey. fold filePath in Hkey. rewrite Hkey.
      apply lookup_insert_eq.
    + rewrite Hfs'. cbn. apply lookup_delete_eq.
Qed.

(** ** The event loop *)

(** X11.  The event loop takes its inputs one at a time and in order:
    handling a list of inputs and then another is handling the two lists in
    a row, as long as no channel is closed; the first closed channel ends
    [Start], and nothing that comes after it is handled. *)
Theorem eventLoop_handles_inputs_in_order depth u xs :
  Forall (λ i, closes i = false) xs ->
  forall ys w,
    (daemon.eventLoop depth u xs w).1 = daemon.Selecting /\
    daemon.eventLoop depth u (xs ++ ys) w
    = daemon.eventLoop depth u ys (daemon.eventLoop depth u xs w).2 /\
    forall c, closes c = true ->
      daemon.eventLoop depth u (xs ++ c :: ys) w
      = (daemon.Returned, (daemon.eventLoop depth u xs w).2).
Proof.
  induction 1 as [|x xs Hx Hxs IH]; intros ys w.
  - split; [reflexivity|]. split; [reflexivity|].
    intros [| | | |] Hc; try discriminate; reflexivity.
  - destruct x as [event| |err| |]; try discriminate;
      cbn [app daemon.eventLoop]; rewrite !bind_eq;
      match goal with
      | |- context [daemon.eventLoop depth u xs ?w1] =>
          destruct (IH ys w1) as (H1 & H2 & H3)
      end;
      (split; [exact H1|]); (split; [exact H2|]);
      intros c Hc; rewrite ?bind_eq; apply H3, Hc.
Qed.

Lemma loop_order_witness :
  daemon.eventLoop 3 demo_uploader
    ([daemon.FromErrors (Errno "overflow"); daemon.Tick] ++
     daemon.EventsClosed :: [daemon.Tick]) (demo_world [])
  = (daemon.Returned,
     (daemon.eventLoop 3 demo_uploader
        [daemon.FromErrors (Errno "overflow"); daemon.Tick]
        (demo_world [])).2).
Proof.
  assert (Hopen : Forall (λ i, closes i = false)
                    [daemon.FromErrors (Errno "overflow"); daemon.Tick])
    by (repeat constructor).
  destruct (eventLoop_handles_inputs_in_order 3 demo_uploader _ Hopen
              [daemon.Tick] (demo_world [])) as (_ & _ & Hclosed).
  exact (Hclosed daemon.EventsClosed eq_refl).
Defined.

(** The event loop never ends in [Fatal]. *)
Lemma eventLoop_exit depth u inputs :
  forall w format args,
    (daemon.eventLoop depth u inputs w).1 <> daemon.Fatal format args.
Proof.
  induction inputs as [|[event| |err| |] inputs IH]; intros w format args;
    cbn [daemon.eventLoop]; rewrite ?bind_eq; try discriminate; apply IH.
Qed.

(** ** Dying at startup *)

Section startup.

Global Instance unprocessed_preorder : PreOrder unprocessed.
Proof.
  split.
  - intros w. split; [reflexivity|]. split; [reflexivity|].
    exists []. rewrite app_nil_r. split; [reflexivity|].
    intros q e Hin. apply elem_of_nil in Hin. exact Hin.
  - intros w1 w2 w3 (Ho1 & Hu1 & acts1 & Ht1 & Hr1)
                    (Ho2 & Hu2 & acts2 & Ht2 & Hr2).
    split; [congruence|]. split; [etrans; eassumption|].
    exists (acts1 ++ acts2). rewrite Ht2, Ht1, app_assoc.
    split; [reflexivity|].
    intros q e Hin. apply elem_of_app in Hin as [Hin|Hin];
      [exact (Hr1 _ _ Hin)|exact (Hr2 _ _ Hin)].
Qed.

Lemma unprocessed_turned w : unprocessed w (turned w).
Proof.
  split; [reflexivity|]. split; [apply untouched_turned|].
  exists []. rewrite app_nil_r. split; [reflexivity|].
  intros q e Hin. apply elem_of_nil in Hin. exact Hin.
Qed.

Lemma unprocessed_noted a w :
  (forall q e, a <> ARemove q e) -> unprocessed w (noted a w).
Proof.
  intros Ha. split; [reflexivity|].
  split; [apply untouched_same_fs; reflexivity|].
  exists [a]. split; [reflexivity|].
  intros q e Hin. apply list_elem_of_singleton in Hin. exact (Ha _ _ (eq_sym Hin)).
Qed.

Lemma unprocessed_subscribed path w : unprocessed w (subscribed path w).
Proof.
  split; [reflexivity|]. split; [apply untouched_same_fs; reflexivity|].
  exists []. rewrite app_nil_r. split; [reflexivity|].
  intros q e Hin. apply elem_of_nil in Hin. exact Hin.
Qed.

Lemma unprocessed_step {A} (m : M A) w0 w :
  keeps unprocessed m -> unprocessed w0 w -> unprocessed w0 (m w).2.
Proof. intros Hm Hw. etrans; [exact Hw|apply Hm]. Qed.

(** Whatever [Start] dies of, it dies before anything is processed. *)
Lemma Start_fatal depth inputs w format args :
  (daemon.Start depth inputs w).1 = daemon.Fatal format args ->
  unprocessed w (daemon.Start depth inputs w).2 /\ format ∈ fatal_formats.
Proof.
  unfold daemon.Start. rewrite bind_eq.
  change ((os.Getenv "GCS_BUCKET" w).2) with w.
  destruct (String.eqb _ ""); cbn [fst snd].
  { intros [= <- <-]. split; [reflexivity|]. unfold fatal_formats.
    apply elem_of_cons. left. reflexivity. }
  rewrite bind_eq.
  match goal with
  | |- context [uploader.NewGCSUploader ?b w] =>
      pose proof (unprocessed_step (uploader.NewGCSUploader b) w w
                    (keeps_NewGCSUploader _ unprocessed_turned b)
                    (reflexivity w)) as H1;
      set (w1 := (uploader.NewGCSUploader b w).2) in *;
      destruct (uploader.NewGCSUploader b w).1 as [gcsUploader|err]
  end.
  2:{ cbn. intros [= <- <-]. split; [exact H1|]. unfold fatal_formats.
      do 1 (apply elem_of_cons; right). apply elem_of_cons. left. reflexivity. }
  rewrite bind_eq.
  match goal with
  | |- context [logger.Infof ?f ?a w1] =>
      pose proof (unprocessed_step (logger.Infof f a) w w1
                    (keeps_Infof _ unprocessed_noted f a) H1) as H2;
      set (w2 := (logger.Infof f a w1).2) in *
  end.
  rewrite bind_eq.
  match goal with
  | |- context [logger.Infof ?f ?a w2] =>
      pose proof (unprocessed_step (logger.Infof f a) w w2
                    (keeps_Infof _ unprocessed_noted f a) H2) as H3;
      set (w3 := (logger.Infof f a w2).2) in *
  end.
  rewrite bind_eq.
  pose proof (unprocessed_step fsnotify.NewWatcher w w3
                (keeps_NewWatcher _ unprocessed_turned) H3) as H4.
  set (w4 := (fsnotify.NewWatcher w3).2) in *.
  destruct (fsnotify.NewWatcher w3).1 as [err|].
  { cbn. intros [= <- <-]. split; [exact H4|]. unfold fatal_formats.
    do 2 (apply elem_of_cons; right). apply elem_of_cons. left. reflexivity. }
  rewrite bind_eq.
  pose proof (unprocessed_step
                (daemon.watchDirectoryRecursive depth rootProfileDir) w w4
                (keeps_watchDirectoryRecursive _ unprocessed_turned
                   unprocessed_noted unprocessed_subscribed depth _) H4) as H5.
  set (w5 := (daemon.watchDirectoryRecursive depth rootProfileDir w4).2) in *.
  destruct (daemon.watchDirectoryRecursive depth rootProfileDir w4).1
    as [err|].
  { cbn. intros [= <- <-]. split; [exact H5|]. unfold fatal_formats.
    do 3 (apply elem_of_cons; right). apply elem_of_cons. left. reflexivity. }
  rewrite !bind_eq. intros Hloop. apply eventLoop_exit in Hloop. destruct Hloop.
Qed.

End startup.

(** X10.  Whatever [Start] dies of ([logger.Log.Fatal]: no bucket name, no
    storage client, no watcher, a startup walk that failed), it dies before
    any file is processed: the bucket is as it was, no removal was tried,
    and the local file system changed by the environment's doing only. *)
Theorem fatal_exit_touches_no_file depth inputs w format args :
  (daemon.Start depth inputs w).1 = daemon.Fatal format args ->
  format ∈ fatal_formats /\
  objects (daemon.Start depth inputs w).2 = objects w /\
  untouched w (daemon.Start depth inputs w).2 /\
  exists acts,
    trace (daemon.Start depth inputs w).2 = trace w ++ acts /\
    forall q e, ARemove q e ∉ acts.
Proof.
  intros Hfatal.
  destruct (Start_fatal _ _ _ _ _ Hfatal) as ((Ho & Hu & Hacts) & Hf).
  auto.
Qed.

(** X12.  What [Start] needs before it runs: without a bucket name in
    [GCS_BUCKET] it dies at once, having called nothing; and when the root
    directory does not exist it dies of the startup walk, without waiting
    for the directory to appear, whatever inputs would follow. *)
Theorem Start_needs_bucket_and_root depth inputs w :
  (default "" (environ w !! "GCS_BUCKET") = "" ->
   daemon.Start depth inputs w
   = (daemon.Fatal "GCS_BUCKET environment variable is required" [], w)) /\
  (default "" (environ w !! "GCS_BUCKET") <> "" ->
   script w = [] ->
   dirents (fs w) !! rootProfileDir = None ->
   (daemon.Start depth inputs w).1
   = daemon.Fatal "Failed to watch directory: %v" [Val os.ENOENT] /\
   watches (daemon.Start depth inputs w).2 = watches w /\
   fs (daemon.Start depth inputs w).2 = fs w).
Proof.
  split.
  - intros Hb. unfold daemon.Start. rewrite bind_eq.
    unfold os.Getenv. cbn [fst snd]. rewrite Hb. reflexivity.
  - intros Hb Hs Hroot. destruct w as [f o ws en sc tr].
    cbn in Hb, Hs, Hroot. subst sc.
    unfold daemon.Start. rewrite bind_eq. unfold os.Getenv.
    cbn [fst snd environ].
    apply String.eqb_neq in Hb. rewrite Hb.
    unfold uploader.NewGCSUploader, daemon.watchDirectoryRecursive, Walk.
    unfold_calls. unfold os.stat_result, node_at, next_turn.
    cbn. rewrite Hroot. cbn. auto.
Qed.

Lemma fatal_exit_witness :
  (daemon.Start 3 [daemon.Tick] rootless_world).1
  = daemon.Fatal "Failed to watch directory: %v" [Val os.ENOENT] /\
  objects (daemon.Start 3 [daemon.Tick] rootless_world).2
  = objects rootless_world.
Proof.
  assert (Hfatal : (daemon.Start 3 [daemon.Tick] rootless_world).1
                   = daemon.Fatal "Failed to watch directory: %v"
                       [Val os.ENOENT]) by (vm_compute; reflexivity).
  split; [exact Hfatal|].
  destruct (fatal_exit_touches_no_file _ _ _ _ _ Hfatal) as (_ & Ho & _).
  exact Ho.
Defined.

(** ** More on strings and paths *)

Section paths_more.

Local Abbreviation sep := PathSeparator.

Lemma Split_at_sep a b :
  strings.Split (a +:+ String sep b) sep
  = strings.Split a sep ++ strings.Split b sep.
Proof.
  induction a as [|c a IH]; [reflexivity|].
  rewrite app_String. cbn [strings.Split]. rewrite IH.
  destruct (Ascii.eqb c sep); [reflexivity|].
  pose proof (Split_nonempty a) as Hne.
  destruct (strings.Split a sep) as [|piece pieces]; [congruence|reflexivity].
Qed.

Lemma last_app_cons {A} (l : list A) x k d :
  List.last (l ++ x :: k) d = List.last (x :: k) d.
Proof.
  induction l as [|y l IH]; [reflexivity|].
  rewrite <- IH. cbn [app List.last].
  destruct (l ++ x :: k) eqn:E; [destruct l; discriminate|reflexivity].
Qed.

(** The last element of the path of an entry is the entry's name. *)
Lemma Base_below dir name :
  is_name name = true -> filepath.Base (below dir [name]) = name.
Proof.
  intros Hname. pose proof (is_name_plain _ Hname) as Hplain.
  pose proof (is_name_nonempty _ Hname) as Hne.
  unfold below, filepath.Base. cbn [strings.Join].
  destruct (String.eqb (dir +:+ String sep name) "") eqn:He.
  { apply String.eqb_eq in He. destruct dir; discriminate. }
  rewrite trim_trailing_app.
  2:{ change (String sep name) with (String sep "" +:+ name).
      rewrite trim_trailing_app;
        rewrite trim_trailing_plain by exact Hplain; [discriminate|exact Hne]. }
  change (String sep name) with (String sep "" +:+ name).
  rewrite trim_trailing_app
    by (rewrite trim_trailing_plain by exact Hplain; exact Hne).
  rewrite trim_trailing_plain by exact Hplain.
  change (String sep "" +:+ name) with (String sep name).
  rewrite Split_at_sep, (Split_plain name Hplain).
  rewrite last_app_cons. cbn [List.last].
  apply String.eqb_neq in Hne. rewrite Hne. reflexivity.
Qed.

Lemma substring_skip a b n m :
  substring (String.length a + n) m (a +:+ b) = substring n m b.
Proof. induction a as [|c a IH]; [reflexivity|]. cbn. exact IH. Qed.

(** A suffix of the last part is a suffix of the whole. *)
Lemma HasSuffix_append a b suffix :
  strings.HasSuffix b suffix = true -> strings.HasSuffix (a +:+ b) suffix = true.
Proof.
  unfold strings.HasSuffix. intros H.
  apply andb_true_iff in H as (Hlen & Heq). apply Nat.leb_le in Hlen.
  rewrite length_append. apply andb_true_iff. split; [apply Nat.leb_le; lia|].
  replace (String.length a + String.length b - String.length suffix)
    with (String.length a + (String.length b - String.length suffix)) by lia.
  rewrite substring_skip. exact Heq.
Qed.

Lemma plain_end_below dir name : is_name name = true -> plain_end (below dir [name]).
Proof.
  intros Hname. unfold plain_end. rewrite (Base_below _ _ Hname).
  intros Hs. unfold below. cbn [strings.Join].
  change (String sep name) with (String sep "" +:+ name).
  rewrite <- append_assoc. apply HasSuffix_append, Hs.
Qed.

Lemma plain_end_root : plain_end rootProfileDir.
Proof. unfold plain_end. vm_compute. discriminate. Qed.

(** The names a directory read returns are entry names. *)
Lemma entries_names f dir : Forall (λ n, is_name n = true) (entries f dir).
Proof.
  apply Forall_forall. intros n Hin. unfold entries in Hin.
  apply (proj1 (elem_of_sorted _ _)) in Hin.
  apply (proj1 (list_elem_of_omap _ _ _)) in Hin as (p & _ & Hp).
  unfold entry_name in Hp.
  destruct (String.prefix _ p); [|discriminate].
  destruct (is_name _) eqn:Hn; [|discriminate].
  injection Hp as <-. exact Hn.
Qed.

End paths_more.

(** ** The scan *)

Lemma scan_is_a_walk depth u rootDir :
  daemon.scanAndUploadExisting depth u rootDir
  = (logger.Infof "Scanning for existing .jfr files in %s" [Str rootDir];;
     Walk depth rootDir (scanFn u)).
Proof. reflexivity. Qed.

(** The callback of the scan returns nil whatever happens. *)
Lemma scanFn_nil u path info err : returns (λ r, r = None) (scanFn u path info err).
Proof.
  intros w. unfold scanFn.
  destruct err as [err|]; [rewrite bind_eq; reflexivity|].
  destruct info as [info|]; [|reflexivity].
  rewrite bind_eq. reflexivity.
Qed.

Section scan_result.

Variable u : uploader.GCSUploader.

Local Abbreviation harmless r := (r = None \/ r = Some too_deep).

Lemma each_entry_scan_result walkDir path names :
  (forall p i, returns (λ r, harmless r) (walkDir p i)) ->
  returns (λ r, harmless r) (each_entry walkDir (scanFn u) path names).
Proof.
  intros Hdir. induction names as [|name names IH]; intros w.
  - left. reflexivity.
  - cbn [each_entry]. rewrite bind_eq.
    set (w1 := (os.Stat (below path [name]) w).2).
    destruct (os.Stat (below path [name]) w).1 as [info|err];
      rewrite bind_eq.
    + destruct (Hdir (below path [name]) info w1) as [-> | ->];
        [apply IH|right; reflexivity].
    + rewrite (scanFn_nil u _ None (Some err) w1). apply IH.
Qed.

Lemma walk_scan_result depth :
  forall path info, returns (λ r, harmless r) (walk depth path info (scanFn u)).
Proof.
  induction depth as [|depth IH]; intros path info w; cbn [walk];
    (destruct (negb (IsDir info));
     [left; apply scanFn_nil|]);
    rewrite bind_eq;
    set (w1 := (readDirNames path w).2);
    destruct (readDirNames path w).1 as [names|err]; rewrite bind_eq;
    rewrite (scanFn_nil u path (Some info) _ w1);
    try (left; reflexivity).
  - destruct names; [left|right]; reflexivity.
  - apply each_entry_scan_result. exact IH.
Qed.

End scan_result.

(** X7.  A scan never fails: an entry that cannot be accessed, a directory
    that cannot be read and a file that cannot be processed are logged, and
    the callback answers nil, so that [filepath.Walk] has no error to
    return.  (The one error of the embedding, the bound on the depth of
    the recursion, has no counterpart in the Go code.) *)
Theorem scan_swallows_every_error depth u rootDir w :
  (daemon.scanAndUploadExisting depth u rootDir w).1 = None \/
  (daemon.scanAndUploadExisting depth u rootDir w).1 = Some too_deep.
Proof.
  rewrite scan_is_a_walk, bind_eq. unfold Walk. rewrite bind_eq.
  destruct (os.Stat rootDir _).1 as [info|err].
  - apply walk_scan_result.
  - left. apply scanFn_nil.
Qed.

(** ** What the daemon removes *)

Section removals.

Global Instance removes_recordings_only_preorder :
  PreOrder removes_recordings_only.
Proof.
  split.
  - intros w. exists []. rewrite app_nil_r. split; [reflexivity|].
    intros q e Hin. apply elem_of_nil in Hin. destruct Hin.
  - intros w1 w2 w3 (acts1 & Ht1 & H1) (acts2 & Ht2 & H2).
    exists (acts1 ++ acts2). rewrite Ht2, Ht1, app_assoc.
    split; [reflexivity|].
    intros q e Hin. apply elem_of_app in Hin as [Hin|Hin]; eauto.
Qed.

Local Abbreviation R := removes_recordings_only.

Lemma recordings_turned w : R w (turned w).
Proof.
  exists []. rewrite app_nil_r. split; [reflexivity|].
  intros q e Hin. apply elem_of_nil in Hin. destruct Hin.
Qed.

Lemma recordings_noted a w :
  (forall q e, a <> ARemove q e) -> R w (noted a w).
Proof.
  intros Ha. exists [a]. split; [reflexivity|].
  intros q e Hin. apply list_elem_of_singleton in Hin.
  destruct (Ha _ _ (eq_sym Hin)).
Qed.

Lemma recordings_stored key o w : R w (stored key o w).
Proof.
  exists []. rewrite app_nil_r. split; [reflexivity|].
  intros q e Hin. apply elem_of_nil in Hin. destruct Hin.
Qed.

Lemma recordings_subscribed path w : R w (subscribed path w).
Proof.
  exists []. rewrite app_nil_r. split; [reflexivity|].
  intros q e Hin. apply elem_of_nil in Hin. destruct Hin.
Qed.

(** [processFile] removes at most the path it was given. *)
Lemma ProcessRun_removes_own_path u p before acts r after q e :
  ProcessRun u p before acts r after -> ARemove q e ∈ acts -> q = p.
Proof.
  intros Hrun Hin.
  destruct Hrun as [msg Hrel|rel Hrel Hlen|rel err Hst|rel info Hst Hsz
                   |rel info uacts err after Hst Hsz Hup
                   |rel info uacts err after Hst Hsz Hup
                   |rel info uacts after Hst Hsz Hup];
    repeat (apply elem_of_cons in Hin as [Hin|Hin]; [discriminate|]);
    try (apply elem_of_nil in Hin; destruct Hin).
  - destruct (UploadRun_no_removal _ _ _ _ _ _ _ q e Hup Hin).
  - apply elem_of_app in Hin as [Hin|Hin];
      [destruct (UploadRun_no_removal _ _ _ _ _ _ _ q e Hup Hin)|].
    apply elem_of_cons in Hin as [Hin|Hin]; [discriminate|].
    apply list_elem_of_singleton in Hin. congruence.
  - apply elem_of_app in Hin as [Hin|Hin];
      [destruct (UploadRun_no_removal _ _ _ _ _ _ _ q e Hup Hin)|].
    apply elem_of_cons in Hin as [Hin|Hin]; [discriminate|].
    apply elem_of_cons in Hin as [Hin|Hin]; [congruence|].
    apply list_elem_of_singleton in Hin. discriminate.
Qed.

Lemma recordings_processFile u path :
  strings.HasSuffix path ".jfr" = true -> keeps R (daemon.processFile u path).
Proof.
  intros Hs w. destruct (processFile_run u path w) as (acts & Ht & Hrun).
  exists acts. split; [exact Ht|].
  intros q e Hin. rewrite (ProcessRun_removes_own_path _ _ _ _ _ _ _ _ Hrun Hin).
  exact Hs.
Qed.

Ltac recordings_call :=
  first [ apply keeps_ret | apply keeps_Infof | apply keeps_Sleep
        | apply keeps_Stat | apply keeps_readDirNames | apply keeps_Getenv
        | apply keeps_NewGCSUploader | apply keeps_NewWatcher
        | apply keeps_watchDirectoryRecursive ];
  try apply _;
  auto using recordings_turned, recordings_noted, recordings_subscribed.

Ltac recordings_bind := apply keeps_bind; try apply _.

Lemma recordings_handleFileEvent u event :
  keeps R (daemon.handleFileEvent u event).
Proof.
  unfold daemon.handleFileEvent.
  destruct (strings.HasSuffix (fsnotify.Name event) ".jfr") eqn:Hs;
    cbn [negb]; [|recordings_call].
  destruct (_ =? _)%N; [recordings_call|].
  destruct (_ || _); [|recordings_call].
  recordings_bind; [recordings_call|intros ?].
  recordings_bind; [recordings_call|intros ?].
  recordings_bind; [apply recordings_processFile, Hs|].
  intros [err|]; recordings_call.
Qed.

Lemma keeps_bind_returning {A B} (P : A -> Prop) (m : M A) (k : A -> M B) :
  keeps R m -> returns P m -> (forall a, P a -> keeps R (k a)) ->
  keeps R (m ≫= k).
Proof.
  intros Hm HP Hk w. rewrite bind_eq.
  etrans; [apply Hm|]. apply Hk, HP.
Qed.

Lemma Stat_names_the_path path :
  returns (λ r, forall info, r = Ok info -> Name info = filepath.Base path)
          (os.Stat path).
Proof.
  intros w info. unfold os.Stat. unfold_calls. cbn. unfold os.stat_result.
  destruct (fault _); [discriminate|].
  destruct (node_at _ _) as [[content|sz]|]; intros [= <-]; reflexivity.
Qed.

Lemma readDirNames_names path :
  returns (λ r, forall names, r = Ok names ->
                  Forall (λ n, is_name n = true) names)
          (readDirNames path).
Proof.
  intros w names. unfold readDirNames. unfold_calls. cbn.
  unfold readdir_result. destruct (fault _); [discriminate|].
  intros [= <-]. apply entries_names.
Qed.

Section scanning.

Variable u : uploader.GCSUploader.

Lemma recordings_scanFn path info err :
  (forall i, info = Some i -> Name i = filepath.Base path) ->
  plain_end path ->
  keeps R (scanFn u path info err).
Proof.
  intros Hname Hend. unfold scanFn.
  destruct err as [err|].
  { recordings_bind; [recordings_call|intros ?; recordings_call]. }
  destruct info as [info|]; [|recordings_call].
  recordings_bind; [|intros ?; recordings_call].
  destruct (negb (IsDir info)); cbn [andb]; [|recordings_call].
  destruct (strings.HasSuffix (Name info) ".jfr") eqn:Hs; [|recordings_call].
  rewrite (Hname info eq_refl) in Hs.
  recordings_bind; [recordings_call|intros ?].
  recordings_bind; [apply recordings_processFile, Hend, Hs|].
  intros [e|]; recordings_call.
Qed.

Lemma recordings_each_entry walkDir path names :
  (forall name info,
     is_name name = true ->
     Name info = filepath.Base (below path [name]) ->
     keeps R (walkDir (below path [name]) info)) ->
  Forall (λ n, is_name n = true) names ->
  keeps R (each_entry walkDir (scanFn u) path names).
Proof.
  intros Hdir. induction 1 as [|name names Hname Hnames IH];
    cbn [each_entry]; [recordings_call|].
  eapply keeps_bind_returning;
    [recordings_call|apply Stat_names_the_path|].
  intros r Hr.
  recordings_bind; [|intros [err|]; [recordings_call|exact IH]].
  destruct r as [info|err].
  - apply Hdir; [exact Hname|apply Hr; reflexivity].
  - apply recordings_scanFn; [discriminate|apply plain_end_below, Hname].
Qed.

Lemma recordings_walk depth :
  forall path info,
    Name info = filepath.Base path -> plain_end path ->
    keeps R (walk depth path info (scanFn u)).
Proof.
  induction depth as [|depth IH]; intros path info Hname Hend; cbn [walk];
    (destruct (negb (IsDir info));
     [apply recordings_scanFn; [intros i [= <-]; exact Hname|exact Hend]|]);
    (eapply keeps_bind_returning;
     [recordings_call|apply readDirNames_names|]);
    intros r Hr;
    (recordings_bind;
     [apply recordings_scanFn; [intros i [= <-]; exact Hname|exact Hend]|]);
    intros err1; destruct r as [names|e]; try recordings_call;
    destruct err1; try recordings_call.
  apply recordings_each_entry; [|apply Hr; reflexivity].
  intros name i Hn Hi. apply IH; [exact Hi|apply plain_end_below, Hn].
Qed.

Lemma recordings_scan depth :
  keeps R (daemon.scanAndUploadExisting depth u rootProfileDir).
Proof.
  rewrite scan_is_a_walk.
  recordings_bind; [recordings_call|intros ?].
  unfold Walk.
  eapply keeps_bind_returning;
    [recordings_call|apply Stat_names_the_path|].
  intros [info|err] Hr.
  - apply recordings_walk; [apply Hr; reflexivity|apply plain_end_root].
  - apply recordings_scanFn; [discriminate|apply plain_end_root].
Qed.

Lemma recordings_eventLoop depth inputs :
  keeps R (daemon.eventLoop depth u inputs).
Proof.
  induction inputs as [|[event| |err| |] inputs IH]; cbn [daemon.eventLoop];
    try recordings_call.
  - recordings_bind; [apply recordings_handleFileEvent|intros ?; exact IH].
  - recordings_bind; [recordings_call|intros ?; exact IH].
  - recordings_bind; [apply recordings_scan|intros err].
    recordings_bind; [destruct err; recordings_call|intros ?; exact IH].
Qed.

End scanning.

Lemma recordings_Start depth inputs : keeps R (daemon.Start depth inputs).
Proof.
  unfold daemon.Start.
  recordings_bind; [recordings_call|intros bucketName].
  destruct (String.eqb bucketName ""); [recordings_call|].
  recordings_bind; [recordings_call|intros [gcsUploader|err]];
    [|recordings_call].
  recordings_bind; [recordings_call|intros ?].
  recordings_bind; [recordings_call|intros ?].
  recordings_bind; [recordings_call|intros [err|]]; [recordings_call|].
  recordings_bind; [recordings_call|intros [err|]]; [recordings_call|].
  recordings_bind; [apply recordings_scan|intros err].
  recordings_bind; [destruct err; recordings_call|].
  intros ?; apply recordings_eventLoop.
Qed.

End removals.

(** X8.  The daemon removes nothing but recordings: whatever the inputs of
    the event loop, the faults and the doings of the environment, every
    path [Start] hands to [os.Remove], from an event or from a scan, ends
    in [.jfr]. *)
Theorem daemon_removes_recordings_only depth inputs w :
  exists acts,
    trace (daemon.Start depth inputs w).2 = trace w ++ acts /\
    forall q e, ARemove q e ∈ acts -> strings.HasSuffix q ".jfr" = true.
Proof. exact (recordings_Start depth inputs w). Qed.

(** ** A scan in a quiet environment *)

Section quiet_scan.

Variable u : uploader.GCSUploader.

Global Instance pruned_preorder : PreOrder (pruned u).
Proof.
  split.
  - intros w Hs. split; [exact Hs|]. split; [reflexivity|].
    split; [exists []; rewrite app_nil_r; reflexivity|].
    split; [auto|]. intros p. left. reflexivity.
  - intros w1 w2 w3 H12 H23 Hs1.
    destruct (H12 Hs1) as (Hs2 & Hi12 & (acts1 & Ht12) & Ho12 & Hd12).
    destruct (H23 Hs2) as (Hs3 & Hi23 & (acts2 & Ht23) & Ho23 & Hd23).
    split; [exact Hs3|]. split; [congruence|].
    split; [exists (acts1 ++ acts2); rewrite Ht23, Ht12, app_assoc;
            reflexivity|].
    split; [auto|]. intros p.
    destruct (Hd23 p) as [Hsame|(Hnone & Hin & Hobj & i & content & Hd & Hi)].
    + destruct (Hd12 p) as [Hsame'|(Hnone & Hin & Hobj & Hfile)].
      * left. congruence.
      * right. split; [congruence|].
        split; [rewrite Ht23; apply elem_of_app; left; exact Hin|].
        split; [apply Ho23, Hobj|exact Hfile].
    + right. split; [exact Hnone|]. split; [exact Hin|]. split; [exact Hobj|].
      exists i, content.
      destruct (Hd12 p) as [Hsame'|(Hnone' & _)]; [|congruence].
      split; [congruence|]. rewrite <- Hi12. exact Hi.
Qed.

(** A world that differs by what was recorded, stored or subscribed. *)
Lemma pruned_same_fs w w' :
  (script w = [] -> script w' = [] /\ fs w' = fs w) ->
  (exists acts, trace w' = trace w ++ acts) ->
  (forall k, is_Some (objects w !! k) -> is_Some (objects w' !! k)) ->
  pruned u w w'.
Proof.
  intros Hsame Ht Ho Hq. destruct (Hsame Hq) as (Hs & Hf).
  split; [exact Hs|]. split; [congruence|].
  split; [exact Ht|]. split; [exact Ho|]. intros p. left. congruence.
Qed.

Lemma pruned_turned w : pruned u w (turned w).
Proof.
  apply pruned_same_fs; [|exists []; rewrite app_nil_r; reflexivity|auto].
  intros Hs. destruct w as [f o ws en sc tr]. cbn in Hs. subst sc.
  split; reflexivity.
Qed.

Lemma pruned_noted a w : pruned u w (noted a w).
Proof.
  apply pruned_same_fs; [auto|exists [a]; reflexivity|auto].
Qed.

Lemma pruned_stored key o w : pruned u w (stored key o w).
Proof.
  apply pruned_same_fs; [auto|exists []; rewrite app_nil_r; reflexivity|].
  intros k Hk. cbn. destruct (decide (key = k)) as [->|Hne].
  - rewrite lookup_insert_eq. eauto.
  - rewrite lookup_insert_ne by exact Hne. exact Hk.
Qed.

Lemma pruned_subscribed path w : pruned u w (subscribed path w).
Proof.
  apply pruned_same_fs; [auto|exists []; rewrite app_nil_r; reflexivity|auto].
Qed.

(** *** [Upload] and [processFile] on a directory *)

(** A directory can be opened and stat'ed, but not read: the copy fails
    with nothing written, the writer is closed all the same, and an empty
    object is left under the name. *)
Lemma Upload_quiet_dir p pod i sz w :
  script w = [] ->
  dirents (fs w) !! p = Some i ->
  inodes (fs w) !! i = Some (Dir sz) ->
  (uploader.Upload u p pod w).1
  = Some (Errorf "failed to upload file: %w" [Val os.EISDIR]) /\
  objects (uploader.Upload u p pod w).2
  = <[(uploader.bucketName u, uploader.objectPath_of pod (filepath.Base p)) :=
        {| ContentType := "application/octet-stream"; data := [] |}]>
      (objects w) /\
  fs (uploader.Upload u p pod w).2 = fs w /\
  script (uploader.Upload u p pod w).2 = [] /\
  watches (uploader.Upload u p pod w).2 = watches w.
Proof.
  intros Hscript Hd Hi.
  destruct w as [f objs ws en sc tr]. cbn in Hscript, Hd, Hi. subst sc.
  unfold uploader.Upload. unfold_calls.
  unfold os.open_result, os.filestat_result, io.copy_result, next_turn.
  cbn -[filepath.Base uploader.objectPath_of].
  rewrite Hd. cbn -[filepath.Base uploader.objectPath_of].
  do 2 (rewrite Hi; cbn -[filepath.Base uploader.objectPath_of]).
  rewrite Nat.eqb_refl. cbn -[filepath.Base uploader.objectPath_of].
  rewrite Hi. cbn -[filepath.Base uploader.objectPath_of].
  auto.
Qed.

Lemma processFile_quiet_dir p rel i sz w :
  script w = [] ->
  filepath.Rel rootProfileDir p = inl rel ->
  2 <= length (strings.Split rel PathSeparator) ->
  dirents (fs w) !! p = Some i ->
  inodes (fs w) !! i = Some (Dir sz) ->
  sz <> 0 ->
  (daemon.processFile u p w).1
  = Some (Errorf "upload failed: %w"
            [Val (Errorf "failed to upload file: %w" [Val os.EISDIR])]) /\
  objects (daemon.processFile u p w).2
  = <[(uploader.bucketName u,
       uploader.objectPath_of (pod_of rel) (filepath.Base p)) :=
        {| ContentType := "application/octet-stream"; data := [] |}]>
      (objects w) /\
  fs (daemon.processFile u p w).2 = fs w /\
  script (daemon.processFile u p w).2 = [] /\
  watches (daemon.processFile u p w).2 = watches w.
Proof.
  intros Hscript Hrel Hlen Hd Hi Hne.
  destruct w as [f objs ws en sc tr]. cbn in Hscript, Hd, Hi. subst sc.
  unfold daemon.processFile. rewrite Hrel.
  destruct (length _ <? 2) eqn:Hlt; [apply Nat.ltb_lt in Hlt; lia|].
  unfold_calls. unfold os.stat_result, node_at, next_turn.
  cbn -[uploader.Upload filepath.Base strings.Split]. rewrite Hd.
  cbn -[uploader.Upload filepath.Base strings.Split]. rewrite Hi.
  cbn -[uploader.Upload filepath.Base strings.Split].
  destruct sz as [|sz]; [congruence|].
  cbn -[uploader.Upload filepath.Base strings.Split].
  match goal with
  | |- context [uploader.Upload ?u ?p ?pod ?w1] =>
      destruct (Upload_quiet_dir p pod i (S sz) w1 eq_refl Hd Hi)
        as (Hr & Hobj & Hfs & Hsc & Hw);
      destruct (uploader.Upload u p pod w1) as [r [f2 objs2 ws2 en2 sc2 tr2]]
  end.
  cbn in Hr, Hobj, Hfs, Hsc, Hw. subst r f2 sc2 ws2 objs2.
  cbn -[filepath.Base strings.Split]. auto.
Qed.

(** *** [processFile] in a quiet environment *)

(** The calls of a run that returns nil on a file that is not empty end
    with the removal. *)
Lemma processFile_quiet_removal p rel i content w :
  script w = [] ->
  filepath.Rel rootProfileDir p = inl rel ->
  2 <= length (strings.Split rel PathSeparator) ->
  dirents (fs w) !! p = Some i ->
  inodes (fs w) !! i = Some (File content) ->
  content <> [] ->
  ARemove p None ∈ trace (daemon.processFile u p w).2.
Proof.
  intros Hscript Hrel Hlen Hd Hi Hne.
  destruct w as [f objs ws en sc tr]. cbn in Hscript, Hd, Hi. subst sc.
  unfold daemon.processFile. rewrite Hrel.
  destruct (length _ <? 2) eqn:Hlt; [apply Nat.ltb_lt in Hlt; lia|].
  unfold_calls. unfold os.stat_result, os.remove_result, node_at, next_turn.
  cbn -[uploader.Upload filepath.Base strings.Split]. rewrite Hd.
  cbn -[uploader.Upload filepath.Base strings.Split]. rewrite Hi.
  cbn -[uploader.Upload filepath.Base strings.Split].
  destruct content as [|b content]; [congruence|].
  cbn -[uploader.Upload filepath.Base strings.Split].
  match goal with
  | |- context [uploader.Upload ?u ?p ?pod ?w1] =>
      destruct (Upload_quiet u p pod i (b :: content) w1 eq_refl Hd Hi)
        as (Hr & Hobj & Hfs & Hsc & Hw);
      destruct (uploader.Upload u p pod w1) as [r [f2 objs2 ws2 en2 sc2 tr2]]
  end.
  cbn in Hr, Hobj, Hfs, Hsc, Hw. subst r f2 sc2 ws2 objs2.
  cbn -[filepath.Base strings.Split]. rewrite Hd.
  cbn -[filepath.Base strings.Split]. rewrite Hi.
  cbn -[filepath.Base strings.Split].
  rewrite !elem_of_app, !elem_of_cons. auto.
Qed.

Lemma processFile_trace_grows p w :
  exists acts, trace (daemon.processFile u p w).2 = trace w ++ acts.
Proof. destruct (processFile_run u p w) as (acts & Ht & _). eauto. Qed.

Lemma processFile_objects_grow p w k :
  is_Some (objects w !! k) ->
  is_Some (objects (daemon.processFile u p w).2 !! k).
Proof.
  intros Hk. destruct (processFile_run u p w) as (acts & _ & Hrun).
  destruct (filepath.Rel rootProfileDir p) as [rel|msg] eqn:Hrel.
  - destruct (ProcessRun_keys _ _ _ _ _ _ _ Hrel Hrun)
      as (_ & [-> | (content & ->)] & _); [exact Hk|].
    unfold committed. destruct (decide ((bucket_of u, object_for p (pod_of rel)) = k))
      as [->|Hne].
    + rewrite lookup_insert_eq. eauto.
    + rewrite lookup_insert_ne by exact Hne. exact Hk.
  - inversion Hrun; subst; try congruence;
      match goal with H : structured _ _ |- _ => destruct H; congruence end.
Qed.

(** A run that returns an error in a quiet world leaves the files. *)
Lemma processFile_quiet_error p w err :
  script w = [] ->
  (daemon.processFile u p w).1 = Some err ->
  script (daemon.processFile u p w).2 = [] /\
  fs (daemon.processFile u p w).2 = fs w.
Proof.
  intros Hs Hres.
  destruct (processFile_error_untouched _ _ _ _ Hres) as (turns & Hsc & Hfs).
  rewrite Hs in Hsc. symmetry in Hsc. apply app_eq_nil in Hsc as (-> & Hsc).
  split; [exact Hsc|exact Hfs].
Qed.

Lemma processFile_pruned p : keeps (pruned u) (daemon.processFile u p).
Proof.
  intros w.
  destruct (filepath.Rel rootProfileDir p) as [rel|msg] eqn:Hrel.
  2:{ unfold daemon.processFile. rewrite Hrel. reflexivity. }
  destruct (length (strings.Split rel PathSeparator) <? 2) eqn:Hlen.
  { unfold daemon.processFile. rewrite Hrel, Hlen. reflexivity. }
  apply Nat.ltb_ge in Hlen.
  destruct (dirents (fs w) !! p) as [i|] eqn:Hd.
  2:{ apply pruned_same_fs;
        [|apply processFile_trace_grows|apply processFile_objects_grow].
      intros Hs. apply (processFile_quiet_error p w (Errorf "file not accessible: %w" [Val os.ENOENT])); [exact Hs|].
      destruct w as [f objs ws en sc tr]. cbn in Hs, Hd. subst sc.
      unfold daemon.processFile. rewrite Hrel.
      destruct (length _ <? 2) eqn:Hlt; [apply Nat.ltb_lt in Hlt; lia|].
      unfold_calls. unfold os.stat_result, node_at, next_turn.
      cbn -[uploader.Upload filepath.Base strings.Split]. rewrite Hd.
      reflexivity. }
  destruct (inodes (fs w) !! i) as [[content|sz]|] eqn:Hi.
  - (* a regular file *)
    destruct content as [|b content].
    + apply pruned_same_fs;
        [|apply processFile_trace_grows|apply processFile_objects_grow].
      intros Hs. destruct w as [f objs ws en sc tr]. cbn in Hs, Hd, Hi.
      subst sc. unfold daemon.processFile. rewrite Hrel.
      destruct (length _ <? 2) eqn:Hlt; [apply Nat.ltb_lt in Hlt; lia|].
      unfold_calls. unfold os.stat_result, node_at, next_turn.
      cbn -[uploader.Upload filepath.Base strings.Split]. rewrite Hd.
      cbn -[uploader.Upload filepath.Base strings.Split]. rewrite Hi.
      cbn. auto.
    + intros Hs.
      destruct (processFile_quiet u p rel i (b :: content) w Hs Hrel Hlen Hd Hi)
        as (_ & Hobj & Hfs & Hsc & _); [discriminate|].
      pose proof (processFile_quiet_removal p rel i (b :: content) w Hs Hrel
                    Hlen Hd Hi ltac:(discriminate)) as Hrem.
      split; [exact Hsc|]. split; [rewrite Hfs; reflexivity|].
      split; [apply processFile_trace_grows|].
      split; [intros k; apply processFile_objects_grow|].
      intros q. rewrite Hfs. cbn [dirents].
      destruct (decide (p = q)) as [<-|Hne].
      * right. split; [apply lookup_delete_eq|]. split; [exact Hrem|].
        split; [|eauto].
        unfold key_of. rewrite Hrel, Hobj, lookup_insert_eq. eauto.
      * left. apply lookup_delete_ne, Hne.
  - (* a directory *)
    apply pruned_same_fs;
      [|apply processFile_trace_grows|apply processFile_objects_grow].
    intros Hs. destruct sz as [|sz].
    + destruct w as [f objs ws en sc tr]. cbn in Hs, Hd, Hi.
      subst sc. unfold daemon.processFile. rewrite Hrel.
      destruct (length _ <? 2) eqn:Hlt; [apply Nat.ltb_lt in Hlt; lia|].
      unfold_calls. unfold os.stat_result, node_at, next_turn.
      cbn -[uploader.Upload filepath.Base strings.Split]. rewrite Hd.
      cbn -[uploader.Upload filepath.Base strings.Split]. rewrite Hi.
      cbn. auto.
    + destruct (processFile_quiet_dir p rel i (S sz) w Hs Hrel Hlen Hd Hi)
        as (_ & _ & Hfs & Hsc & _); [discriminate|]. auto.
  - (* a name without inode *)
    apply pruned_same_fs;
      [|apply processFile_trace_grows|apply processFile_objects_grow].
    intros Hs. apply (processFile_quiet_error p w (Errorf "file not accessible: %w" [Val os.ENOENT])); [exact Hs|].
    destruct w as [f objs ws en sc tr]. cbn in Hs, Hd, Hi. subst sc.
    unfold daemon.processFile. rewrite Hrel.
    destruct (length _ <? 2) eqn:Hlt; [apply Nat.ltb_lt in Hlt; lia|].
    unfold_calls. unfold os.stat_result, node_at, next_turn.
    cbn -[uploader.Upload filepath.Base strings.Split]. rewrite Hd.
    cbn -[uploader.Upload filepath.Base strings.Split]. rewrite Hi.
    reflexivity.
Qed.

End quiet_scan.

Section scan_removes.

Variable u : uploader.GCSUploader.

Local Abbreviation R := (pruned u).

Ltac pruned_call :=
  first [ apply keeps_ret | apply keeps_Infof | apply keeps_Sleep
        | apply keeps_Stat | apply keeps_readDirNames ];
  try apply _;
  auto using pruned_turned, pruned_noted, pruned_subscribed.

Lemma scanFn_pruned path info err : keeps R (scanFn u path info err).
Proof.
  unfold scanFn. destruct err as [err|].
  { apply keeps_bind; try apply _; [pruned_call|intros ?; pruned_call]. }
  destruct info as [info|]; [|pruned_call].
  apply keeps_bind; try apply _; [|intros ?; pruned_call].
  destruct (_ && _); [|pruned_call].
  apply keeps_bind; try apply _; [pruned_call|intros ?].
  apply keeps_bind; try apply _; [apply processFile_pruned|].
  intros [e|]; pruned_call.
Qed.

Lemma walk_pruned depth path info :
  keeps R (walk depth path info (scanFn u)).
Proof.
  apply keeps_walk; try apply _;
    auto using pruned_turned, pruned_noted, scanFn_pruned.
Qed.

Lemma scan_pruned depth rootDir :
  keeps R (daemon.scanAndUploadExisting depth u rootDir).
Proof.
  rewrite scan_is_a_walk.
  apply keeps_bind; try apply _; [pruned_call|intros ?].
  apply keeps_Walk; try apply _;
    auto using pruned_turned, pruned_noted, scanFn_pruned.
Qed.

(** What is gone stays gone. *)
Lemma pruned_gone w w' p :
  R w w' -> script w = [] ->
  dirents (fs w) !! p = None -> dirents (fs w') !! p = None.
Proof.
  intros HR Hs Hnone. destruct (HR Hs) as (_ & _ & _ & _ & Hd).
  destruct (Hd p) as [Hsame|(Hn & _)]; congruence.
Qed.

(** Directories stay. *)
Lemma pruned_dir w w' p sz :
  R w w' -> script w = [] ->
  node_at (fs w) p = Some (Dir sz) -> node_at (fs w') p = Some (Dir sz).
Proof.
  intros HR Hs Hnode. destruct (HR Hs) as (_ & Hi & _ & _ & Hd).
  unfold node_at in *. rewrite Hi.
  destruct (Hd p) as [->|(_ & _ & _ & i & content & Hdp & Hip)];
    [exact Hnode|].
  rewrite Hdp in Hnode. cbn in Hnode. congruence.
Qed.

Lemma pruned_dirs_along w w' path dirs :
  R w w' -> script w = [] ->
  dirs_along (fs w) path dirs -> dirs_along (fs w') path dirs.
Proof.
  intros HR Hs. revert path.
  induction dirs as [|d dirs IH]; intros path; [auto|].
  intros (Hn & (sz & Hdir) & Hrest).
  split; [exact Hn|]. split; [|apply IH, Hrest].
  exists sz. eapply pruned_dir; eassumption.
Qed.

(** A recording is still there, or it is gone. *)
Lemma pruned_recording w w' path dirs name :
  R w w' -> script w = [] ->
  recording_at (fs w) path dirs name ->
  recording_at (fs w') path dirs name \/
  dirents (fs w') !! reach path (dirs ++ [name]) = None.
Proof.
  intros HR Hs (Hdirs & Hn & Hsuf & (i & content & Hd & Hi & Hne) & Hrel).
  destruct (HR Hs) as (_ & Hino & _ & _ & Hdp).
  destruct (Hdp (reach path (dirs ++ [name]))) as [Hsame|(Hnone & _)];
    [left|right; exact Hnone].
  split; [eapply pruned_dirs_along; eassumption|].
  split; [exact Hn|]. split; [exact Hsuf|]. split; [|exact Hrel].
  exists i, content. rewrite Hsame, Hino. auto.
Qed.

Lemma reach_app path dirs name :
  reach path (dirs ++ [name]) = below (reach path dirs) [name].
Proof.
  revert path. induction dirs as [|d dirs IH]; intros path; [reflexivity|].
  cbn [app reach]. apply IH.
Qed.

(** The callback on a recording uploads it and removes it. *)
Lemma scanFn_recording path name w content :
  script w = [] ->
  recording_at (fs w) path [] name ->
  node_at (fs w) (below path [name]) = Some (File content) ->
  dirents (fs (scanFn u (below path [name])
                 (Some (info_of (filepath.Base (below path [name]))
                          (File content)))
                 None w).2) !! below path [name] = None.
Proof.
  intros Hs (_ & Hn & Hsuf & (i & content' & Hd & Hi & Hne) & rel & Hrel & Hlen)
    Hnode.
  cbn [app reach] in Hd, Hrel.
  assert (content' = content) as ->.
  { unfold node_at in Hnode. rewrite Hd in Hnode. cbn in Hnode. congruence. }
  unfold scanFn. cbn [info_of IsDir Name negb andb].
  rewrite (Base_below _ _ Hn), Hsuf.
  rewrite !bind_eq.
  match goal with
  | |- context [daemon.processFile u ?file ?w1] =>
      destruct (processFile_quiet u file rel i content w1 Hs Hrel Hlen Hd Hi
                  Hne) as (Hr & _ & Hfs & _);
      rewrite Hr; cbn [mret M_ret snd]; rewrite Hfs
  end.
  apply lookup_delete_eq.
Qed.

Section entries_loop.

Variables (depth : nat) (path : string).

Hypothesis IH :
  forall path info w,
    script w = [] ->
    (exists syssize,
       node_at (fs w) path = Some (Dir syssize) /\
       info = info_of (filepath.Base path) (Dir syssize)) ->
    (walk depth path info (scanFn u) w).1 = None ->
    forall dirs name,
      recording_at (fs w) path dirs name ->
      dirents (fs (walk depth path info (scanFn u) w).2)
      !! reach path (dirs ++ [name]) = None.

Let step (name : string) : M (option error) :=
  r ← os.Stat (below path [name]);
  match r with
  | Err err => scanFn u (below path [name]) None (Some err)
  | Ok fileInfo => walk depth (below path [name]) fileInfo (scanFn u)
  end.

Let loop := each_entry (λ p i, walk depth p i (scanFn u)) (scanFn u) path.

Lemma loop_cons name names w :
  loop (name :: names) w
  = match (step name w).1 with
    | Some err => (Some err, (step name w).2)
    | None => loop names (step name w).2
    end.
Proof.
  unfold loop, step. cbn [each_entry]. rewrite !bind_eq.
  destruct (os.Stat (below path [name]) w).1; rewrite ?bind_eq;
    match goal with |- context [match ?x with _ => _ end] => destruct x end;
    reflexivity.
Qed.

Lemma step_pruned name : keeps R (step name).
Proof.
  unfold step. apply keeps_bind; try apply _; [pruned_call|].
  intros [info|err]; [apply walk_pruned|apply scanFn_pruned].
Qed.

Lemma loop_pruned names : keeps R (loop names).
Proof.
  induction names as [|name names IHn]; intros w; [reflexivity|].
  rewrite loop_cons. pose proof (step_pruned name w) as H1.
  destruct (step name w).1; [exact H1|].
  etrans; [exact H1|apply IHn].
Qed.

(** One entry: what lies at it or below it is uploaded and removed. *)
Lemma step_removes e w dirs name :
  script w = [] ->
  (step e w).1 = None ->
  recording_at (fs w) path dirs name ->
  hd name dirs = e ->
  dirents (fs (step e w).2) !! reach path (dirs ++ [name]) = None.
Proof.
  intros Hs Hres Hrec He. unfold step in *. rewrite bind_eq in Hres |- *.
  destruct (Stat_quiet (below path [e]) w Hs) as (Hr & (Hf1 & Hs1 & _)).
  rewrite Hr in Hres |- *. set (w1 := (os.Stat (below path [e]) w).2) in *.
  destruct dirs as [|d dirs]; cbn [hd] in He; subst e.
  - (* the entry is the recording *)
    pose proof Hrec as (_ & _ & _ & (i & content & Hd & Hi & _) & _).
    cbn [app reach] in Hd |- *.
    assert (Hnode : node_at (fs w) (below path [name]) = Some (File content)).
    { unfold node_at. rewrite Hd. exact Hi. }
    rewrite Hnode in Hres |- *. rewrite walk_file by reflexivity.
    apply scanFn_recording; [exact Hs1|rewrite Hf1; exact Hrec
                            |rewrite Hf1; exact Hnode].
  - (* the recording is below the entry, a directory *)
    pose proof Hrec as ((Hn & (sz & Hdir) & Hdirs) & Hname & Hsuf & Hfile & Hrel).
    rewrite Hdir in Hres |- *. cbn [app reach] in *.
    apply IH; [exact Hs1| |exact Hres|].
    + exists sz. rewrite Hf1. auto.
    + rewrite Hf1. split; [exact Hdirs|]. auto.
Qed.

Lemma each_entry_removes names :
  forall w,
    script w = [] ->
    (loop names w).1 = None ->
    forall dirs name,
      recording_at (fs w) path dirs name ->
      hd name dirs ∈ names ->
      dirents (fs (loop names w).2) !! reach path (dirs ++ [name]) = None.
Proof.
  induction names as [|e names IHn]; intros w Hs Hres dirs name Hrec Hin.
  { apply elem_of_nil in Hin. destruct Hin. }
  rewrite loop_cons in Hres |- *.
  pose proof (step_pruned e w) as H1.
  destruct (step e w).1 eqn:Hstep; [discriminate|].
  set (w1 := (step e w).2) in *.
  destruct (H1 Hs) as (Hs1 & _).
  destruct (pruned_recording _ _ _ _ _ H1 Hs Hrec) as [Hrec1|Hgone].
  2:{ eapply pruned_gone; [apply loop_pruned|exact Hs1|exact Hgone]. }
  apply elem_of_cons in Hin as [He|Hin].
  - eapply pruned_gone; [apply loop_pruned|exact Hs1|].
    apply step_removes; auto.
  - apply IHn; assumption.
Qed.

End entries_loop.

(** Walking a directory uploads and removes every recording below it. *)
Lemma walk_removes depth :
  forall path info w,
    script w = [] ->
    (exists syssize,
       node_at (fs w) path = Some (Dir syssize) /\
       info = info_of (filepath.Base path) (Dir syssize)) ->
    (walk depth path info (scanFn u) w).1 = None ->
    forall dirs name,
      recording_at (fs w) path dirs name ->
      dirents (fs (walk depth path info (scanFn u) w).2)
      !! reach path (dirs ++ [name]) = None.
Proof.
  induction depth as [|depth IH];
    intros path info w Hs (sz & Hnode & ->) Hres dirs name Hrec;
    cbn [walk info_of IsDir negb] in Hres |- *;
    rewrite bind_eq in Hres |- *;
    destruct (readDirNames_quiet path w Hs) as (Hr & (Hf1 & Hs1 & _));
    rewrite Hr in Hres |- *; set (w1 := (readDirNames path w).2) in *;
    cbn [error_of] in Hres |- *; rewrite bind_eq in Hres |- *;
    assert (Hfn : scanFn u path (Some (info_of (filepath.Base path) (Dir sz)))
                    None w1 = (None, w1)) by reflexivity;
    cbn [info_of] in Hfn; rewrite Hfn in Hres |- *; cbn [fst snd] in Hres |- *;
    assert (Hin : hd name dirs ∈ entries (fs w) path).
  1,3: destruct Hrec as (Hdirs & Hname & _ & (i & content & Hd & _) & _);
       destruct dirs as [|d dirs]; cbn [hd];
       [eapply entry_listed; [exact Hname|exact Hd]
       |destruct Hdirs as (Hn & (sz' & Hdir) & _);
        destruct (node_dirent _ _ _ Hdir) as (j & Hj);
        eapply entry_listed; [exact Hn|exact Hj]].
  - destruct (entries (fs w) path); [|discriminate].
    apply elem_of_nil in Hin. destruct Hin.
  - apply (each_entry_removes depth path IH); try assumption.
    rewrite Hf1. exact Hrec.
Qed.

End scan_removes.

(** X9.  What a scan is for: in a quiet environment, a scan of the root
    that returns nil has uploaded and removed every recording it could
    reach, that is every regular file that is not empty, has a name ending
    in [.jfr] and lies in a pod directory or deeper.  The removal is in the
    trace, the local name is gone, and the bucket holds an object under
    [pod/name]. *)
Theorem scan_uploads_and_removes_every_recording depth u w dirs name i content :
  script w = [] ->
  (exists syssize, node_at (fs w) rootProfileDir = Some (Dir syssize)) ->
  (daemon.scanAndUploadExisting depth u rootProfileDir w).1 = None ->
  dirs <> [] -> dirs_along (fs w) rootProfileDir dirs ->
  is_name name = true -> strings.HasSuffix name ".jfr" = true ->
  dirents (fs w) !! below rootProfileDir (dirs ++ [name]) = Some i ->
  inodes (fs w) !! i = Some (File content) -> content <> [] ->
  let file := below rootProfileDir (dirs ++ [name]) in
  let w' := (daemon.scanAndUploadExisting depth u rootProfileDir w).2 in
  dirents (fs w') !! file = None /\
  ARemove file None ∈ trace w' /\
  is_Some (objects w' !! (uploader.bucketName u, hd "" dirs +:+ "/" +:+ name)).
Proof.
  intros Hs (sz & Hroot) Hres Hne Hdirs Hname Hsuf Hd Hi Hcontent file w'.
  assert (Hall : all_names (dirs ++ [name])).
  { apply Forall_app. split; [|repeat constructor; exact Hname].
    clear -Hdirs. revert Hdirs. generalize rootProfileDir.
    induction dirs as [|d dirs IH]; intros path; [constructor|].
    intros (Hn & _ & Hrest). constructor; [exact Hn|eapply IH, Hrest]. }
  assert (Hlen : 2 <= length (dirs ++ [name])).
  { rewrite length_app. destruct dirs; [congruence|cbn; lia]. }
  assert (Hreach : reach rootProfileDir (dirs ++ [name]) = file).
  { apply reach_below. destruct dirs; discriminate. }
  assert (Hrec : recording_at (fs w) rootProfileDir dirs name).
  { split; [exact Hdirs|]. split; [exact Hname|]. split; [exact Hsuf|].
    rewrite Hreach. split; [eauto|].
    destruct (structured_below_root _ Hall Hlen) as (rel & Hrel & Hparts).
    exists rel. split; [exact Hrel|]. rewrite Hparts. exact Hlen. }
  assert (Hgone : dirents (fs w') !! file = None).
  { subst w'. rewrite scan_is_a_walk in Hres |- *.
    rewrite bind_eq in Hres |- *. unfold Walk in Hres |- *.
    rewrite bind_eq in Hres |- *.
    set (w0 := (logger.Infof "Scanning for existing .jfr files in %s"
                  [Str rootProfileDir] w).2) in *.
    assert (Hs0 : script w0 = []) by exact Hs.
    destruct (Stat_quiet rootProfileDir w0 Hs0) as (Hr & (Hf1 & Hs1 & _)).
    change (fs w0) with (fs w) in Hr, Hf1.
    rewrite Hr, Hroot in Hres |- *. rewrite <- Hreach.
    apply walk_removes; [exact Hs1| |exact Hres|rewrite Hf1; exact Hrec].
    exists sz. rewrite Hf1. auto. }
  split; [exact Hgone|].
  destruct (scan_pruned u depth rootProfileDir w Hs) as (_ & _ & _ & _ & Hp).
  destruct (Hp file) as [Hsame|(_ & Hrem & Hobj & _)].
  { fold w' in Hsame. rewrite Hgone in Hsame. unfold file in Hsame.
    rewrite Hd in Hsame. discriminate. }
  split; [exact Hrem|].
  unfold key_of in Hobj.
  destruct (structured_below_root _ Hall Hlen) as (rel & Hrel & Hparts).
  assert (Hne' : dirs ++ [name] <> []) by (destruct dirs; discriminate).
  pose proof (Rel_below_root _ Hne' Hall) as Hrel'.
  fold file in Hrel'. rewrite Hrel' in Hobj.
  pose proof (object_for_below_root _ Hall Hlen) as Hkey.
  unfold object_for in Hkey. fold file in Hkey. rewrite Hkey in Hobj.
  assert (Hhd : hd "" (dirs ++ [name]) = hd "" dirs).
  { clear -Hne. destruct dirs; [destruct Hne|]; reflexivity. }
  rewrite Hhd, last_last in Hobj. exact Hobj.
Qed.

(** ** What the startup walk subscribes *)

Section startup_walk.

Global Instance still_preorder : PreOrder still.
Proof.
  split; [intros w Hs; auto|].
  intros w1 w2 w3 H12 H23 Hs. destruct (H12 Hs) as (Hs2 & Hf2).
  destruct (H23 Hs2) as (Hs3 & Hf3). split; [exact Hs3|congruence].
Qed.

Global Instance watches_grow_preorder : PreOrder watches_grow.
Proof.
  split; [intros w; unfold watches_grow; reflexivity|].
  intros w1 w2 w3 H12 H23. unfold watches_grow in *. etrans; eassumption.
Qed.

Lemma still_turned w : still w (turned w).
Proof.
  intros Hs. destruct w as [f o ws en sc tr]. cbn in Hs. subst sc.
  split; reflexivity.
Qed.

Lemma still_same w w' : script w' = script w -> fs w' = fs w -> still w w'.
Proof. intros Hs Hf Hq. split; congruence. Qed.

Lemma watchFn_still path info err : keeps still (watchFn path info err).
Proof.
  unfold watchFn. destruct err as [err|]; [apply keeps_ret; apply _|].
  destruct info as [info|]; [|apply keeps_ret; apply _].
  destruct (IsDir info); [|apply keeps_ret; apply _].
  apply keeps_bind; try apply _.
  { apply keeps_Infof. intros; apply still_same; reflexivity. }
  intros ?. apply keeps_bind; try apply _.
  { apply keeps_Add; try apply _; auto using still_turned;
      intros; apply still_same; reflexivity. }
  intros [e|]; apply keeps_ret; apply _.
Qed.

Lemma walk_still depth path info : keeps still (walk depth path info watchFn).
Proof.
  apply keeps_walk; try apply _; auto using still_turned, watchFn_still.
  intros; apply still_same; reflexivity.
Qed.

(** The callback subscribes the path it is given, if anything. *)
Lemma watchFn_watches path info err w p :
  p ∈ watches (watchFn path info err w).2 ->
  p ∈ watches w \/ (p = path /\ exists i, info = Some i /\ IsDir i = true).
Proof.
  unfold watchFn. destruct err as [err|]; [auto|].
  destruct info as [info|]; [|auto].
  destruct (IsDir info) eqn:Hdir; [|auto].
  unfold fsnotify.Add. unfold_calls. cbn.
  destruct (fsnotify.add_result _ _ _); cbn; [auto|].
  intros Hin. apply elem_of_union in Hin as [Hin|Hin]; [|auto].
  apply elem_of_singleton in Hin. right. eauto.
Qed.

Lemma Stat_watches path w : watches (os.Stat path w).2 = watches w.
Proof. reflexivity. Qed.

Lemma readDirNames_watches path w : watches (readDirNames path w).2 = watches w.
Proof. reflexivity. Qed.

Section entries_loop.

Variables (depth : nat) (path : string).

Hypothesis IH :
  forall path info w,
    script w = [] ->
    (exists syssize,
       node_at (fs w) path = Some (Dir syssize) /\
       info = info_of (filepath.Base path) (Dir syssize)) ->
    forall p,
      p ∈ watches (walk depth path info watchFn w).2 ->
      p ∈ watches w \/
      exists dirs, dirs_along (fs w) path dirs /\ p = reach path dirs.

Let loop := each_entry (λ p i, walk depth p i watchFn) watchFn path.

Lemma each_entry_subscribes_only names :
  Forall (λ n, is_name n = true) names ->
  forall w,
    script w = [] ->
    forall p,
      p ∈ watches (loop names w).2 ->
      p ∈ watches w \/
      exists dirs,
        dirs <> [] /\ dirs_along (fs w) path dirs /\ p = reach path dirs.
Proof.
  induction 1 as [|e names He Hnames IHn]; intros w Hs p; [auto|].
  unfold loop. cbn [each_entry]. fold loop. rewrite bind_eq.
  destruct (Stat_quiet (below path [e]) w Hs) as (Hr & (Hf1 & Hs1 & _)).
  pose proof (Stat_watches (below path [e]) w) as Hw1.
  rewrite Hr. set (w1 := (os.Stat (below path [e]) w).2) in *.
  rewrite bind_eq.
  destruct (node_at (fs w) (below path [e])) as [[content|sz]|] eqn:Hnode.
  - (* a file *)
    rewrite walk_file by reflexivity.
    pose proof (watchFn_still (below path [e])
                  (Some (info_of (filepath.Base (below path [e]))
                           (File content))) None w1 Hs1) as (Hs2 & Hf2).
    pose proof (watchFn_watches (below path [e])
                  (Some (info_of (filepath.Base (below path [e]))
                           (File content))) None w1) as Hfn.
    destruct (watchFn _ _ None w1) as [[err|] w2]; cbn [fst snd] in *.
    + intros Hin. destruct (Hfn p Hin) as [Hin'|(_ & i & [= <-] & Hdir)];
        [left; rewrite <- Hw1; exact Hin'|discriminate].
    + intros Hin. destruct (IHn w2 Hs2 p Hin) as [Hin'|(dirs & Hne & Hd & Hp)].
      * destruct (Hfn p Hin') as [Hin''|(_ & i & [= <-] & Hdir)];
          [left; rewrite <- Hw1; exact Hin''|discriminate].
      * right. exists dirs. rewrite Hf2, Hf1 in Hd. auto.
  - (* a directory *)
    assert (Hdir1 : exists syssize,
               node_at (fs w1) (below path [e]) = Some (Dir syssize) /\
               info_of (filepath.Base (below path [e])) (Dir sz)
               = info_of (filepath.Base (below path [e])) (Dir syssize)).
    { exists sz. rewrite Hf1. auto. }
    pose proof (IH (below path [e]) _ w1 Hs1 Hdir1) as Hsub.
    pose proof (walk_still depth (below path [e])
                  (info_of (filepath.Base (below path [e])) (Dir sz))
                  w1 Hs1) as (Hs2 & Hf2).
    assert (Hhere : forall q,
               q ∈ watches (walk depth (below path [e])
                              (info_of (filepath.Base (below path [e]))
                                 (Dir sz)) watchFn w1).2 ->
               q ∈ watches w \/
               exists dirs,
                 dirs <> [] /\ dirs_along (fs w) path dirs /\
                 q = reach path dirs).
    { intros q Hin. destruct (Hsub q Hin) as [Hin'|(dirs & Hd & Hq)].
      - left. rewrite <- Hw1. exact Hin'.
      - right. exists (e :: dirs). split; [discriminate|].
        split; [|exact Hq]. split; [exact He|]. split; [eauto|].
        rewrite <- Hf1. exact Hd. }
    destruct (walk depth (below path [e]) _ watchFn w1) as [[err|] w2];
      cbn [fst snd] in *; [exact (Hhere p)|].
    intros Hin. destruct (IHn w2 Hs2 p Hin) as [Hin'|(dirs & Hne & Hd & Hp)];
      [exact (Hhere p Hin')|].
    right. exists dirs. rewrite Hf2, Hf1 in Hd. auto.
  - (* gone *)
    cbn. rewrite Hw1. auto.
Qed.

End entries_loop.

Lemma walk_subscribes_only depth :
  forall path info w,
    script w = [] ->
    (exists syssize,
       node_at (fs w) path = Some (Dir syssize) /\
       info = info_of (filepath.Base path) (Dir syssize)) ->
    forall p,
      p ∈ watches (walk depth path info watchFn w).2 ->
      p ∈ watches w \/
      exists dirs, dirs_along (fs w) path dirs /\ p = reach path dirs.
Proof.
  induction depth as [|depth IH]; intros path info w Hs (sz & Hnode & ->) p;
    cbn [walk info_of IsDir negb]; rewrite bind_eq;
    destruct (readDirNames_quiet path w Hs) as (Hr & (Hf1 & Hs1 & _));
    pose proof (readDirNames_watches path w) as Hw1;
    rewrite Hr; set (w1 := (readDirNames path w).2) in *;
    cbn [error_of]; rewrite bind_eq;
    pose proof (watchFn_still path
                  (Some (info_of (filepath.Base path) (Dir sz))) None w1 Hs1)
      as (Hs2 & Hf2);
    pose proof (watchFn_watches path
                  (Some (info_of (filepath.Base path) (Dir sz))) None w1)
      as Hfn; cbn [info_of] in Hs2, Hf2, Hfn;
    assert (Hhere : forall q,
               q ∈ watches (watchFn path
                              (Some {| Name := filepath.Base path;
                                       Size := sz; IsDir := true |})
                              None w1).2 ->
               q ∈ watches w \/
               exists dirs, dirs_along (fs w) path dirs /\ q = reach path dirs)
      by (intros q Hin; destruct (Hfn q Hin) as [Hin'|(-> & _)];
          [left; rewrite <- Hw1; exact Hin'
          |right; exists []; split; [exact I|reflexivity]]);
    destruct (watchFn path _ None w1) as [[err|] w2]; cbn [fst snd] in *;
    try exact (Hhere p).
  intros Hin.
  destruct (each_entry_subscribes_only depth path IH _
              (entries_names (fs w) path) w2 Hs2 p Hin)
    as [Hin'|(dirs & _ & Hd & Hp)]; [exact (Hhere p Hin')|].
  right. exists dirs. rewrite Hf2, Hf1 in Hd. auto.
Qed.

Lemma startup_walk_subscribes_only depth root w p :
  script w = [] ->
  p ∈ watches (daemon.watchDirectoryRecursive depth root w).2 ->
  p ∈ watches w \/
  exists dirs,
    (exists syssize, node_at (fs w) root = Some (Dir syssize)) /\
    dirs_along (fs w) root dirs /\ p = reach root dirs.
Proof.
  intros Hs.
  change (daemon.watchDirectoryRecursive depth root)
    with (Walk depth root watchFn).
  unfold Walk. rewrite bind_eq.
  destruct (Stat_quiet root w Hs) as (Hr & (Hf1 & Hs1 & _)).
  pose proof (Stat_watches root w) as Hw1.
  rewrite Hr. set (w1 := (os.Stat root w).2) in *.
  destruct (node_at (fs w) root) as [[content|sz]|] eqn:Hnode.
  - rewrite walk_file by reflexivity. intros Hin.
    destruct (watchFn_watches _ _ _ _ _ Hin) as [Hin'|(_ & i & [= <-] & Hdir)];
      [left; rewrite <- Hw1; exact Hin'|discriminate].
  - intros Hin.
    destruct (walk_subscribes_only depth root _ w1 Hs1
                ltac:(exists sz; rewrite Hf1; auto) p Hin)
      as [Hin'|(dirs & Hd & Hp)]; [left; rewrite <- Hw1; exact Hin'|].
    right. exists dirs. rewrite Hf1 in Hd. eauto.
  - cbn. rewrite Hw1. auto.
Qed.

Lemma startup_walk_keeps_watches depth root :
  keeps watches_grow (daemon.watchDirectoryRecursive depth root).
Proof.
  apply keeps_watchDirectoryRecursive; try apply _;
    unfold watches_grow; intros; cbn; try reflexivity.
  apply union_subseteq_r.
Qed.

End startup_walk.

(** X13.  The startup walk subscribes the directories and nothing else:
    after [watchDirectoryRecursive] has succeeded on the root in a quiet
    environment, a path is subscribed exactly when it was before or it is
    the root or a directory below it; no regular file ever is. *)
Theorem startup_walk_subscribes_exactly_the_directories depth w p :
  script w = [] ->
  (exists syssize, node_at (fs w) rootProfileDir = Some (Dir syssize)) ->
  (daemon.watchDirectoryRecursive depth rootProfileDir w).1 = None ->
  p ∈ watches (daemon.watchDirectoryRecursive depth rootProfileDir w).2 <->
  p ∈ watches w \/
  exists dirs, dirs_along (fs w) rootProfileDir dirs /\ p = under_root dirs.
Proof.
  intros Hs Hroot Hok. split.
  - intros Hin.
    destruct (startup_walk_subscribes_only _ _ _ _ Hs Hin)
      as [Hin'|(dirs & _ & Hd & ->)]; [auto|].
    right. exists dirs. rewrite reach_under_root. auto.
  - intros [Hin|(dirs & Hd & ->)].
    + apply (startup_walk_keeps_watches depth rootProfileDir w), Hin.
    + rewrite <- reach_under_root.
      apply startup_walk_subscribes; assumption.
Qed.

(** ** A directory announced as a recording *)

Lemma discovers_inv event :
  discovers event = true ->
  strings.HasSuffix (fsnotify.Name event) ".jfr" = true /\
  (N.land (fsnotify.Op event) fsnotify.Remove =? fsnotify.Remove)%N = false /\
  ((N.land (fsnotify.Op event) fsnotify.Create =? fsnotify.Create)%N
   || (N.land (fsnotify.Op event) fsnotify.Write =? fsnotify.Write)%N) = true.
Proof.
  unfold discovers. intros H.
  apply andb_true_iff in H as (H & H3). apply andb_true_iff in H as (H1 & H2).
  apply negb_true_iff in H2. auto.
Qed.

(** X3.  [handleFileEvent] does not look whether the path of the event is
    a directory (the scan does).  For a create or write event on a
    directory whose name ends in [.jfr], in a pod directory or deeper, the
    upload is started, the copy fails at once, the writer is closed all the
    same, and an empty object is left in the bucket under the name; the
    failure is logged and the directory stays. *)
Theorem directory_event_leaves_an_empty_object u elems sz event w :
  all_names elems -> 2 <= length elems ->
  fsnotify.Name event = below rootProfileDir elems ->
  discovers event = true ->
  script w = [] ->
  node_at (fs w) (below rootProfileDir elems) = Some (Dir sz) -> sz <> 0 ->
  let w' := (daemon.handleFileEvent u event w).2 in
  objects w'
  = <[(uploader.bucketName u, hd "" elems +:+ "/" +:+ List.last elems "") :=
        {| ContentType := "application/octet-stream"; data := [] |}]>
      (objects w) /\
  fs w' = fs w /\
  ends_with (trace w')
    [failed_log (fsnotify.Name event)
       (Errorf "upload failed: %w"
          [Val (Errorf "failed to upload file: %w" [Val os.EISDIR])])].
Proof.
  intros Hall Hlen Hname Hdisc Hs Hnode Hsz w'. subst w'.
  destruct (discovers_inv _ Hdisc) as (H1 & H2 & H3).
  unfold daemon.handleFileEvent. rewrite H1, H2, H3. cbn [negb].
  rewrite !bind_eq.
  set (w1 := (logger.Infof "Detected new/modified file: %s"
                [Str (fsnotify.Name event)] w).2).
  set (w2 := (time.Sleep 5 w1).2).
  assert (Hs2 : script w2 = [] /\ fs w2 = fs w /\ objects w2 = objects w).
  { subst w2 w1. destruct w as [f o ws en sc tr]. cbn in Hs. subst sc.
    repeat split; reflexivity. }
  destruct Hs2 as (Hs2 & Hf2 & Ho2).
  destruct (structured_below_root elems Hall Hlen) as (rel & Hrel & Hparts).
  assert (Hne' : elems <> [])
    by (destruct elems; [cbn in Hlen; lia|discriminate]).
  pose proof (Rel_below_root elems Hne' Hall) as Hrel'.
  rewrite Hrel' in Hrel. injection Hrel as <-.
  destruct (node_dirent _ _ _ Hnode) as (i & Hd).
  assert (Hi : inodes (fs w) !! i = Some (Dir sz)).
  { unfold node_at in Hnode. rewrite Hd in Hnode. exact Hnode. }
  rewrite Hname.
  destruct (processFile_quiet_dir u (below rootProfileDir elems) _ i sz w2
              Hs2 Hrel') as (Hr & Hobj & Hfs & _);
    [rewrite Hparts; exact Hlen|rewrite Hf2; exact Hd|rewrite Hf2; exact Hi
    |exact Hsz|].
  rewrite Hr. cbn [snd].
  split; [|split; [cbn; congruence|]].
  - cbn. rewrite Hobj, Ho2.
    pose proof (object_for_below_root elems Hall Hlen) as Hkey.
    unfold object_for in Hkey. rewrite Hkey. reflexivity.
  - eexists. reflexivity.
Qed.

Lemma directory_event_witness :
  all_names ["pod-7"; "dump.jfr"] /\
  discovers dump_created = true /\
  node_at (fs odd_world) "/tmp/jfr/pod-7/dump.jfr" = Some (Dir 4096) /\
  objects (daemon.handleFileEvent demo_uploader dump_created odd_world).2
  = {[ ("jfr-bucket", "pod-7/dump.jfr") :=
         {| ContentType := "application/octet-stream"; data := [] |} ]} /\
  fs (daemon.handleFileEvent demo_uploader dump_created odd_world).2
  = fs odd_world.
Proof.
  assert (Hall : all_names ["pod-7"; "dump.jfr"]) by (repeat constructor).
  assert (Hlen : 2 <= length ["pod-7"; "dump.jfr"]) by (cbn; lia).
  assert (Hdisc : discovers dump_created = true) by reflexivity.
  assert (Hnode : node_at (fs odd_world)
                    (below rootProfileDir ["pod-7"; "dump.jfr"])
                  = Some (Dir 4096)) by (vm_compute; reflexivity).
  destruct (directory_event_leaves_an_empty_object demo_uploader
              ["pod-7"; "dump.jfr"] 4096 dump_created odd_world Hall Hlen
              eq_refl Hdisc eq_refl Hnode ltac:(discriminate))
    as (Hobj & Hfs & _).
  split; [exact Hall|]. split; [exact Hdisc|]. split; [exact Hnode|].
  split; [exact Hobj|exact Hfs].
Defined.

(** ** Inputs that call for no work *)

Section idle_inputs.

Global Instance logged_only_preorder : PreOrder logged_only.
Proof.
  split.
  - intros w. repeat (split; [reflexivity|]).
    exists []. rewrite app_nil_r. split; [reflexivity|constructor].
  - intros w1 w2 w3 (Hf1 & Ho1 & Hw1 & Hs1 & acts1 & Ht1 & Hl1)
                    (Hf2 & Ho2 & Hw2 & Hs2 & acts2 & Ht2 & Hl2).
    repeat (split; [congruence|]).
    exists (acts1 ++ acts2). rewrite Ht2, Ht1, app_assoc.
    split; [reflexivity|apply Forall_app; auto].
Qed.

Lemma logged_only_Infof format args w :
  logged_only w (logger.Infof format args w).2.
Proof.
  repeat (split; [reflexivity|]).
  exists [AInfof format args]. split; [reflexivity|repeat constructor].
Qed.

Lemma handleFileEvent_idle u event :
  discovers event = false -> keeps logged_only (daemon.handleFileEvent u event).
Proof.
  intros Hdisc w. unfold daemon.handleFileEvent, discovers in *.
  destruct (strings.HasSuffix _ _); cbn [negb andb] in *; [|reflexivity].
  destruct (_ =? _)%N; cbn [negb andb] in *; [apply logged_only_Infof|].
  rewrite Hdisc. reflexivity.
Qed.

Lemma eventLoop_idle depth u inputs :
  Forall (λ i, is_work i = false) inputs ->
  keeps logged_only (daemon.eventLoop depth u inputs).
Proof.
  induction 1 as [|i inputs Hi Hall IH]; intros w; [reflexivity|].
  destruct i as [event| |err| |]; try discriminate;
    cbn [daemon.eventLoop]; rewrite ?bind_eq; try reflexivity.
  - etrans; [apply (handleFileEvent_idle u event Hi w)|apply IH].
  - etrans; [apply logged_only_Infof|apply IH].
Qed.

End idle_inputs.

(** X14.  Only two things make the daemon look at files: a create or write
    notification for a name ending in [.jfr], and a tick of the periodic
    scanner.  Any other input of the event loop (a notification for another
    name, a remove, rename or chmod notification, also one that carries
    the remove bit besides create or write, a watcher error) changes
    neither the local files nor the bucket nor the subscriptions and takes
    no turn of the environment: the daemon writes log lines at most. *)
Theorem other_inputs_are_only_logged depth u inputs w :
  Forall (λ i, is_work i = false) inputs ->
  let w' := (daemon.eventLoop depth u inputs w).2 in
  fs w' = fs w /\ objects w' = objects w /\ watches w' = watches w /\
  script w' = script w /\
  exists acts,
    trace w' = trace w ++ acts /\ Forall (λ a, is_log a = true) acts.
Proof. intros Hall. exact (eventLoop_idle depth u inputs Hall w). Qed.

Lemma idle_inputs_witness :
  fs (daemon.eventLoop 3 demo_uploader
        [daemon.FromErrors (Errno "queue overflow");
         daemon.FromEvents
           {| fsnotify.Name := run1;
              fsnotify.Op := N.lor fsnotify.Create fsnotify.Remove |};
         daemon.FromEvents
           {| fsnotify.Name := "/tmp/jfr/pod-7/notes.txt";
              fsnotify.Op := fsnotify.Write |};
         daemon.FromEvents
           {| fsnotify.Name := run1; fsnotify.Op := fsnotify.Chmod |}]
        (demo_world [fails "EIO"])).2
  = demo_fs /\
  script (daemon.eventLoop 3 demo_uploader
        [daemon.FromErrors (Errno "queue overflow");
         daemon.FromEvents
           {| fsnotify.Name := run1;
              fsnotify.Op := N.lor fsnotify.Create fsnotify.Remove |};
         daemon.FromEvents
           {| fsnotify.Name := "/tmp/jfr/pod-7/notes.txt";
              fsnotify.Op := fsnotify.Write |};
         daemon.FromEvents
           {| fsnotify.Name := run1; fsnotify.Op := fsnotify.Chmod |}]
        (demo_world [fails "EIO"])).2
  = [fails "EIO"].
Proof.
  match goal with
  | |- fs (daemon.eventLoop _ _ ?inputs _).2 = _ /\ _ =>
      assert (Hidle : Forall (λ i, is_work i = false) inputs)
        by (repeat constructor);
      destruct (other_inputs_are_only_logged 3 demo_uploader inputs
                  (demo_world [fails "EIO"]) Hidle) as (Hf & _ & _ & Hs & _)
  end.
  split; [exact Hf|exact Hs].
Defined.

Lemma failed_copy_witness :
  script broken_copy = [quiet; quiet; quiet; quiet;
                        fails_after 2 "unexpected EOF"] /\
  (uploader.Upload demo_uploader run1 "pod-7" broken_copy).1
  = Some (Errorf "failed to upload file: %w" [Val (Errno "unexpected EOF")]) /\
  objects (uploader.Upload demo_uploader run1 "pod-7" broken_copy).2
  = {[ ("jfr-bucket", "pod-7/run1.jfr") :=
         {| ContentType := "application/octet-stream";
            data := [x4a; x46] |} ]}.
Proof.
  destruct (failed_copy_commits_the_copied_bytes demo_uploader run1 "pod-7" 3
              [x4a; x46; x52] 2 "unexpected EOF" broken_copy eq_refl)
    as (Hr & Hobj & _); [vm_compute; reflexivity..|].
  split; [reflexivity|]. split; [exact Hr|exact Hobj].
Defined.

Lemma retry_witness :
  (daemon.processFile demo_uploader run1 flaky_world).1
  = Some (Errorf "upload failed: %w"
            [Val (Errorf "failed to finalize upload: %w"
                    [Val (Errno "googleapi: Error 503")])]) /\
  fs (daemon.processFile demo_uploader run1 flaky_world).2 = demo_fs /\
  (daemon.processFile demo_uploader run1
     (daemon.processFile demo_uploader run1 flaky_world).2).1 = None /\
  dirents (fs (daemon.processFile demo_uploader run1
                 (daemon.processFile demo_uploader run1 flaky_world).2).2)
  !! run1 = None.
Proof.
  assert (Hall : all_names ["pod-7"; "run1.jfr"]) by (repeat constructor).
  assert (Hlen : 2 <= length ["pod-7"; "run1.jfr"]) by (cbn; lia).
  assert (Hidle : Forall idle (script flaky_world))
    by (repeat (constructor; [intros f; reflexivity|]); constructor).
  assert (Hres : (daemon.processFile demo_uploader
                    (below rootProfileDir ["pod-7"; "run1.jfr"])
                    flaky_world).1
                 = Some (Errorf "upload failed: %w"
                           [Val (Errorf "failed to finalize upload: %w"
                                   [Val (Errno "googleapi: Error 503")])]))
    by (vm_compute; reflexivity).
  assert (Hd : dirents (fs flaky_world)
               !! below rootProfileDir ["pod-7"; "run1.jfr"] = Some 3)
    by (vm_compute; reflexivity).
  assert (Hi : inodes (fs flaky_world) !! 3 = Some (File [x4a; x46; x52]))
    by (vm_compute; reflexivity).
  destruct (failed_attempt_can_be_retried demo_uploader ["pod-7"; "run1.jfr"]
              3 [x4a; x46; x52] _ flaky_world Hall Hlen Hidle Hd Hi
              ltac:(discriminate) Hres) as (Hfs & Hretry).
  split; [exact Hres|]. split; [exact Hfs|].
  assert (Hover : script (daemon.processFile demo_uploader
                            (below rootProfileDir ["pod-7"; "run1.jfr"])
                            flaky_world).2 = [])
    by (vm_compute; reflexivity).
  destruct (Hretry Hover) as (Hr & _ & Hgone).
  split; [exact Hr|exact Hgone].
Defined.

Lemma busy_scan_witness :
  script busy_world = [] /\
  dirs_along (fs busy_world) rootProfileDir ["pod-7"; "old"] /\
  dirents (fs (daemon.scanAndUploadExisting 3 demo_uploader rootProfileDir
                 busy_world).2) !! "/tmp/jfr/pod-7/old/run0.jfr" = None /\
  is_Some (objects (daemon.scanAndUploadExisting 3 demo_uploader
                      rootProfileDir busy_world).2
           !! ("jfr-bucket", "pod-7/run0.jfr")).
Proof.
  assert (Hdirs : dirs_along (fs busy_world) rootProfileDir ["pod-7"; "old"]).
  { split; [reflexivity|]. split; [exists 4096; vm_compute; reflexivity|].
    split; [reflexivity|]. split; [exists 4096; vm_compute; reflexivity|].
    exact I. }
  assert (Hroot : exists syssize,
             node_at (fs busy_world) rootProfileDir = Some (Dir syssize))
    by (exists 4096; vm_compute; reflexivity).
  assert (Hok : (daemon.scanAndUploadExisting 3 demo_uploader rootProfileDir
                   busy_world).1 = None) by (vm_compute; reflexivity).
  destruct (scan_uploads_and_removes_every_recording 3 demo_uploader
              busy_world ["pod-7"; "old"] "run0.jfr" 6 [x30] eq_refl Hroot Hok
              ltac:(discriminate) Hdirs eq_refl eq_refl)
    as (Hgone & _ & Hobj);
    [vm_compute; reflexivity|vm_compute; reflexivity|discriminate|].
  split; [reflexivity|]. split; [exact Hdirs|].
  split; [exact Hgone|exact Hobj].
Defined.

(** The scan of the busy tree: the three recordings are in the bucket and
    gone; the text file, the empty recording and the recording outside any
    pod directory stay. *)
Example busy_scan :
  (map fst (map_to_list (dirents (fs (daemon.scanAndUploadExisting 3
                                        demo_uploader rootProfileDir
                                        busy_world).2)))
   ≡ₚ ["/tmp/jfr"; "/tmp/jfr/pod-7"; "/tmp/jfr/pod-7/notes.txt";
       "/tmp/jfr/pod-7/old"; "/tmp/jfr/pod-8"; "/tmp/jfr/pod-8/empty.jfr";
       "/tmp/jfr/stray.jfr"]) /\
  (map fst (map_to_list (objects (daemon.scanAndUploadExisting 3
                                    demo_uploader rootProfileDir
                                    busy_world).2))
   ≡ₚ [("jfr-bucket", "pod-7/run1.jfr"); ("jfr-bucket", "pod-7/run0.jfr");
       ("jfr-bucket", "pod-8/run2.jfr")]).
Proof.
  split; apply (bool_decide_unpack _); vm_compute; reflexivity.
Qed.

Lemma startup_walk_exact_witness :
  script (demo_world []) = [] /\
  ("/tmp/jfr/pod-7"
   ∈ watches (daemon.watchDirectoryRecursive 3 rootProfileDir
                (demo_world [])).2 <->
   "/tmp/jfr/pod-7" ∈ watches (demo_world []) \/
   exists dirs,
     dirs_along (fs (demo_world [])) rootProfileDir dirs /\
     "/tmp/jfr/pod-7" = under_root dirs).
Proof.
  split; [reflexivity|].
  apply startup_walk_subscribes_exactly_the_directories;
    [reflexivity|exists 4096; vm_compute; reflexivity
    |vm_compute; reflexivity].
Defined.

(** ** The one path of [processFile] *)

Lemma UploadRun_own_path u p pod before acts r after :
  UploadRun u p pod before acts r after ->
  Forall (λ a, forall q, local_path a = Some q -> q = p) acts.
Proof.
  intros Hrun.
  destruct Hrun as [err|file err Hn|file i1 err Hn|file i1 i2 Hn Hd
                   |file i1 i2 part err cerr after Hn Hs Ha
                   |file i1 i2 n err Hn Hs|file i1 i2 content Hn Hs];
    unfold recheck, opening, uploaded_log; cbn [app];
    repeat constructor; cbn; intros q Hq; congruence.
Qed.

(** X15.  [processFile] looks at one path only: every stat, open, read of
    the file's size, close and removal it makes is on the path it was
    given, whatever the environment does; no other local file is read or
    removed on its behalf. *)
Theorem processFile_touches_its_path_only u filePath w :
  exists acts,
    trace (daemon.processFile u filePath w).2 = trace w ++ acts /\
    forall a q, a ∈ acts -> local_path a = Some q -> q = filePath.
Proof.
  destruct (processFile_run u filePath w) as (acts & Ht & Hrun).
  exists acts. split; [exact Ht|].
  assert (Hall : Forall (λ a, forall q, local_path a = Some q -> q = filePath)
                   acts).
  { destruct Hrun as [msg Hrel|rel Hrel Hlen|rel err Hst|rel info Hst Hsz
                     |rel info uacts err after Hst Hsz Hup
                     |rel info uacts err after Hst Hsz Hup
                     |rel info uacts after Hst Hsz Hup];
      try (pose proof (UploadRun_own_path _ _ _ _ _ _ _ Hup) as Hu);
      unfold uploading_log, deleting_log;
      repeat first [ apply Forall_cons; split; [cbn; intros q Hq; congruence|]
                   | apply Forall_app; split; [exact Hu|]
                   | apply Forall_nil ];
      try exact Hu; try exact I. }
  intros a q Hin. exact (proj1 (Forall_forall _ _) Hall a Hin q).
Qed.

(** ** The bucket the daemon writes into *)

Section one_bucket.

Variable b : string.

Local Abbreviation R := (writes_into b).

Global Instance writes_into_preorder : PreOrder R.
Proof.
  split; [intros w k; left; reflexivity|].
  intros w1 w2 w3 H12 H23 k.
  destruct (H23 k) as [H|H]; [|right; exact H].
  rewrite H. apply H12.
Qed.

Lemma writes_same w w' : objects w' = objects w -> R w w'.
Proof. intros H k. left. rewrite H. reflexivity. Qed.

Ltac writes_call :=
  first [ apply keeps_ret | apply keeps_Infof | apply keeps_Sleep
        | apply keeps_Stat | apply keeps_readDirNames | apply keeps_Getenv
        | apply keeps_NewGCSUploader | apply keeps_NewWatcher
        | apply keeps_watchDirectoryRecursive ];
  try apply _; intros; apply writes_same; reflexivity.

Section one_uploader.

Variable u : uploader.GCSUploader.

Hypothesis Hbucket : uploader.bucketName u = b.

Lemma writes_processFile path : keeps R (daemon.processFile u path).
Proof.
  intros w k. destruct (processFile_run u path w) as (acts & _ & Hrun).
  destruct (filepath.Rel rootProfileDir path) as [rel|msg] eqn:Hrel.
  - destruct (ProcessRun_keys _ _ _ _ _ _ _ Hrel Hrun)
      as (_ & [-> | (content & ->)] & _); [left; reflexivity|].
    unfold committed.
    destruct (decide ((bucket_of u, object_for path (pod_of rel)) = k))
      as [<-|Hne].
    + right. split; [exact Hbucket|]. exists content. apply lookup_insert_eq.
    + left. apply lookup_insert_ne, Hne.
  - left. inversion Hrun; subst; try congruence;
      match goal with H : structured _ _ |- _ => destruct H; congruence end.
Qed.

Lemma writes_handleFileEvent event :
  keeps R (daemon.handleFileEvent u event).
Proof.
  unfold daemon.handleFileEvent.
  destruct (negb _); [writes_call|].
  destruct (_ =? _)%N; [writes_call|].
  destruct (_ || _); [|writes_call].
  apply keeps_bind; try apply _; [writes_call|intros ?].
  apply keeps_bind; try apply _; [writes_call|intros ?].
  apply keeps_bind; try apply _; [apply writes_processFile|].
  intros [err|]; writes_call.
Qed.

Lemma writes_scanFn path info err : keeps R (scanFn u path info err).
Proof.
  unfold scanFn. destruct err as [err|].
  { apply keeps_bind; try apply _; [writes_call|intros ?; writes_call]. }
  destruct info as [info|]; [|writes_call].
  apply keeps_bind; try apply _; [|intros ?; writes_call].
  destruct (_ && _); [|writes_call].
  apply keeps_bind; try apply _; [writes_call|intros ?].
  apply keeps_bind; try apply _; [apply writes_processFile|].
  intros [e|]; writes_call.
Qed.

Lemma writes_scan depth rootDir :
  keeps R (daemon.scanAndUploadExisting depth u rootDir).
Proof.
  rewrite scan_is_a_walk.
  apply keeps_bind; try apply _; [writes_call|intros ?].
  apply keeps_Walk; try apply _;
    try (intros; apply writes_same; reflexivity).
  apply writes_scanFn.
Qed.

Lemma writes_eventLoop depth inputs :
  keeps R (daemon.eventLoop depth u inputs).
Proof.
  induction inputs as [|[event| |err| |] inputs IH]; cbn [daemon.eventLoop];
    try writes_call.
  - apply keeps_bind; try apply _; [apply writes_handleFileEvent|].
    intros ?; exact IH.
  - apply keeps_bind; try apply _; [writes_call|intros ?; exact IH].
  - apply keeps_bind; try apply _; [apply writes_scan|intros err].
    apply keeps_bind; try apply _; [destruct err; writes_call|].
    intros ?; exact IH.
Qed.

End one_uploader.

Lemma NewGCSUploader_bucket bucket w u :
  (uploader.NewGCSUploader bucket w).1 = Ok u -> uploader.bucketName u = bucket.
Proof.
  unfold uploader.NewGCSUploader. rewrite bind_eq.
  destruct (fault _); cbn; [discriminate|]. intros [= <-]. reflexivity.
Qed.

Lemma writes_Start depth inputs w :
  b = default "" (environ w !! "GCS_BUCKET") ->
  R w (daemon.Start depth inputs w).2.
Proof.
  intros Hb. unfold daemon.Start. rewrite bind_eq.
  change ((os.Getenv "GCS_BUCKET" w).2) with w.
  change ((os.Getenv "GCS_BUCKET" w).1)
    with (default "" (environ w !! "GCS_BUCKET")).
  rewrite <- Hb.
  destruct (String.eqb b ""); [reflexivity|].
  rewrite bind_eq.
  pose proof (NewGCSUploader_bucket b w) as Hu.
  assert (H1 : R w (uploader.NewGCSUploader b w).2)
    by (apply keeps_NewGCSUploader; try apply _;
        intros; apply writes_same; reflexivity).
  set (w1 := (uploader.NewGCSUploader b w).2) in *.
  destruct (uploader.NewGCSUploader b w).1 as [gcsUploader|err];
    [|exact H1].
  specialize (Hu gcsUploader eq_refl).
  etrans; [exact H1|]. clear H1. generalize w1. clear w w1 Hb.
  change (keeps R
    (logger.Infof "Daemon scanner started. Watching %s for .jfr files"
       [Str rootProfileDir];;
     logger.Infof "GCS bucket: %s" [Str b];;
     err ← fsnotify.NewWatcher;
     match err with
     | Some err =>
         mret (daemon.Fatal "Failed to create file watcher: %v" [Val err])
     | None =>
         err ← daemon.watchDirectoryRecursive depth rootProfileDir;
         match err with
         | Some err =>
             mret (daemon.Fatal "Failed to watch directory: %v" [Val err])
         | None =>
             err ← daemon.scanAndUploadExisting depth gcsUploader
                     rootProfileDir;
             match err with
             | Some err => logger.Infof "Initial scan failed: %v" [Val err]
             | None => mret tt
             end;;
             daemon.eventLoop depth gcsUploader inputs
         end
     end)).
  apply keeps_bind; try apply _; [writes_call|intros ?].
  apply keeps_bind; try apply _; [writes_call|intros ?].
  apply keeps_bind; try apply _; [writes_call|intros [err|]];
    [writes_call|].
  apply keeps_bind; try apply _; [writes_call|intros [err|]];
    [writes_call|].
  apply keeps_bind; try apply _; [apply writes_scan, Hu|intros err].
  apply keeps_bind; try apply _; [destruct err; writes_call|].
  intros ?; apply writes_eventLoop, Hu.
Qed.

End one_bucket.

(** X16.  The daemon writes into the bucket named by [GCS_BUCKET] and into
    no other: whatever the inputs and the environment, an object of the
    bucket store after [Start] is the object that was there before, or it
    is in that bucket and was written by the daemon as
    [application/octet-stream]. *)
Theorem daemon_writes_into_its_bucket_only depth inputs w k :
  objects (daemon.Start depth inputs w).2 !! k = objects w !! k \/
  (k.1 = default "" (environ w !! "GCS_BUCKET") /\
   exists content,
     objects (daemon.Start depth inputs w).2 !! k
     = Some {| ContentType := "application/octet-stream"; data := content |}).
Proof. exact (writes_Start _ depth inputs w eq_refl k). Qed.

Example other_bucket_is_left_alone :
  objects (daemon.Start 3 [] shared_store).2 !! ("backups", "pod-7/run1.jfr")
  = Some {| ContentType := "text/plain"; data := [x00] |} /\
  objects (daemon.Start 3 [] shared_store).2
  !! ("jfr-bucket", "pod-7/run1.jfr")
  = Some {| ContentType := "application/octet-stream";
            data := [x4a; x46; x52] |}.
Proof. split; vm_compute; reflexivity. Qed.

(** ** A second scan *)

Section second_scan.

Variable u : uploader.GCSUploader.

Global Instance settled_preorder : PreOrder settled.
Proof.
  split; [intros w Hs; auto|].
  intros w1 w2 w3 H12 H23 Hs. destruct (H12 Hs) as (Hs2 & Hf2 & Ho2).
  destruct (H23 Hs2) as (Hs3 & Hf3 & Ho3).
  split; [exact Hs3|]. split; congruence.
Qed.

Lemma settled_turned w : settled w (turned w).
Proof.
  intros Hs. destruct w as [f o ws en sc tr]. cbn in Hs. subst sc.
  repeat split; reflexivity.
Qed.

Lemma settled_noted a w : settled w (noted a w).
Proof. intros Hs. repeat split; assumption. Qed.

Ltac settled_call :=
  first [ apply keeps_ret | apply keeps_Infof | apply keeps_Stat
        | apply keeps_readDirNames ];
  try apply _; auto using settled_turned, settled_noted.

(** [processFile] on a regular file that is not a recording: the file is
    empty and skipped, or it lies where the path has no pod. *)
Lemma processFile_settled p content w :
  node_at (fs w) p = Some (File content) ->
  ~ (content <> [] /\
     exists rel,
       filepath.Rel rootProfileDir p = inl rel /\
       2 <= length (strings.Split rel PathSeparator)) ->
  settled w (daemon.processFile u p w).2.
Proof.
  intros Hnode Hnot Hs.
  destruct (filepath.Rel rootProfileDir p) as [rel|msg] eqn:Hrel.
  2:{ unfold daemon.processFile. rewrite Hrel. auto. }
  destruct (length (strings.Split rel PathSeparator) <? 2) eqn:Hlen.
  { unfold daemon.processFile. rewrite Hrel, Hlen. auto. }
  apply Nat.ltb_ge in Hlen.
  destruct content as [|b content].
  2:{ destruct Hnot. split; [discriminate|eauto]. }
  destruct (node_dirent _ _ _ Hnode) as (i & Hd).
  assert (Hi : inodes (fs w) !! i = Some (File [])).
  { unfold node_at in Hnode. rewrite Hd in Hnode. exact Hnode. }
  destruct w as [f objs ws en sc tr]. cbn in Hs, Hd, Hi. subst sc.
  unfold daemon.processFile. rewrite Hrel.
  destruct (length _ <? 2) eqn:Hlt; [apply Nat.ltb_lt in Hlt; lia|].
  unfold_calls. unfold os.stat_result, node_at, next_turn.
  cbn -[uploader.Upload filepath.Base strings.Split]. rewrite Hd.
  cbn -[uploader.Upload filepath.Base strings.Split]. rewrite Hi.
  cbn. auto.
Qed.

(** The callback on what [os.Stat] has just said of an entry. *)
Lemma scanFn_settled path name w n :
  is_name name = true ->
  script w = [] ->
  node_at (fs w) (below path [name]) = Some n ->
  (forall content, n = File content -> ~ recording_at (fs w) path [] name) ->
  settled w (scanFn u (below path [name])
               (Some (info_of (filepath.Base (below path [name])) n))
               None w).2.
Proof.
  intros Hname Hs Hnode Hnot. unfold scanFn.
  destruct n as [content|sz]; cbn [info_of IsDir Name negb andb];
    [|intros ?; auto].
  rewrite (Base_below _ _ Hname).
  destruct (strings.HasSuffix name ".jfr") eqn:Hsuf; [|intros ?; auto].
  rewrite !bind_eq.
  set (w1 := (logger.Infof "Found existing file: %s"
                [Str (below path [name])] w).2).
  assert (H1 : settled w1 (daemon.processFile u (below path [name]) w1).2).
  { apply (processFile_settled _ content); [exact Hnode|].
    intros (Hne & rel & Hrel & Hlen).
    apply (Hnot content eq_refl).
    split; [exact I|]. split; [exact Hname|]. split; [exact Hsuf|].
    cbn [app reach]. unfold node_at in Hnode.
    destruct (dirents (fs w) !! below path [name]) as [i|] eqn:Hd;
      [|discriminate].
    split; [exists i, content; auto|eauto]. }
  intros _. destruct (H1 Hs) as (Hs2 & Hf2 & Ho2).
  destruct (daemon.processFile u (below path [name]) w1).1;
    (split; [exact Hs2|split; [exact Hf2|exact Ho2]]).
Qed.

Lemma cleared_below f path e sz :
  is_name e = true ->
  node_at f (below path [e]) = Some (Dir sz) ->
  cleared f path -> cleared f (below path [e]).
Proof.
  intros He Hdir Hclear dirs name (Hdirs & Hrest).
  apply (Hclear (e :: dirs) name).
  split; [|exact Hrest]. split; [exact He|]. split; [eauto|exact Hdirs].
Qed.

Section scan_entries.

Variables (depth : nat) (path : string).

Hypothesis IH :
  forall path info w,
    script w = [] ->
    (exists syssize,
       node_at (fs w) path = Some (Dir syssize) /\
       info = info_of (filepath.Base path) (Dir syssize)) ->
    cleared (fs w) path ->
    settled w (walk depth path info (scanFn u) w).2.

Let loop := each_entry (λ p i, walk depth p i (scanFn u)) (scanFn u) path.

Lemma each_entry_settled names :
  Forall (λ n, is_name n = true) names ->
  forall w,
    script w = [] -> cleared (fs w) path -> settled w (loop names w).2.
Proof.
  induction 1 as [|e names He Hnames IHn]; intros w Hs Hclear; [reflexivity|].
  unfold loop. cbn [each_entry]. fold loop. rewrite bind_eq.
  destruct (Stat_quiet (below path [e]) w Hs) as (Hr & (Hf1 & Hs1 & _)).
  assert (Ho1 : objects (os.Stat (below path [e]) w).2 = objects w)
    by reflexivity.
  rewrite Hr. set (w1 := (os.Stat (below path [e]) w).2) in *.
  assert (H1 : settled w w1) by (intros _; auto).
  assert (Hnext : forall m : M (option error),
             settled w1 (m w1).2 ->
             settled w ((m ≫= λ err, match err with
                                     | Some err => mret (Some err)
                                     | None => loop names
                                     end) w1).2).
  { intros m Hstep. rewrite bind_eq.
    destruct (Hstep Hs1) as (Hs2 & Hf2 & Ho2).
    destruct (m w1) as [[err|] w2]; cbn [fst snd] in *.
    - etrans; [exact H1|exact Hstep].
    - etrans; [exact H1|]. etrans; [exact Hstep|].
      apply IHn; [exact Hs2|rewrite Hf2, Hf1; exact Hclear]. }
  destruct (node_at (fs w) (below path [e])) as [[content|sz]|] eqn:Hnode;
    apply Hnext.
  - rewrite walk_file by reflexivity.
    apply scanFn_settled; [exact He|exact Hs1|rewrite Hf1; exact Hnode|].
    intros c _. rewrite Hf1. apply Hclear.
  - apply IH; [exact Hs1| |].
    + exists sz. rewrite Hf1. auto.
    + rewrite Hf1. eapply cleared_below; eassumption.
  - intros ?. auto.
Qed.

End scan_entries.

Lemma walk_settled depth :
  forall path info w,
    script w = [] ->
    (exists syssize,
       node_at (fs w) path = Some (Dir syssize) /\
       info = info_of (filepath.Base path) (Dir syssize)) ->
    cleared (fs w) path ->
    settled w (walk depth path info (scanFn u) w).2.
Proof.
  induction depth as [|depth IH];
    intros path info w Hs (sz & Hnode & ->) Hclear;
    cbn [walk info_of IsDir negb]; rewrite bind_eq;
    destruct (readDirNames_quiet path w Hs) as (Hr & (Hf1 & Hs1 & _));
    assert (Ho1 : objects (readDirNames path w).2 = objects w)
      by reflexivity;
    rewrite Hr; set (w1 := (readDirNames path w).2) in *;
    assert (H1 : settled w w1) by (intros _; auto);
    cbn [error_of]; rewrite bind_eq;
    assert (Hfn : scanFn u path
                    (Some {| Name := filepath.Base path; Size := sz;
                             IsDir := true |}) None w1 = (None, w1))
      by reflexivity;
    rewrite Hfn; cbn [fst snd].
  - destruct (entries (fs w) path); exact H1.
  - etrans; [exact H1|].
    apply (each_entry_settled depth path IH);
      [apply entries_names|exact Hs1|rewrite Hf1; exact Hclear].
Qed.

(** A path that names something after calls of the daemon named it
    before. *)
Lemma pruned_dirent w w' p i :
  pruned u w w' -> script w = [] ->
  dirents (fs w') !! p = Some i -> dirents (fs w) !! p = Some i.
Proof.
  intros HR Hs Hd. destruct (HR Hs) as (_ & _ & _ & _ & Hp).
  destruct (Hp p) as [Hsame|(Hnone & _)]; congruence.
Qed.

Lemma pruned_dirs_back w w' path dirs :
  pruned u w w' -> script w = [] ->
  dirs_along (fs w') path dirs -> dirs_along (fs w) path dirs.
Proof.
  intros HR Hs. destruct (HR Hs) as (_ & Hino & _). revert path.
  induction dirs as [|d dirs IH]; intros path; [auto|].
  intros (Hn & (sz & Hdir) & Hrest).
  split; [exact Hn|]. split; [|apply IH, Hrest].
  exists sz. unfold node_at in *.
  destruct (dirents (fs w') !! below path [d]) as [i|] eqn:Hd; [|discriminate].
  rewrite (pruned_dirent _ _ _ _ HR Hs Hd). cbn in *. rewrite <- Hino.
  exact Hdir.
Qed.

Lemma pruned_recording_back w w' path dirs name :
  pruned u w w' -> script w = [] ->
  recording_at (fs w') path dirs name -> recording_at (fs w) path dirs name.
Proof.
  intros HR Hs (Hdirs & Hn & Hsuf & (i & content & Hd & Hi & Hne) & Hrel).
  destruct (HR Hs) as (_ & Hino & _).
  split; [eapply pruned_dirs_back; eassumption|].
  split; [exact Hn|]. split; [exact Hsuf|]. split; [|exact Hrel].
  exists i, content. split; [eapply pruned_dirent; eassumption|].
  rewrite <- Hino. auto.
Qed.

End second_scan.

(** X17.  A second scan finds nothing to do: in a quiet environment, right
    after a scan of the root that returned nil, another scan changes
    neither the local files nor the bucket; what the first one left (empty
    files, files of other names, files outside the pod directories) is
    looked at again and left again. *)
Theorem second_scan_changes_nothing depth u w :
  script w = [] ->
  (exists syssize, node_at (fs w) rootProfileDir = Some (Dir syssize)) ->
  (daemon.scanAndUploadExisting depth u rootProfileDir w).1 = None ->
  let w1 := (daemon.scanAndUploadExisting depth u rootProfileDir w).2 in
  let w2 := (daemon.scanAndUploadExisting depth u rootProfileDir w1).2 in
  fs w2 = fs w1 /\ objects w2 = objects w1.
Proof.
  intros Hs (sz & Hroot) Hres w1 w2.
  pose proof (scan_pruned u depth rootProfileDir w) as Hp.
  fold w1 in Hp. destruct (Hp Hs) as (Hs1 & _).
  assert (Hroot1 : node_at (fs w1) rootProfileDir = Some (Dir sz))
    by (eapply pruned_dir; eassumption).
  assert (Hclear : cleared (fs w1) rootProfileDir).
  { intros dirs name Hrec.
    pose proof (pruned_recording_back u _ _ _ _ _ Hp Hs Hrec) as Hrec0.
    assert (Hgone : dirents (fs w1) !! reach rootProfileDir (dirs ++ [name])
                    = None).
    { subst w1. rewrite scan_is_a_walk in Hres |- *.
      rewrite bind_eq in Hres |- *. unfold Walk in Hres |- *.
      rewrite bind_eq in Hres |- *.
      set (w0 := (logger.Infof "Scanning for existing .jfr files in %s"
                    [Str rootProfileDir] w).2) in *.
      assert (Hs0 : script w0 = []) by exact Hs.
      destruct (Stat_quiet rootProfileDir w0 Hs0) as (Hr & (Hf1 & Hs1' & _)).
      change (fs w0) with (fs w) in Hr, Hf1.
      rewrite Hr, Hroot in Hres |- *.
      apply walk_removes; [exact Hs1'| |exact Hres|rewrite Hf1; exact Hrec0].
      exists sz. rewrite Hf1. auto. }
    destruct Hrec as (_ & _ & _ & (i & content & Hd & _) & _). congruence. }
  assert (H2 : settled w1 w2).
  { subst w2. rewrite scan_is_a_walk. intros _. rewrite bind_eq.
    unfold Walk. rewrite bind_eq.
    set (w0 := (logger.Infof "Scanning for existing .jfr files in %s"
                  [Str rootProfileDir] w1).2) in *.
    assert (Hs0 : script w0 = []) by exact Hs1.
    destruct (Stat_quiet rootProfileDir w0 Hs0) as (Hr & (Hf1 & Hs1' & _)).
    change (fs w0) with (fs w1) in Hr, Hf1. rewrite Hr, Hroot1.
    set (w0' := (os.Stat rootProfileDir w0).2) in *.
    assert (Ho0 : objects w0' = objects w1) by reflexivity.
    destruct (walk_settled u depth rootProfileDir _ w0' Hs1'
                ltac:(exists sz; rewrite Hf1; auto)
                ltac:(rewrite Hf1; exact Hclear) Hs1')
      as (Hs2 & Hf2 & Ho2).
    split; [exact Hs2|]. split; congruence. }
  destruct (H2 Hs1) as (_ & Hf & Ho). auto.
Qed.

Lemma second_scan_witness :
  script busy_world = [] /\
  fs (daemon.scanAndUploadExisting 3 demo_uploader rootProfileDir
        (daemon.scanAndUploadExisting 3 demo_uploader rootProfileDir
           busy_world).2).2
  = fs (daemon.scanAndUploadExisting 3 demo_uploader rootProfileDir
          busy_world).2 /\
  objects (daemon.scanAndUploadExisting 3 demo_uploader rootProfileDir
             (daemon.scanAndUploadExisting 3 demo_uploader rootProfileDir
                busy_world).2).2
  = objects (daemon.scanAndUploadExisting 3 demo_uploader rootProfileDir
               busy_world).2.
Proof.
  split; [reflexivity|].
  apply (second_scan_changes_nothing 3 demo_uploader busy_world);
    [reflexivity|exists 4096; vm_compute; reflexivity
    |vm_compute; reflexivity].
Defined.

(** * The API server *)

(** ** Numbers and their digits *)

Section numbers.

Local Open Scope Z_scope.

Lemma digit_of_N (d : N) :
  (d < 10)%N -> strconv.digit (ascii_of_N (48 + d)) = Some (Z.of_N d).
Proof.
  intros Hd. unfold strconv.digit.
  rewrite N_ascii_embedding by lia.
  assert (H1 : (48 <=? Z.of_N (48 + d)) = true) by (apply Z.leb_le; lia).
  assert (H2 : (Z.of_N (48 + d) <=? 57) = true) by (apply Z.leb_le; lia).
  rewrite H1, H2. cbn [andb]. f_equal. lia.
Qed.

Lemma small_app a b n :
  strconv.small (a +:+ b) n
  = match strconv.small a n with
    | Some v => strconv.small b v
    | None => None
    end.
Proof.
  revert n. induction a as [|c a IH]; intros n; [reflexivity|].
  rewrite app_String. cbn [strconv.small].
  destruct (strconv.digit c); [apply IH|reflexivity].
Qed.

Lemma parse_uint_app a b n :
  strconv.parse_uint (a +:+ b) n
  = match strconv.parse_uint a n with
    | Ok v => strconv.parse_uint b v
    | Err e => Err e
    end.
Proof.
  revert n. induction a as [|c a IH]; intros n; [reflexivity|].
  rewrite app_String. cbn [strconv.parse_uint].
  destruct (strconv.digit c); [|reflexivity].
  repeat match goal with |- context [if ?x then _ else _] => destruct x end;
    auto.
Qed.

Lemma digits_unfold fuel (n : N) :
  strconv.digits (S fuel) n
  = if (n <? 10)%N then String (ascii_of_N (48 + n mod 10)) ""
    else strconv.digits fuel (n / 10)
         +:+ String (ascii_of_N (48 + n mod 10)) "".
Proof. reflexivity. Qed.

Lemma div10_lt fuel (n : N) :
  (n < 10 ^ N.of_nat (S fuel))%N -> (n / 10 < 10 ^ N.of_nat fuel)%N.
Proof.
  intros H. apply N.Div0.div_lt_upper_bound.
  rewrite Nat2N.inj_succ, N.pow_succ_r' in H. exact H.
Qed.

(** The digits of a number are digits, and there is at least one. *)
Lemma digits_all fuel :
  forall n : N, (n < 10 ^ N.of_nat (S fuel))%N ->
    all_digits (strconv.digits (S fuel) n) = true /\
    strconv.digits (S fuel) n <> "".
Proof.
  induction fuel as [|fuel IH]; intros n Hn; rewrite digits_unfold.
  { assert (Hlt : (n <? 10)%N = true) by (apply N.ltb_lt; exact Hn).
    rewrite Hlt. cbn [all_digits]. unfold is_digit.
    rewrite digit_of_N by (apply N.mod_lt; discriminate).
    split; [reflexivity|discriminate]. }
  assert (Hd : is_digit (ascii_of_N (48 + n mod 10)) = true).
  { unfold is_digit. rewrite digit_of_N; [reflexivity|].
    apply N.mod_lt. discriminate. }
  destruct (n <? 10)%N eqn:Hlt.
  - cbn [all_digits]. rewrite Hd. split; [reflexivity|discriminate].
  - destruct (IH (n / 10)%N (div10_lt _ _ Hn)) as (Hall & Hne).
    split.
    + clear -Hall Hd.
      induction (strconv.digits (S fuel) (n / 10)) as [|c s IHs].
      * rewrite app_Empty. cbn [all_digits]. rewrite Hd. reflexivity.
      * rewrite app_String. cbn [all_digits] in Hall |- *.
        apply andb_true_iff in Hall as (-> & Hs). apply IHs, Hs.
    + destruct (strconv.digits (S fuel) (n / 10));
        [congruence|discriminate].
Qed.

(** Reading the digits of a number gives the number back: the loop of the
    fast path of [Atoi]. *)
Lemma small_digits fuel :
  forall n : N, (n < 10 ^ N.of_nat (S fuel))%N ->
    strconv.small (strconv.digits (S fuel) n) 0 = Some (Z.of_N n).
Proof.
  induction fuel as [|fuel IH]; intros n Hn; rewrite digits_unfold;
    assert (Hmod : (n mod 10 < 10)%N) by (apply N.mod_lt; discriminate).
  { assert (Hlt : (n < 10)%N) by exact Hn.
    rewrite (proj2 (N.ltb_lt _ _) Hlt). cbn [strconv.small].
    rewrite digit_of_N by exact Hmod. rewrite N.mod_small by exact Hlt.
    f_equal. }
  destruct (n <? 10)%N eqn:Hlt.
  - apply N.ltb_lt in Hlt. cbn [strconv.small].
    rewrite digit_of_N by exact Hmod. rewrite N.mod_small by exact Hlt.
    f_equal.
  - rewrite small_app, (IH _ (div10_lt _ _ Hn)). cbn [strconv.small].
    rewrite digit_of_N by exact Hmod. f_equal.
    rewrite (N.div_mod n 10) at 3 by discriminate. lia.
Qed.

(** The same for the loop of [ParseUint], below 64 bits. *)
Lemma single_digit (n : N) :
  (n < 10)%N ->
  strconv.parse_uint (String (ascii_of_N (48 + n mod 10)) "") 0
  = Ok (Z.of_N n).
Proof.
  intros Hlt. cbn [strconv.parse_uint].
  rewrite digit_of_N by (apply N.mod_lt; discriminate).
  rewrite N.mod_small by exact Hlt. unfold strconv.maxUint64.
  change (18446744073709551615 / 10 + 1) with 1844674407370955162.
  destruct (_ <=? 0) eqn:H1; [apply Z.leb_le in H1; lia|].
  destruct (_ <? 0 * 10 + Z.of_N n) eqn:H2; [apply Z.ltb_lt in H2; lia|].
  f_equal.
Qed.

Lemma parse_uint_digits fuel :
  forall n : N, (n < 10 ^ N.of_nat (S fuel))%N ->
    Z.of_N n <= strconv.maxUint64 ->
    strconv.parse_uint (strconv.digits (S fuel) n) 0 = Ok (Z.of_N n).
Proof.
  induction fuel as [|fuel IH]; intros n Hn Hmax; rewrite digits_unfold;
    assert (Hmod : (n mod 10 < 10)%N) by (apply N.mod_lt; discriminate);
    pose proof (N.div_mod n 10 ltac:(discriminate)) as Hdm;
    unfold strconv.maxUint64 in *.
  { assert (Hlt : (n < 10)%N) by exact Hn.
    rewrite (proj2 (N.ltb_lt _ _) Hlt). apply single_digit, Hlt. }
  destruct (n <? 10)%N eqn:Hlt.
  - apply N.ltb_lt in Hlt. apply single_digit, Hlt.
  - assert (Hdiv : (n / 10 <= n)%N) by (apply N.Div0.div_le_upper_bound; lia).
    rewrite parse_uint_app, (IH _ (div10_lt _ _ Hn)) by lia.
    clear IH Hn Hdiv Hlt.
    cbn [strconv.parse_uint]. rewrite digit_of_N by exact Hmod.
    generalize dependent (n / 10)%N. generalize dependent (n mod 10)%N.
    intros r Hr q Hq.
    unfold strconv.maxUint64.
    change (18446744073709551615 / 10 + 1) with 1844674407370955162.
    destruct (1844674407370955162 <=? Z.of_N q) eqn:H1;
      [apply Z.leb_le in H1; lia|].
    destruct (18446744073709551615 <? Z.of_N q * 10 + Z.of_N r) eqn:H2;
      [apply Z.ltb_lt in H2; lia|].
    f_equal. lia.
Qed.

Lemma fuel_suffices (n : N) :
  (n < 10 ^ N.of_nat (S (N.to_nat (N.log2 n))))%N.
Proof.
  rewrite Nat2N.inj_succ, N2Nat.id.
  destruct (N.eq_dec n 0%N) as [->|Hne]; [cbn; lia|].
  pose proof (N.log2_spec n ltac:(lia)) as (_ & Hlt).
  eapply N.lt_le_trans; [exact Hlt|].
  apply N.pow_le_mono_l. lia.
Qed.

Lemma Itoa_digits (n : Z) :
  0 <= n ->
  strconv.Itoa n
  = strconv.digits (S (N.to_nat (N.log2 (Z.to_N n)))) (Z.to_N n).
Proof.
  intros Hn. unfold strconv.Itoa.
  destruct (n <? 0) eqn:Hneg; [apply Z.ltb_lt in Hneg; lia|].
  rewrite Z.abs_eq by exact Hn. reflexivity.
Qed.

Lemma Itoa_all_digits (n : Z) :
  0 <= n -> all_digits (strconv.Itoa n) = true /\ strconv.Itoa n <> "".
Proof.
  intros Hn. rewrite (Itoa_digits n Hn). apply digits_all, fuel_suffices.
Qed.

Lemma pick_sign_digits s :
  all_digits s = true -> strconv.pick_sign s = (false, s).
Proof.
  destruct s as [|c s]; [reflexivity|]. cbn [all_digits].
  intros H. apply andb_true_iff in H as (Hc & _).
  unfold strconv.pick_sign.
  destruct c as [[] [] [] [] [] [] [] []]; try reflexivity; discriminate.
Qed.

(** [Atoi] reads back what [Itoa] wrote. *)
Lemma Atoi_Itoa (n : Z) :
  0 <= n < 2 ^ 63 -> strconv.Atoi (strconv.Itoa n) = Ok n.
Proof.
  intros (Hn & Hmax).
  destruct (Itoa_all_digits n Hn) as (Hall & Hne).
  pose proof (Itoa_digits n Hn) as Hd.
  pose proof (fuel_suffices (Z.to_N n)) as Hfuel.
  unfold strconv.Atoi.
  destruct (_ && _).
  - rewrite (pick_sign_digits _ Hall).
    destruct (String.length (strconv.Itoa n) <? 1)%nat eqn:Hlen.
    { apply Nat.ltb_lt in Hlen.
      destruct (strconv.Itoa n); [congruence|cbn in Hlen; lia]. }
    rewrite Hd, (small_digits _ _ Hfuel), Z2N.id by exact Hn. reflexivity.
  - unfold strconv.ParseInt.
    destruct (String.eqb (strconv.Itoa n) "") eqn:He;
      [apply String.eqb_eq in He; congruence|].
    rewrite (pick_sign_digits _ Hall). unfold strconv.ParseUint. rewrite He.
    rewrite Hd, (parse_uint_digits _ _ Hfuel), Z2N.id
      by (try rewrite Z2N.id by exact Hn; unfold strconv.maxUint64; lia).
    cbn [negb andb].
    destruct (2 ^ 63 <=? n) eqn:H1; [apply Z.leb_le in H1; lia|].
    reflexivity.
Qed.

End numbers.

(** ** Spaces around a number *)

Section spaces.

Lemma is_digit_spec c :
  is_digit c = true <-> (48 <= N_of_ascii c <= 57)%N.
Proof.
  unfold is_digit, strconv.digit.
  destruct (_ && _)%bool eqn:E.
  - apply andb_true_iff in E as (E1 & E2). split; [|reflexivity].
    intros _. lia.
  - split; [discriminate|]. intros H.
    apply andb_false_iff in E as [E|E]; lia.
Qed.

Lemma asciiSpace_spec c :
  asciiSpace c = true
  <-> (9 <= N_of_ascii c <= 13 \/ N_of_ascii c = 32)%N.
Proof.
  unfold asciiSpace. cbv zeta.
  rewrite orb_true_iff, andb_true_iff, N.eqb_eq, !N.leb_le. tauto.
Qed.

Lemma digit_no_space c : is_digit c = true -> asciiSpace c = false.
Proof.
  intros Hc%is_digit_spec. apply not_true_is_false.
  intros Hs%asciiSpace_spec. lia.
Qed.

(** The encoding of a space beyond ASCII has no byte below 128. *)
Lemma space2_high c1 c2 :
  space2 c1 c2 = true -> (128 <= N_of_ascii c1 /\ 128 <= N_of_ascii c2)%N.
Proof.
  unfold space2. cbv zeta.
  rewrite andb_true_iff, orb_true_iff, !N.eqb_eq. lia.
Qed.

Lemma space3_high c1 c2 c3 :
  space3 c1 c2 c3 = true ->
  (128 <= N_of_ascii c1 /\ 128 <= N_of_ascii c2 /\ 128 <= N_of_ascii c3)%N.
Proof.
  unfold space3. cbv zeta.
  rewrite !orb_true_iff, !andb_true_iff, !orb_true_iff, !andb_true_iff,
    !N.eqb_eq, !N.leb_le.
  lia.
Qed.

Lemma digit_leads_no_space c :
  is_digit c = true ->
  (forall c2, space2 c c2 = false) /\
  (forall c2 c3, space3 c c2 c3 = false).
Proof.
  intros Hc%is_digit_spec. split; intros; apply not_true_is_false.
  - intros H%space2_high. lia.
  - intros H%space3_high. lia.
Qed.

Lemma Contains_append a b c :
  strings.Contains (a +:+ b) c = strings.Contains a c || strings.Contains b c.
Proof.
  induction a as [|x a IH]; [reflexivity|].
  rewrite app_String. cbn [strings.Contains]. rewrite IH.
  apply orb_assoc.
Qed.

Lemma differ c c' : N_of_ascii c <> N_of_ascii c' -> Ascii.eqb c c' = false.
Proof. intros H. apply Ascii.eqb_neq. congruence. Qed.

(** No space holds a digit. *)
Lemma is_space_no_digit s d :
  is_space s = true -> is_digit d = true -> strings.Contains s d = false.
Proof.
  intros Hs Hd%is_digit_spec.
  destruct s as [|c1 [|c2 [|c3 [|c4 s]]]]; cbn [is_space] in Hs;
    try discriminate; cbn [strings.Contains].
  - apply asciiSpace_spec in Hs. rewrite differ by lia. reflexivity.
  - apply space2_high in Hs. rewrite !differ by lia. reflexivity.
  - apply space3_high in Hs. rewrite !differ by lia. reflexivity.
Qed.

Lemma digits_no_space x t :
  all_digits t = true -> t <> "" -> is_space (x +:+ t) = false.
Proof.
  intros Ht Hne. destruct t as [|d t]; [congruence|].
  cbn [all_digits] in Ht. apply andb_true_iff in Ht as (Hd & _).
  apply not_true_is_false. intros Hs.
  pose proof (is_space_no_digit _ d Hs Hd) as Hc.
  rewrite Contains_append in Hc. cbn [strings.Contains] in Hc.
  rewrite Ascii.eqb_refl, orb_true_r in Hc. discriminate.
Qed.

Lemma trim_left_app s t :
  all_digits s = true -> s <> "" -> trim_left (s +:+ t) = s +:+ t.
Proof.
  destruct s as [|c s]; [congruence|]. cbn [all_digits].
  intros H _. apply andb_true_iff in H as (Hc & _).
  destruct (digit_leads_no_space c Hc) as (H2 & H3).
  rewrite app_String. cbn [trim_left]. rewrite (digit_no_space _ Hc).
  destruct (s +:+ t) as [|c2 [|c3 r]]; rewrite ?H2, ?H3; reflexivity.
Qed.

Lemma trim_right_app a b :
  (forall x, is_space (x +:+ trim_right b) = false) ->
  trim_right (a +:+ b) = a +:+ trim_right b.
Proof.
  intros Hb. induction a as [|c a IH]; [reflexivity|].
  rewrite !app_String. cbn [trim_right]. rewrite IH.
  rewrite <- app_String, Hb. reflexivity.
Qed.

Lemma trim_right_digits s : all_digits s = true -> trim_right s = s.
Proof.
  induction s as [|c s IH]; [reflexivity|]. cbn [all_digits trim_right].
  intros H. apply andb_true_iff in H as (Hc & Hs). rewrite (IH Hs).
  destruct (is_space _) eqn:Esp; [|reflexivity].
  pose proof (is_space_no_digit _ c Esp Hc) as Hcon.
  cbn [strings.Contains] in Hcon.
  rewrite Ascii.eqb_refl in Hcon. discriminate.
Qed.

Lemma trim_right_spaces a b :
  trim_right b = "" -> trim_right (a +:+ b) = trim_right a.
Proof.
  intros Hb. induction a as [|c a IH]; [exact Hb|].
  rewrite app_String. cbn [trim_right]. rewrite IH. reflexivity.
Qed.

(** One number on a line. *)
Lemma TrimSpace_line s :
  all_digits s = true -> s <> "" -> TrimSpace (s +:+ LF) = s.
Proof.
  intros Hs Hne. unfold TrimSpace. rewrite (trim_left_app _ _ Hs Hne).
  rewrite trim_right_spaces by reflexivity. apply trim_right_digits, Hs.
Qed.

(** Two numbers on two lines. *)
Lemma TrimSpace_lines s t :
  all_digits s = true -> s <> "" -> all_digits t = true -> t <> "" ->
  TrimSpace (s +:+ LF +:+ t +:+ LF) = s +:+ LF +:+ t.
Proof.
  intros Hs Hne Ht Hne'. unfold TrimSpace. rewrite (trim_left_app _ _ Hs Hne).
  assert (H1 : trim_right (t +:+ LF) = t).
  { rewrite trim_right_spaces by reflexivity. apply trim_right_digits, Ht. }
  rewrite <- append_assoc.
  rewrite trim_right_app; rewrite H1.
  - apply append_assoc.
  - intros x. apply digits_no_space; assumption.
Qed.

Lemma length_digits_line s t :
  all_digits s = true -> s <> "" ->
  strconv.pick_sign (s +:+ t) = (false, s +:+ t) /\
  (String.length (s +:+ t) <? 1) = false /\
  String.eqb (s +:+ t) "" = false.
Proof.
  destruct s as [|c s]; [congruence|]. cbn [all_digits]. intros H _.
  apply andb_true_iff in H as (Hc & _). rewrite app_String.
  split; [|split; reflexivity].
  unfold strconv.pick_sign.
  destruct c as [[] [] [] [] [] [] [] []]; try reflexivity; discriminate.
Qed.

(** A line feed inside is a syntax error. *)
Lemma Atoi_lines (n : Z) t :
  (0 <= n < 2 ^ 63)%Z ->
  strconv.Atoi (strconv.Itoa n +:+ LF +:+ t)
  = Err (strconv.NumError "Atoi" (strconv.Itoa n +:+ LF +:+ t)
           strconv.ErrSyntax).
Proof.
  intros (Hn & Hmax).
  destruct (Itoa_all_digits n Hn) as (Hall & Hne).
  pose proof (Itoa_digits n Hn) as Hd.
  pose proof (fuel_suffices (Z.to_N n)) as Hfuel.
  destruct (length_digits_line _ (LF +:+ t) Hall Hne) as (Hsign & Hlen & He).
  unfold strconv.Atoi. rewrite Hsign, Hlen.
  destruct (_ && _).
  - rewrite small_app, Hd, (small_digits _ _ Hfuel). reflexivity.
  - unfold strconv.ParseInt. rewrite He, Hsign. unfold strconv.ParseUint.
    rewrite He, parse_uint_app, Hd, (parse_uint_digits _ _ Hfuel)
      by (rewrite Z2N.id by exact Hn; unfold strconv.maxUint64; lia).
    reflexivity.
Qed.

End spaces.

(** ** The PID of the Java process *)

Section the_pid.

Lemma H_bind_eq {A B} (m : api.H A) (k : A -> api.H B) h :
  (m ≫= k) h = k (m h).1 (m h).2.
Proof. unfold mbind, api.H_bind. destruct (m h). reflexivity. Qed.

Lemma getJavaPID_frame h :
  api.statuses (api.getJavaPID h).2 = api.statuses h /\
  api.encoded (api.getJavaPID h).2 = api.encoded h /\
  api.header (api.getJavaPID h).2 = api.header h /\
  api.clock (api.getJavaPID h).2 = api.clock h /\
  api.ran (api.getJavaPID h).2 = api.ran h ++ [pgrep] /\
  api.execs (api.getJavaPID h).2 = tl (api.execs h).
Proof.
  unfold api.getJavaPID, api.CombinedOutput, api.Log.
  unfold mbind, api.H_bind, mret, api.H_ret.
  destruct (hd _ (api.execs h)) as [output [err|]]; cbn; [auto 6|].
  destruct (String.eqb _ ""); cbn; [auto 6|].
  destruct (strconv.Atoi _); cbn; auto 6.
Qed.

Lemma getJavaPID_result h :
  (api.getJavaPID h).1
  = match hd ("", None) (api.execs h) with
    | (_, Some err) => Err (Errorf "no Java process found: %v" [Val err])
    | (output, None) =>
        if String.eqb (TrimSpace output) "" then
          Err (Errorf "no Java process found" [])
        else
          match strconv.Atoi (TrimSpace output) with
          | Err err => Err (Errorf "invalid PID: %v" [Val err])
          | Ok pid => Ok pid
          end
    end.
Proof.
  unfold api.getJavaPID, api.CombinedOutput, api.Log.
  unfold mbind, api.H_bind, mret, api.H_ret.
  destruct (hd _ (api.execs h)) as [output [err|]]; cbn; [reflexivity|].
  destruct (String.eqb _ ""); cbn; [reflexivity|].
  destruct (strconv.Atoi _); reflexivity.
Qed.

(** The PID printed is the PID read. *)
Lemma getJavaPID_Ok (pid : Z) rest h :
  (0 <= pid < 2 ^ 63)%Z ->
  api.execs h = (strconv.Itoa pid +:+ LF, None) :: rest ->
  (api.getJavaPID h).1 = Ok pid.
Proof.
  intros Hpid Hexecs.
  destruct (Itoa_all_digits pid (proj1 Hpid)) as (Hall & Hne).
  rewrite getJavaPID_result, Hexecs. cbn [hd].
  rewrite (TrimSpace_line _ Hall Hne).
  destruct (String.eqb (strconv.Itoa pid) "") eqn:E;
    [apply String.eqb_eq in E; congruence|].
  rewrite (Atoi_Itoa pid Hpid). reflexivity.
Qed.

End the_pid.

(** X18.  [getJavaPID] reads back the PID that [pgrep] printed: when the
    command succeeds and prints the decimal digits of a PID and a line
    feed, the function returns that PID (trimming and [strconv.Atoi] undo
    the printing, as [strconv.Itoa] would write it), having run [pgrep -x
    java] and nothing else, and having written nothing to the response. *)
Theorem getJavaPID_reads_the_PID_printed (pid : Z) rest h :
  (0 <= pid < 2 ^ 63)%Z ->
  api.execs h = (strconv.Itoa pid +:+ LF, None) :: rest ->
  (api.getJavaPID h).1 = Ok pid /\
  api.ran (api.getJavaPID h).2 = api.ran h ++ [["pgrep"; "-x"; "java"]] /\
  api.execs (api.getJavaPID h).2 = rest /\
  api.statuses (api.getJavaPID h).2 = api.statuses h /\
  api.encoded (api.getJavaPID h).2 = api.encoded h.
Proof.
  intros Hpid Hexecs.
  destruct (getJavaPID_frame h) as (Hs & He & _ & _ & Hr & Hx).
  split; [exact (getJavaPID_Ok pid rest h Hpid Hexecs)|].
  rewrite Hx, Hexecs; auto.
Qed.

Lemma one_java_witness :
  (api.getJavaPID java_host).1 = Ok 4711%Z /\
  api.ran (api.getJavaPID java_host).2 = [["pgrep"; "-x"; "java"]].
Proof.
  destruct (getJavaPID_reads_the_PID_printed 4711
              [("Started recording 1.", None)] java_host)
    as (Hr & Hran & _); [lia|reflexivity|].
  split; [exact Hr|exact Hran].
Defined.

(** X19.  With more than one Java process there is no PID: when [pgrep]
    prints two PIDs on two lines, [getJavaPID] fails with [invalid PID]
    (the line feed between them is a syntax error for [strconv.Atoi]), and
    so does every request that needs the PID: [listRunningJFRHandler]
    answers 500 and runs no [jcmd]. *)
Theorem two_java_processes_are_an_invalid_PID (pid pid' : Z) rest h
  (r : api.Request unit) :
  (0 <= pid < 2 ^ 63)%Z -> (0 <= pid')%Z ->
  api.execs h
  = (strconv.Itoa pid +:+ LF +:+ strconv.Itoa pid' +:+ LF, None) :: rest ->
  api.Method r = "GET" ->
  (api.getJavaPID h).1
  = Err (Errorf "invalid PID: %v"
           [Val (strconv.NumError "Atoi"
                   (strconv.Itoa pid +:+ LF +:+ strconv.Itoa pid')
                   strconv.ErrSyntax)]) /\
  api.statuses (api.listRunningJFRHandler r h).2 = api.statuses h ++ [500] /\
  api.ran (api.listRunningJFRHandler r h).2
  = api.ran h ++ [["pgrep"; "-x"; "java"]].
Proof.
  intros Hpid Hpid' Hexecs Hget.
  destruct (Itoa_all_digits pid (proj1 Hpid)) as (Hall & Hne).
  destruct (Itoa_all_digits pid' Hpid') as (Hall' & Hne').
  assert (Hres : (api.getJavaPID h).1
                 = Err (Errorf "invalid PID: %v"
                          [Val (strconv.NumError "Atoi"
                                  (strconv.Itoa pid +:+ LF +:+
                                   strconv.Itoa pid')
                                  strconv.ErrSyntax)])).
  { rewrite getJavaPID_result, Hexecs. cbn [hd].
    rewrite (TrimSpace_lines _ _ Hall Hne Hall' Hne').
    destruct (length_digits_line _ (LF +:+ strconv.Itoa pid') Hall Hne)
      as (_ & _ & ->).
    rewrite (Atoi_lines pid _ Hpid). reflexivity. }
  split; [exact Hres|].
  destruct (getJavaPID_frame h) as (Hs & _ & _ & _ & Hr & _).
  unfold api.listRunningJFRHandler. rewrite Hget.
  change (negb (String.eqb "GET" api.MethodGet)) with false. cbn iota.
  rewrite H_bind_eq, Hres. cbn. rewrite Hs, Hr. auto.
Qed.

Lemma two_java_witness :
  api.statuses (api.listRunningJFRHandler
                  {| api.Method := "GET"; api.Body := Ok tt |}
                  crowded_host).2 = [500] /\
  api.ran (api.listRunningJFRHandler
             {| api.Method := "GET"; api.Body := Ok tt |} crowded_host).2
  = [["pgrep"; "-x"; "java"]].
Proof.
  destruct (two_java_processes_are_an_invalid_PID 4711 4712 [] crowded_host
              {| api.Method := "GET"; api.Body := Ok tt |})
    as (_ & Hs & Hr); [lia|lia|reflexivity|reflexivity|].
  split; [exact Hs|exact Hr].
Defined.

(** ** One answer to every request *)

Section answers.

Lemma sendJSON_answered h0 h status resp :
  api.statuses h = api.statuses h0 -> api.encoded h = api.encoded h0 ->
  api.Success resp = (status =? 200) ->
  answered h0 (api.sendJSON status resp h).2 status resp.
Proof.
  intros Hs He Hok. unfold answered. cbn. rewrite Hs, He.
  split; [reflexivity|]. split; [reflexivity|].
  split; [apply lookup_insert_eq|exact Hok].
Qed.

Lemma sendJSON_frame status resp h :
  api.ran (api.sendJSON status resp h).2 = api.ran h /\
  api.execs (api.sendJSON status resp h).2 = api.execs h.
Proof. split; reflexivity. Qed.

Lemma status_listed (s : nat) :
  s = 200 \/ s = 400 \/ s = 405 \/ s = 500 -> s ∈ [200; 400; 405; 500].
Proof.
  rewrite !elem_of_cons. tauto.
Qed.

Lemma drop_one {A} (l : list A) : drop 1 l = tl l.
Proof. destruct l; reflexivity. Qed.

Lemma drop_two {A} (l : list A) : drop 2 l = tl (tl l).
Proof. destruct l as [|? []]; reflexivity. Qed.

(** What follows the search for the PID in the three handlers that need
    it: the failure is answered, or a [jcmd] is run on the PID and its
    outcome is answered. *)
Lemma with_the_PID sub args (failed : error -> string -> api.Response)
  (done : Z -> string -> api.Response) (before : Z -> api.H unit) h0 h :
  api.statuses h = api.statuses h0 -> api.encoded h = api.encoded h0 ->
  api.ran h = api.ran h0 -> api.execs h = api.execs h0 ->
  (forall err out, api.Success (failed err out) = false) ->
  (forall pid out, api.Success (done pid out) = true) ->
  (forall pid h1,
     api.statuses (before pid h1).2 = api.statuses h1 /\
     api.encoded (before pid h1).2 = api.encoded h1 /\
     api.ran (before pid h1).2 = api.ran h1 /\
     api.execs (before pid h1).2 = api.execs h1) ->
  let m :=
    r ← api.getJavaPID;
    match r with
    | Err err =>
        api.sendJSON api.StatusInternalServerError
          {| api.Success := false;
             api.Message := api.Sprintf "Failed to find Java process: %v"
                              [Val err];
             api.Data := None |}
    | Ok pid =>
        before pid;;
        r ← api.CombinedOutput ("jcmd" :: strconv.Itoa pid :: sub :: args pid);
        let '(output, err) := r in
        match err with
        | Some err =>
            api.sendJSON api.StatusInternalServerError (failed err output)
        | None => api.sendJSON api.StatusOK (done pid output)
        end
    end in
  exists status resp cmds,
    answered h0 (m h).2 status resp /\
    api.ran (m h).2 = api.ran h0 ++ cmds /\
    api.execs (m h).2 = drop (length cmds) (api.execs h0) /\
    ((cmds = [pgrep] /\ status = 500 /\
      exists err, (api.getJavaPID h).1 = Err err) \/
     (exists pid,
        cmds = [pgrep; "jcmd" :: strconv.Itoa pid :: sub :: args pid] /\
        (api.getJavaPID h).1 = Ok pid /\
        (status = 200 \/ status = 500))).
Proof.
  intros Hs He Hr Hx Hfailed Hdone Hbefore m. subst m.
  destruct (getJavaPID_frame h) as (Hs1 & He1 & _ & _ & Hr1 & Hx1).
  rewrite H_bind_eq.
  destruct (api.getJavaPID h).1 as [pid|err] eqn:Hpid.
  - rewrite H_bind_eq.
    destruct (Hbefore pid (api.getJavaPID h).2) as (Hs2 & He2 & Hr2 & Hx2).
    set (h2 := (before pid (api.getJavaPID h).2).2) in *.
    rewrite H_bind_eq.
    match goal with
    | |- context [api.CombinedOutput ?c h2] =>
        assert (Hs3 : api.statuses (api.CombinedOutput c h2).2
                      = api.statuses h2) by reflexivity;
        assert (He3 : api.encoded (api.CombinedOutput c h2).2
                      = api.encoded h2) by reflexivity;
        assert (Hr3 : api.ran (api.CombinedOutput c h2).2
                      = api.ran h2 ++ [c]) by reflexivity;
        assert (Hx3 : api.execs (api.CombinedOutput c h2).2
                      = tl (api.execs h2)) by reflexivity;
        set (h3 := (api.CombinedOutput c h2).2) in *;
        destruct (api.CombinedOutput c h2).1 as [output [err|]]
    end.
    + eexists 500, _, [pgrep; "jcmd" :: strconv.Itoa pid :: sub :: args pid].
      split.
      * apply sendJSON_answered; [congruence|congruence|apply Hfailed].
      * cbn [length]. rewrite drop_two.
        rewrite (proj1 (sendJSON_frame _ _ _)), (proj2 (sendJSON_frame _ _ _)).
        rewrite Hr3, Hr2, Hr1, Hr, Hx3, Hx2, Hx1, Hx, <- app_assoc.
        split; [reflexivity|]. split; [reflexivity|]. right. eauto.
    + eexists 200, _, [pgrep; "jcmd" :: strconv.Itoa pid :: sub :: args pid].
      split.
      * apply sendJSON_answered; [congruence|congruence|apply Hdone].
      * cbn [length]. rewrite drop_two.
        rewrite (proj1 (sendJSON_frame _ _ _)), (proj2 (sendJSON_frame _ _ _)).
        rewrite Hr3, Hr2, Hr1, Hr, Hx3, Hx2, Hx1, Hx, <- app_assoc.
        split; [reflexivity|]. split; [reflexivity|]. right. eauto.
  - eexists 500, _, [pgrep]. split.
    + apply sendJSON_answered; [congruence|congruence|reflexivity].
    + cbn [length]. rewrite drop_one.
      rewrite (proj1 (sendJSON_frame _ _ _)), (proj2 (sendJSON_frame _ _ _)).
      rewrite Hr1, Hr, Hx1, Hx.
      split; [reflexivity|]. split; [reflexivity|]. left. eauto.
Qed.

Lemma refused h status resp :
  api.Success resp = (status =? 200) -> status = 405 \/ status = 400 ->
  exists status' resp' cmds,
    answered h (api.sendJSON status resp h).2 status' resp' /\
    api.ran (api.sendJSON status resp h).2 = api.ran h ++ cmds /\
    api.execs (api.sendJSON status resp h).2
    = drop (length cmds) (api.execs h) /\
    (cmds = [] /\ (status' = 405 \/ status' = 400)).
Proof.
  intros Hok Hst. exists status, resp, []. split.
  - apply sendJSON_answered; auto.
  - cbn. rewrite app_nil_r. auto.
Qed.

Lemma listRunning_commands {A} (r : api.Request A) :
  runs_its_commands "JFR.check" (api.listRunningJFRHandler r).
Proof.
  intros h. unfold api.listRunningJFRHandler.
  destruct (negb _).
  { destruct (refused h 405 {| api.Success := false;
                              api.Message := api.Lit "Method not allowed";
                              api.Data := None |} eq_refl (or_introl eq_refl))
      as (s & resp & cmds & Ha & Hr & Hx & Hc). eauto 10. }
  destruct (with_the_PID "JFR.check" (λ _, [])
              (λ err output,
                 {| api.Success := false;
                    api.Message :=
                      api.Sprintf
                        "Failed to check JFR recordings: %v, output: %s"
                        [Val err; Str output];
                    api.Data := None |})
              (λ pid output,
                 {| api.Success := true;
                    api.Message :=
                      api.Lit "JFR recordings retrieved successfully";
                    api.Data := Some {[ "pid" := strconv.Itoa pid;
                                        "output" := output ]} |})
              (λ _, mret tt) h h eq_refl eq_refl eq_refl eq_refl
              ltac:(reflexivity) ltac:(reflexivity) ltac:(cbn; auto))
    as (s & resp & cmds & Ha & Hr & Hx & Hc).
  exists s, resp, cmds. split; [exact Ha|]. split; [exact Hr|].
  split; [exact Hx|]. right.
  destruct Hc as [Hc|(pid & Hc)]; [left; exact Hc|right; eauto].
Qed.

Lemma stop_commands (r : api.Request api.StopRequest) :
  runs_its_commands "JFR.stop" (api.stopProfileHandler r).
Proof.
  intros h. unfold api.stopProfileHandler.
  destruct (negb _).
  { destruct (refused h 405 {| api.Success := false;
                              api.Message := api.Lit "Method not allowed";
                              api.Data := None |} eq_refl (or_introl eq_refl))
      as (s & resp & cmds & Ha & Hr & Hx & Hc). eauto 10. }
  destruct (api.Body r) as [req|err].
  2:{ destruct (refused h 400
                  {| api.Success := false;
                     api.Message := api.Sprintf "Invalid request body: %v"
                                      [Val err];
                     api.Data := None |} eq_refl (or_intror eq_refl))
        as (s & resp & cmds & Ha & Hr & Hx & Hc). eauto 10. }
  destruct (String.eqb (api.StopName req) "").
  { destruct (refused h 400
                {| api.Success := false;
                   api.Message := api.Lit "Recording name is required";
                   api.Data := None |} eq_refl (or_intror eq_refl))
      as (s & resp & cmds & Ha & Hr & Hx & Hc). eauto 10. }
  destruct (with_the_PID "JFR.stop" (λ _, ["name=" +:+ api.StopName req])
              (λ err output,
                 {| api.Success := false;
                    api.Message :=
                      api.Sprintf "Failed to stop profiling: %v, output: %s"
                        [Val err; Str output];
                    api.Data := None |})
              (λ pid output,
                 {| api.Success := true;
                    api.Message :=
                      api.Sprintf "JFR recording '%s' stopped successfully"
                        [Str (api.StopName req)];
                    api.Data := Some {[ "pid" := strconv.Itoa pid;
                                        "name" := api.StopName req;
                                        "output" := output ]} |})
              (λ _, mret tt) h h eq_refl eq_refl eq_refl eq_refl
              ltac:(reflexivity) ltac:(reflexivity) ltac:(cbn; auto))
    as (s & resp & cmds & Ha & Hr & Hx & Hc).
  exists s, resp, cmds. split; [exact Ha|]. split; [exact Hr|].
  split; [exact Hx|]. right.
  destruct Hc as [Hc|(pid & Hc)]; [left; exact Hc|right; eauto].
Qed.

Lemma create_commands (r : api.Request api.ProfileRequest) :
  runs_its_commands "JFR.start" (api.createProfileHandler r).
Proof.
  intros h. unfold api.createProfileHandler.
  destruct (negb _).
  { destruct (refused h 405 {| api.Success := false;
                              api.Message := api.Lit "Method not allowed";
                              api.Data := None |} eq_refl (or_introl eq_refl))
      as (s & resp & cmds & Ha & Hr & Hx & Hc). eauto 10. }
  destruct (api.Body r) as [req|err].
  2:{ destruct (refused h 400
                  {| api.Success := false;
                     api.Message := api.Sprintf "Invalid request body: %v"
                                      [Val err];
                     api.Data := None |} eq_refl (or_intror eq_refl))
        as (s & resp & cmds & Ha & Hr & Hx & Hc). eauto 10. }
  rewrite H_bind_eq. unfold api.Now at 1 2. cbn [fst snd].
  set (duration := if String.eqb (api.Duration req) "" then "60s"
                   else api.Duration req).
  set (name := if String.eqb (api.Name req) ""
               then "jfr_" +:+ ReplaceAll (api.clock h) ":" "-"
               else api.Name req).
  destruct (with_the_PID "JFR.start"
              (λ _, ["name=" +:+ name; "duration=" +:+ duration;
                     "filename=" +:+
                     filepath_Join api.profileDir (name +:+ ".jfr")])
              (λ err output,
                 {| api.Success := false;
                    api.Message :=
                      api.Sprintf "Failed to start profiling: %v, output: %s"
                        [Val err; Str output];
                    api.Data := None |})
              (λ pid output,
                 {| api.Success := true;
                    api.Message := api.Lit "Profiling started successfully";
                    api.Data := Some {[ "pid" := strconv.Itoa pid;
                                        "name" := name;
                                        "duration" := duration;
                                        "filename" := name +:+ ".jfr";
                                        "output" := output ]} |})
              (λ _, api.Log api.Debug
                      [("path", api.FStr (filepath_Join api.profileDir
                                            (name +:+ ".jfr")));
                       ("name", api.FStr name);
                       ("duration", api.FStr duration)]
                      "Creating profile file")
              h h eq_refl eq_refl eq_refl eq_refl
              ltac:(reflexivity) ltac:(reflexivity) ltac:(cbn; auto))
    as (s & resp & cmds & Ha & Hr & Hx & Hc).
  exists s, resp, cmds. split; [exact Ha|]. split; [exact Hr|].
  split; [exact Hx|]. right.
  destruct Hc as [Hc|(pid & Hc)]; [left; exact Hc|right; eauto].
Qed.

End answers.

(** X20.  Every handler answers its request once and only once: whatever
    the request and whatever the commands do, [healthHandler],
    [createProfileHandler], [stopProfileHandler] and
    [listRunningJFRHandler] write one status, which is 200, 400, 405 or
    500, and encode one [Response] as [application/json], whose [Success]
    is true exactly for status 200. *)
Theorem every_handler_answers_once :
  (forall A (r : api.Request A), answers_once (api.healthHandler r)) /\
  (forall r, answers_once (api.createProfileHandler r)) /\
  (forall r, answers_once (api.stopProfileHandler r)) /\
  (forall A (r : api.Request A), answers_once (api.listRunningJFRHandler r)).
Proof.
  assert (Hfrom : forall sub m, runs_its_commands sub m -> answers_once m).
  { intros sub m Hm h. destruct (Hm h) as (s & resp & cmds & Ha & _ & _ & Hc).
    exists s, resp. split; [exact Ha|]. apply status_listed.
    destruct Hc as [(_ & [-> | ->])|[(_ & -> & _)|(pid & args & _ & _ & [-> | ->])]];
      auto. }
  split; [|split; [|split]].
  - intros A r h. exists 200, {| api.Success := true;
                                 api.Message := api.Lit "API server is healthy";
                                 api.Data := None |}.
    split; [apply sendJSON_answered; reflexivity|].
    apply status_listed. auto.
  - intros r. eapply Hfrom, create_commands.
  - intros r. eapply Hfrom, stop_commands.
  - intros A r. eapply Hfrom, listRunning_commands.
Qed.

(** X21.  The API server runs [pgrep -x java] and [jcmd] and nothing else,
    and only for requests it accepts.  A request with the wrong method, a
    body that cannot be decoded or (to stop) no recording name is answered
    405 or 400 before any command is run; otherwise [pgrep] runs first, and
    [jcmd <pid> JFR.start|JFR.stop|JFR.check] follows only if
    [getJavaPID] found a PID, with that PID; status 200 is answered only
    after [jcmd] has run. *)
Theorem handlers_run_pgrep_then_jcmd :
  (forall r, runs_its_commands "JFR.start" (api.createProfileHandler r)) /\
  (forall r, runs_its_commands "JFR.stop" (api.stopProfileHandler r)) /\
  (forall A (r : api.Request A),
     runs_its_commands "JFR.check" (api.listRunningJFRHandler r)) /\
  (forall (r : api.Request api.ProfileRequest) h,
     api.Method r <> "POST" \/ (exists err, api.Body r = Err err) ->
     api.ran (api.createProfileHandler r h).2 = api.ran h) /\
  (forall (r : api.Request api.StopRequest) h,
     api.Method r <> "POST" \/ (exists err, api.Body r = Err err) \/
     (exists req, api.Body r = Ok req /\ api.StopName req = "") ->
     api.ran (api.stopProfileHandler r h).2 = api.ran h) /\
  (forall A (r : api.Request A) h,
     api.Method r <> "GET" ->
     api.ran (api.listRunningJFRHandler r h).2 = api.ran h).
Proof.
  split; [exact create_commands|]. split; [exact stop_commands|].
  split; [exact @listRunning_commands|].
  assert (Hneq : forall a b, a <> b -> negb (String.eqb a b) = true).
  { intros a b Hab. apply negb_true_iff, String.eqb_neq, Hab. }
  split; [|split].
  - intros r h Hrefused. unfold api.createProfileHandler.
    destruct (negb _) eqn:Hm; [reflexivity|].
    destruct Hrefused as [Hne|(err & ->)]; [|reflexivity].
    rewrite (Hneq _ api.MethodPost Hne) in Hm. discriminate.
  - intros r h Hrefused. unfold api.stopProfileHandler.
    destruct (negb _) eqn:Hm; [reflexivity|].
    destruct Hrefused as [Hne|[(err & ->)|(req & -> & ->)]];
      [|reflexivity|reflexivity].
    rewrite (Hneq _ api.MethodPost Hne) in Hm. discriminate.
  - intros A r h Hne. unfold api.listRunningJFRHandler.
    rewrite (Hneq _ api.MethodGet Hne). reflexivity.
Qed.

(** ** The file of a new recording *)

Section new_recording.

Lemma ReplaceAll_gone s (old new : ascii) :
  old <> new -> strings.Contains (ReplaceAll s old new) old = false.
Proof.
  intros Hne. induction s as [|c s IH]; [reflexivity|].
  cbn [ReplaceAll strings.Contains]. rewrite IH, orb_false_r.
  destruct (Ascii.eqb c old) eqn:E; [|exact E].
  apply Ascii.eqb_neq. congruence.
Qed.

(** With [.jfr] behind it, every name without separator is the name of a
    directory entry. *)
Lemma jfr_is_name name :
  strings.Contains name PathSeparator = false ->
  is_name (name +:+ ".jfr") = true.
Proof.
  intros Hplain. unfold is_name.
  assert (Hlen : forall s, String.length s < 4 ->
                   String.eqb (name +:+ ".jfr") s = false).
  { intros s Hs. apply String.eqb_neq. intros E.
    apply (f_equal String.length) in E. rewrite length_append in E.
    cbn in E. lia. }
  rewrite !Hlen by (cbn; lia).
  rewrite Contains_append, Hplain. reflexivity.
Qed.

Lemma Join_profileDir name :
  strings.Contains name PathSeparator = false ->
  filepath_Join api.profileDir (name +:+ ".jfr")
  = "/tmp/jfr/" +:+ name +:+ ".jfr".
Proof.
  intros Hplain.
  change (filepath_Join api.profileDir (name +:+ ".jfr"))
    with (filepath.Clean (below rootProfileDir [name +:+ ".jfr"])).
  rewrite Clean_below_root; [reflexivity|discriminate|].
  constructor; [apply jfr_is_name, Hplain|constructor].
Qed.

End new_recording.

(** X22.  A recording started through the API is written into the profile
    directory: for a POST whose body decodes, with one Java process
    running and a recording name without path separator (the given one,
    or [jfr_] and the time of day with its colons replaced), the handler
    runs [pgrep -x java] and then [jcmd <pid> JFR.start] with that name,
    the duration (60s if none is given) and the file
    [/tmp/jfr/<name>.jfr]; when [jcmd] succeeds it answers 200 with these
    values.  A name made up by the handler holds no colon. *)
Theorem created_recording_is_written_into_profileDir
  (r : api.Request api.ProfileRequest) req (pid : Z) out rest h :
  api.Method r = "POST" -> api.Body r = Ok req ->
  (0 <= pid < 2 ^ 63)%Z ->
  api.execs h = (strconv.Itoa pid +:+ LF, None) :: (out, None) :: rest ->
  strings.Contains (recording_name req h) PathSeparator = false ->
  api.ran (api.createProfileHandler r h).2
  = api.ran h ++
    [["pgrep"; "-x"; "java"];
     ["jcmd"; strconv.Itoa pid; "JFR.start";
      "name=" +:+ recording_name req h;
      "duration=" +:+ recording_duration req;
      "filename=/tmp/jfr/" +:+ recording_name req h +:+ ".jfr"]] /\
  api.statuses (api.createProfileHandler r h).2 = api.statuses h ++ [200] /\
  api.encoded (api.createProfileHandler r h).2
  = api.encoded h ++
    [started pid (recording_name req h) (recording_duration req) out] /\
  (api.Name req = "" ->
   strings.Contains (recording_name req h) ":" = false).
Proof.
  intros Hm Hb Hpid Hexecs Hplain.
  assert (Hcolon : api.Name req = "" ->
                   strings.Contains (recording_name req h) ":" = false).
  { intros Hn. unfold recording_name. rewrite Hn. cbn [String.eqb].
    rewrite Contains_append, ReplaceAll_gone by discriminate. reflexivity. }
  destruct (getJavaPID_frame h) as (Hs & He & _ & _ & Hr & Hx).
  pose proof (getJavaPID_Ok pid _ h Hpid Hexecs) as Hres.
  unfold api.createProfileHandler. rewrite Hm, Hb.
  change (negb (String.eqb "POST" api.MethodPost)) with false. cbn iota.
  rewrite H_bind_eq. cbn [api.Now fst snd].
  fold (recording_name req h). fold (recording_duration req).
  rewrite (Join_profileDir _ Hplain).
  rewrite H_bind_eq, Hres. cbn iota beta.
  rewrite H_bind_eq.
  match goal with
  | |- context [api.Log ?l ?f ?m (api.getJavaPID h).2] =>
      assert (Hx2 : api.execs (api.Log l f m (api.getJavaPID h).2).2
                    = (out, None) :: rest)
        by (cbn [api.Log snd api.execs]; rewrite Hx, Hexecs; reflexivity);
      assert (Hs2 : api.statuses (api.Log l f m (api.getJavaPID h).2).2
                    = api.statuses h)
        by (cbn [api.Log snd api.statuses]; exact Hs);
      assert (He2 : api.encoded (api.Log l f m (api.getJavaPID h).2).2
                    = api.encoded h)
        by (cbn [api.Log snd api.encoded]; exact He);
      assert (Hr2 : api.ran (api.Log l f m (api.getJavaPID h).2).2
                    = api.ran h ++ [pgrep])
        by (cbn [api.Log snd api.ran]; exact Hr);
      set (h2 := (api.Log l f m (api.getJavaPID h).2).2) in *
  end.
  rewrite H_bind_eq.
  assert (Hc : forall c, (api.CombinedOutput c h2).1 = (out, None))
    by (intros c; unfold api.CombinedOutput; cbn [fst];
        rewrite Hx2; reflexivity).
  rewrite Hc. cbn iota beta.
  unfold api.sendJSON, api.CombinedOutput.
  cbn [fst snd api.ran api.statuses api.encoded].
  rewrite Hr2, Hs2, He2, <- app_assoc.
  repeat split; try reflexivity. exact Hcolon.
Qed.

Lemma created_recording_witness :
  api.ran (api.createProfileHandler
             {| api.Method := "POST";
                api.Body := Ok {| api.Duration := ""; api.Name := "" |} |}
             java_host).2
  = [["pgrep"; "-x"; "java"];
     ["jcmd"; "4711"; "JFR.start"; "name=jfr_2024-05-06T07-08-09+02-00";
      "duration=60s";
      "filename=/tmp/jfr/jfr_2024-05-06T07-08-09+02-00.jfr"]].
Proof.
  destruct (created_recording_is_written_into_profileDir
              {| api.Method := "POST";
                 api.Body := Ok {| api.Duration := ""; api.Name := "" |} |}
              {| api.Duration := ""; api.Name := "" |}
              4711 "Started recording 1." [] java_host)
    as (Hran & _); [reflexivity|reflexivity|lia|reflexivity|reflexivity|].
  exact Hran.
Defined.

(** The separator matters: a name that climbs leaves the profile
    directory. *)
Example climbing_name_leaves_profileDir :
  filepath_Join api.profileDir ("../x" +:+ ".jfr") = "/tmp/x.jfr".
Proof. vm_compute. reflexivity. Qed.
